(** * Pincer: connection registry, request correlator and client lifecycle

    A shallow embedding of
    - plugin/src/connection-store.ts  (module [Store]),
    - the socket handler that plugin/index.ts imports as
      ./src/ws-handler.js             (module [WsHandler]),
    - src/lib/connection.ts           (module [Gateway]),
    together with the properties of these components.

    JavaScript [Map]s are association lists kept in insertion order,
    timestamps are integers (milliseconds), promises and timers are
    handles into an explicit run-time state. *)

From Stdlib Require Import String List ZArith Lia Bool Arith.
From Stdlib Require DecimalString.
Import ListNotations.
Open Scope string_scope.
Open Scope list_scope.

(** ** JavaScript [Map<string, V>]: insertion ordered, keys unique *)

Module JsMap.
Section WithValue.
Context {V : Type}.

Definition t := list (string * V).

Definition empty : t := [].

(** [m.get(k)] *)
Fixpoint get (k : string) (m : t) : option V :=
  match m with
  | [] => None
  | (k', v) :: rest => if String.eqb k' k then Some v else get k rest
  end.

(** [m.set(k, v)]: an existing key keeps its position, a new key is
    appended. *)
Fixpoint set (k : string) (v : V) (m : t) : t :=
  match m with
  | [] => [(k, v)]
  | (k', v') :: rest =>
      if String.eqb k' k then (k', v) :: rest else (k', v') :: set k v rest
  end.

(** [m.delete(k)] *)
Definition delete (k : string) (m : t) : t :=
  filter (fun e => negb (String.eqb (fst e) k)) m.

(** [m.values()] in iteration order *)
Definition values (m : t) : list V := map snd m.
End WithValue.
Arguments t : clear implicits.
End JsMap.

(** ** plugin/src/connection-store.ts *)

Module Store.

(** [new Error(message)] *)
Record JsError := mkError { message : string }.

Definition ConnectionClosed : JsError := mkError "Connection closed".
Definition CommandTimeout : JsError := mkError "Command timeout".
Definition ConnectionNotFound (id : string) : JsError :=
  mkError ("Connection not found: " ++ id)%string.
Definition ConnectionNotOpen (id : string) : JsError :=
  mkError ("Connection not open: " ++ id)%string.

(** The borrowed socket: an identity and the [readyState] observed. *)
Record WebSocket := mkWebSocket { socket : nat; readyState : Z }.

Definition OPEN : Z := 1.

Record PageContext := mkPageContext {
  ctx_url : string;
  ctx_title : string;
  selectedText : option string;
  visibleText : option string;
  meta : list (string * string);
  timestamp : Z
}.

(** A payload of type [unknown], by the shape it has: the two shapes
    the handlers read fields of, and any other value by its JSON text. *)
Inductive Value :=
| ContextValue (c : PageContext)
| SelectionValue (text : string)
| JsonValue (json : string).

Record TabConnection := mkTabConnection {
  id : string;
  tabId : Z;
  url : string;
  title : string;
  ws : WebSocket;
  connectedAt : Z;
  lastActivity : Z;
  context : option PageContext
}.

Record PincerCommand := mkPincerCommand {
  type : string;
  requestId : string;
  fields : list (string * Value)
}.

(** A context subscriber; [Some err] when the call throws [err]. *)
Definition Handler := TabConnection -> PageContext -> option JsError.

(** How a promise was settled. *)
Inductive Settlement :=
| Fulfilled (v : Value)
| Rejected (e : JsError).

(** An entry of [pendingCommands]: [resolve] and [reject] are the two
    settling functions of [promise], [timeout] is the timer handle. *)
Record Pending := mkPending { promise : nat; timeout : nat }.

(** A timer armed by [setTimeout] in [sendCommand]; its callback closes
    over the key [requestId] and over [reject] of the promise. *)
Record Timer := mkTimer {
  handle : nat;
  due : Z;
  t_key : string;
  t_promise : nat
}.

(** The three locals captured by the store's methods, and the run-time
    state they act on: the clock read by [Date.now()], the armed timers,
    the calls made so far to settling functions (oldest first), the
    frames written with [ws.send], the handler calls and the errors
    written to the console. *)
Record State := mkState {
  connections : JsMap.t TabConnection;
  pendingCommands : JsMap.t Pending;
  contextHandlers : list Handler;
  now : Z;
  timers : list Timer;
  settled : list (nat * Settlement);
  nextPromise : nat;
  nextTimer : nat;
  wire : list (nat * PincerCommand);
  invoked : list (nat * TabConnection * PageContext);
  console : list JsError
}.

Definition with_connections (c : JsMap.t TabConnection) (s : State) : State :=
  mkState c (pendingCommands s) (contextHandlers s) (now s) (timers s)
          (settled s) (nextPromise s) (nextTimer s) (wire s) (invoked s)
          (console s).

Definition with_pendingCommands (p : JsMap.t Pending) (s : State) : State :=
  mkState (connections s) p (contextHandlers s) (now s) (timers s)
          (settled s) (nextPromise s) (nextTimer s) (wire s) (invoked s)
          (console s).

Definition with_now (n : Z) (s : State) : State :=
  mkState (connections s) (pendingCommands s) (contextHandlers s) n (timers s)
          (settled s) (nextPromise s) (nextTimer s) (wire s) (invoked s)
          (console s).

Definition with_timers (t : list Timer) (s : State) : State :=
  mkState (connections s) (pendingCommands s) (contextHandlers s) (now s) t
          (settled s) (nextPromise s) (nextTimer s) (wire s) (invoked s)
          (console s).

Definition with_settled (l : list (nat * Settlement)) (s : State) : State :=
  mkState (connections s) (pendingCommands s) (contextHandlers s) (now s)
          (timers s) l (nextPromise s) (nextTimer s) (wire s) (invoked s)
          (console s).

(** [clearTimeout(h)] *)
Definition clearTimeout (h : nat) (s : State) : State :=
  with_timers (filter (fun t => negb (Nat.eqb (handle t) h)) (timers s)) s.

(** A call of [resolve] or [reject] of promise [p]. *)
Definition settle (p : nat) (o : Settlement) (s : State) : State :=
  with_settled (settled s ++ [(p, o)]) s.

(** The state of a promise: the first settling call wins, later calls
    have no effect; [None] while it is pending. *)
Definition promiseState (p : nat) (s : State) : option Settlement :=
  option_map snd (find (fun c => Nat.eqb (fst c) p) (settled s)).

(** Number of settling calls made on promise [p]. *)
Definition settleCalls (p : nat) (s : State) : nat :=
  List.length (filter (fun c => Nat.eqb (fst c) p) (settled s)).

Definition createConnectionStore (clock : Z) : State :=
  mkState JsMap.empty JsMap.empty [] clock [] [] 0 0 [] [] [].

Definition add (conn : TabConnection) (s : State) : State :=
  with_connections (JsMap.set (id conn) conn (connections s)) s.

(** One iteration of the clean-up loop of [remove]. *)
Definition removeStep (id : string) (st : State) (e : string * Pending) : State :=
  let (reqId, pending) := e in
  if String.prefix id reqId then
    let st1 := clearTimeout (timeout pending) st in
    let st2 := settle (promise pending) (Rejected ConnectionClosed) st1 in
    with_pendingCommands (JsMap.delete reqId (pendingCommands st2)) st2
  else st.

Definition remove (id : string) (s : State) : State :=
  match JsMap.get id (connections s) with
  | Some _ =>
      let s1 := with_connections (JsMap.delete id (connections s)) s in
      fold_left (removeStep id) (pendingCommands s) s1
  | None => s
  end.

Definition get (id : string) (s : State) : option TabConnection :=
  JsMap.get id (connections s).

Definition getByTabId (tab : Z) (s : State) : option TabConnection :=
  find (fun conn => Z.eqb (tabId conn) tab) (JsMap.values (connections s)).

(** [list()] *)
Definition list_ (s : State) : list TabConnection :=
  JsMap.values (connections s).

Definition onContextUpdate (handler : Handler) (s : State) : State :=
  mkState (connections s) (pendingCommands s) (contextHandlers s ++ [handler])
          (now s) (timers s) (settled s) (nextPromise s) (nextTimer s)
          (wire s) (invoked s) (console s).

(** The body of the fan-out loop for the handler at position [i]:
    the call is recorded, a thrown error is caught and logged. *)
Definition callHandler (i : nat) (h : Handler) (conn : TabConnection)
    (ctx : PageContext) (s : State) : State :=
  let inv := invoked s ++ [(i, conn, ctx)] in
  let con := match h conn ctx with
             | Some err => console s ++ [err]
             | None => console s
             end in
  mkState (connections s) (pendingCommands s) (contextHandlers s) (now s)
          (timers s) (settled s) (nextPromise s) (nextTimer s) (wire s)
          inv con.

Fixpoint notifyFrom (i : nat) (hs : list Handler) (conn : TabConnection)
    (ctx : PageContext) (s : State) : State :=
  match hs with
  | [] => s
  | h :: rest => notifyFrom (S i) rest conn ctx (callHandler i h conn ctx s)
  end.

Definition updateContext (id : string) (ctx : PageContext) (s : State) : State :=
  match JsMap.get id (connections s) with
  | Some conn =>
      let conn' :=
        mkTabConnection (Store.id conn) (tabId conn) (ctx_url ctx)
          (ctx_title ctx) (ws conn) (connectedAt conn) (now s) (Some ctx) in
      let s1 := with_connections (JsMap.set id conn' (connections s)) s in
      notifyFrom 0 (contextHandlers s1) conn' ctx s1
  | None => s
  end.

Fixpoint getActiveLoop (conns : list TabConnection)
    (active : option TabConnection) (maxActivity : Z) : option TabConnection :=
  match conns with
  | [] => active
  | conn :: rest =>
      if (lastActivity conn >? maxActivity)%Z
      then getActiveLoop rest (Some conn) (lastActivity conn)
      else getActiveLoop rest active maxActivity
  end.

Definition getActive (s : State) : option TabConnection :=
  getActiveLoop (JsMap.values (connections s)) None 0%Z.

(** [sendCommand]: [inl err] when the call throws before creating the
    promise, [inr p] with the handle of the promise returned. *)
Definition sendCommand (id : string) (command : PincerCommand) (s : State)
    : State * (JsError + nat) :=
  match JsMap.get id (connections s) with
  | None => (s, inl (ConnectionNotFound id))
  | Some conn =>
      if negb (readyState (ws conn) =? 1)%Z
      then (s, inl (ConnectionNotOpen id))
      else
        let p := nextPromise s in
        let requestId := (id ++ ":" ++ requestId command)%string in
        let h := nextTimer s in
        let t := mkTimer h (now s + 30000)%Z requestId p in
        (mkState (connections s)
                 (JsMap.set requestId (mkPending p h) (pendingCommands s))
                 (contextHandlers s) (now s) (timers s ++ [t]) (settled s)
                 (S p) (S h) (wire s ++ [(socket (ws conn), command)])
                 (invoked s) (console s),
         inr p)
  end.

(** The callback armed by [sendCommand], run when timer [t] expires. *)
Definition fire (t : Timer) (s : State) : State :=
  let s1 := clearTimeout (handle t) s in
  let s2 := with_pendingCommands (JsMap.delete (t_key t) (pendingCommands s1)) s1 in
  settle (t_promise t) (Rejected CommandTimeout) s2.

(** The clock advances by [d] milliseconds and every timer then due
    runs, in the order in which the timers were armed. *)
Definition elapse (d : Z) (s : State) : State :=
  let s1 := with_now (now s + d)%Z s in
  fold_left (fun st t => if (due t <=? now s1)%Z then fire t st else st)
            (timers s) s1.

(** The own properties of the object literal returned by
    [createConnectionStore]. The maps [connections] and [pendingCommands]
    and the array [contextHandlers] are locals of that function: the
    methods close over them, the object does not expose them. *)
Definition storeKeys : list string :=
  ["add"; "remove"; "get"; "getByTabId"; "list"; "updateContext";
   "getActive"; "sendCommand"; "onContextUpdate"].

(** [(store as any).pendingCommands] *)
Definition store_pendingCommands (s : State) : option (JsMap.t Pending) :=
  if existsb (String.eqb "pendingCommands") storeKeys
  then Some (pendingCommands s)
  else None.

Definition handleCommandResult (connId requestId : string) (result : Value)
    (s : State) : State :=
  let fullId := (connId ++ ":" ++ requestId)%string in
  match store_pendingCommands s with
  | None => s
  | Some pc =>
      match JsMap.get fullId pc with
      | Some pending =>
          let s1 := clearTimeout (timeout pending) s in
          let s2 := settle (promise pending) (Fulfilled result) s1 in
          with_pendingCommands (JsMap.delete fullId (pendingCommands s2)) s2
      | None => s
      end
  end.

End Store.

(** ** The operations of the store as events of one event loop *)

Module Loop.

Inductive Event :=
| Add (conn : Store.TabConnection)
| Remove (id : string)
| UpdateContext (id : string) (ctx : Store.PageContext)
| SendCommand (id : string) (command : Store.PincerCommand)
| CommandResult (connId requestId : string) (result : Store.Value)
| OnContextUpdate (handler : Store.Handler)
| Elapse (d : Z).

Definition step (s : Store.State) (ev : Event) : Store.State :=
  match ev with
  | Add conn => Store.add conn s
  | Remove id => Store.remove id s
  | UpdateContext id ctx => Store.updateContext id ctx s
  | SendCommand id command => fst (Store.sendCommand id command s)
  | CommandResult connId requestId result =>
      Store.handleCommandResult connId requestId result s
  | OnContextUpdate handler => Store.onContextUpdate handler s
  | Elapse d => Store.elapse d s
  end.

Definition run (evs : list Event) (s : Store.State) : Store.State :=
  fold_left step evs s.

(** Milliseconds that pass during [evs]. *)
Fixpoint elapsed (evs : list Event) : Z :=
  match evs with
  | [] => 0
  | Elapse d :: rest => d + elapsed rest
  | _ :: rest => elapsed rest
  end.

(** The clock never runs backwards. *)
Fixpoint monotone (evs : list Event) : bool :=
  match evs with
  | [] => true
  | Elapse d :: rest => (0 <=? d)%Z && monotone rest
  | _ :: rest => monotone rest
  end.

(** The events that end the request stored under [key] otherwise than by
    its timeout: [remove(id)] rejects the entry when [key] starts with
    [id], and a [command_result] for the same connection and request id
    is the matching result. *)
Definition settles (key : string) (ev : Event) : bool :=
  match ev with
  | Remove id => String.prefix id key
  | CommandResult connId requestId _ =>
      String.eqb (connId ++ ":" ++ requestId)%string key
  | _ => false
  end.

(** A state of a store made by [createConnectionStore]. *)
Definition reachable (s : Store.State) : Prop :=
  exists clock evs, s = run evs (Store.createConnectionStore clock).

End Loop.

(** ** The socket handler ([createWsHandler]) *)

Module WsHandler.

Record PincerMessage := mkPincerMessage {
  type : string;
  tabId : Z;
  url : string;
  timestamp : Z;
  requestId : option string;
  payload : Store.Value
}.

(** [message.payload as PageContext]: fields the payload lacks read as
    absent. *)
Definition asPageContext (p : Store.Value) : Store.PageContext :=
  match p with
  | Store.ContextValue c => c
  | _ => Store.mkPageContext "" "" None None [] 0
  end.

(** The locals of one call of [handleUpgrade]: the generated connection
    id, the socket, and [let tabId: number | undefined]. *)
Record Upgrade := mkUpgrade {
  connId : string;
  ws : Store.WebSocket;
  boundTabId : option Z
}.

(** JavaScript truthiness of a number and of [number | undefined]. *)
Definition truthy (n : Z) : bool := negb (n =? 0)%Z.

Definition truthyOpt (n : option Z) : bool :=
  match n with
  | Some n => truthy n
  | None => false
  end.

Definition handlePageContext (id : string) (context : Store.PageContext)
    (s : Store.State) : Store.State :=
  Store.updateContext id
    (Store.mkPageContext (Store.ctx_url context) (Store.ctx_title context)
       (Store.selectedText context) (Store.visibleText context)
       (Store.meta context) (Store.now s))
    s.

(** [handleSelection] reads the store and writes a log line only. *)
Definition handleSelection (id : string) (p : Store.Value) (s : Store.State)
    : Store.State := s.

Definition handleMessage (id : string) (message : PincerMessage)
    (st : Upgrade * Store.State) : Upgrade * Store.State :=
  let (u, s) := st in
  let (u1, s1) :=
    if truthy (tabId message) && negb (truthyOpt (boundTabId u))
    then (mkUpgrade (connId u) (ws u) (Some (tabId message)),
          Store.add
            (Store.mkTabConnection id (tabId message) (url message) ""
               (ws u) (Store.now s) (Store.now s) None)
            s)
    else (u, s) in
  if String.eqb (type message) "connect" then (u1, s1)
  else if String.eqb (type message) "disconnect" then (u1, Store.remove id s1)
  else if String.eqb (type message) "page_context"
       then (u1, handlePageContext id (asPageContext (payload message)) s1)
  else if String.eqb (type message) "selection"
       then (u1, handleSelection id (payload message) s1)
  else if String.eqb (type message) "command_result"
       then match requestId message with
            | Some r =>
                if String.eqb r "" then (u1, s1)
                else (u1, Store.handleCommandResult id r (payload message) s1)
            | None => (u1, s1)
            end
  else (u1, s1).

(** [handleUpgrade]: a new connection with no tab bound yet. *)
Definition handleUpgrade (generatedId : string) (socket : Store.WebSocket)
    : Upgrade :=
  mkUpgrade generatedId socket None.

(** [ws.on("message", ...)] for a frame that parses to [message]. *)
Definition onMessage (message : PincerMessage) (st : Upgrade * Store.State)
    : Upgrade * Store.State :=
  handleMessage (connId (fst st)) message st.

(** [ws.on("close", ...)] and [ws.on("error", ...)] *)
Definition onClose (st : Upgrade * Store.State) : Upgrade * Store.State :=
  (fst st, Store.remove (connId (fst st)) (snd st)).

Definition onMessages (messages : list PincerMessage)
    (st : Upgrade * Store.State) : Upgrade * Store.State :=
  fold_left (fun acc m => onMessage m acc) messages st.

(** The first truthy [tabId] among the messages. *)
Definition firstTabId (messages : list PincerMessage) : option Z :=
  option_map tabId (find (fun m => truthy (tabId m)) messages).

End WsHandler.

(** ** src/lib/connection.ts *)

Module Gateway.

Inductive ConnectionStatus := disconnected | connecting | connected | error.

(** [WebSocket.CONNECTING], [OPEN], [CLOSING], [CLOSED] *)
Definition CONNECTING : Z := 0.
Definition OPEN : Z := 1.
Definition CLOSING : Z := 2.
Definition CLOSED : Z := 3.

(** The private fields initialised once and never assigned again. *)
Definition maxReconnectAttempts : Z := 5.
Definition reconnectDelay : Z := 1000.

(** The fields of [GatewayConnection] that change, the socket being
    represented by its [readyState], and what the object does to its
    surroundings: the armed timers (handle and delay), the delay of every
    [setTimeout] call so far, and the calls of [events.onStatusChange] and
    [events.onError]. Timer handles are positive. *)
Record GatewayConnection := mkGateway {
  ws : option Z;
  reconnectTimer : option nat;
  reconnectAttempts : Z;
  timers : list (nat * Z);
  nextTimer : nat;
  delays : list Z;
  statusChanges : list ConnectionStatus;
  errors : list string
}.

Definition create : GatewayConnection :=
  mkGateway None None 0 [] 1 [] [] [].

(** [get status()] *)
Definition status (g : GatewayConnection) : ConnectionStatus :=
  match ws g with
  | None => disconnected
  | Some readyState =>
      if (readyState =? CONNECTING)%Z then connecting
      else if (readyState =? OPEN)%Z then connected
      else disconnected
  end.

Definition onStatusChange (st : ConnectionStatus) (g : GatewayConnection)
    : GatewayConnection :=
  mkGateway (ws g) (reconnectTimer g) (reconnectAttempts g) (timers g)
            (nextTimer g) (delays g) (statusChanges g ++ [st]) (errors g).

Definition onError (msg : string) (g : GatewayConnection) : GatewayConnection :=
  mkGateway (ws g) (reconnectTimer g) (reconnectAttempts g) (timers g)
            (nextTimer g) (delays g) (statusChanges g) (errors g ++ [msg]).

Definition with_ws (w : option Z) (g : GatewayConnection) : GatewayConnection :=
  mkGateway w (reconnectTimer g) (reconnectAttempts g) (timers g)
            (nextTimer g) (delays g) (statusChanges g) (errors g).

Definition with_attempts (n : Z) (g : GatewayConnection) : GatewayConnection :=
  mkGateway (ws g) (reconnectTimer g) n (timers g)
            (nextTimer g) (delays g) (statusChanges g) (errors g).

(** [connect()]; [opening] is [inl msg] when [new URL] or
    [new WebSocket] throws an error with that message. *)
Definition connect (opening : string + unit) (g : GatewayConnection)
    : GatewayConnection :=
  if match ws g with
     | Some readyState => (readyState =? OPEN)%Z
     | None => false
     end
  then g
  else
    let g1 := onStatusChange connecting g in
    match opening with
    | inr _ => with_ws (Some CONNECTING) g1
    | inl msg => onError msg (onStatusChange error g1)
    end.

Definition scheduleReconnect (g : GatewayConnection) : GatewayConnection :=
  if (reconnectAttempts g >=? maxReconnectAttempts)%Z then g
  else
    let delay := (reconnectDelay * 2 ^ reconnectAttempts g)%Z in
    let h := nextTimer g in
    mkGateway (ws g) (Some h) (reconnectAttempts g + 1)%Z
              (timers g ++ [(h, delay)]) (S h) (delays g ++ [delay])
              (statusChanges g) (errors g).

(** The handlers installed on the socket by [connect]. *)
Definition onopen (g : GatewayConnection) : GatewayConnection :=
  onStatusChange connected (with_attempts 0 g).

Definition onclose (g : GatewayConnection) : GatewayConnection :=
  scheduleReconnect (onStatusChange disconnected g).

Definition onerror (g : GatewayConnection) : GatewayConnection :=
  onError "WebSocket error" (onStatusChange error g).

Definition disconnect (g : GatewayConnection) : GatewayConnection :=
  let tm := match reconnectTimer g with
            | Some h => filter (fun t => negb (Nat.eqb (fst t) h)) (timers g)
            | None => timers g
            end in
  onStatusChange disconnected
    (mkGateway None None maxReconnectAttempts tm (nextTimer g) (delays g)
               (statusChanges g) (errors g)).

(** The socket changes its [readyState] and dispatches the event. *)
Definition setReadyState (r : Z) (g : GatewayConnection) : GatewayConnection :=
  with_ws (option_map (fun _ => r) (ws g)) g.

Definition socketOpened (g : GatewayConnection) : GatewayConnection :=
  onopen (setReadyState OPEN g).

Definition socketClosed (g : GatewayConnection) : GatewayConnection :=
  onclose (setReadyState CLOSED g).

Definition socketError (g : GatewayConnection) : GatewayConnection :=
  onerror g.

(** Timer [h] expires: its callback calls [connect()]. *)
Definition expire (h : nat) (opening : string + unit) (g : GatewayConnection)
    : GatewayConnection :=
  if existsb (fun t => Nat.eqb (fst t) h) (timers g) then
    connect opening
      (mkGateway (ws g) (reconnectTimer g) (reconnectAttempts g)
                 (filter (fun t => negb (Nat.eqb (fst t) h)) (timers g))
                 (nextTimer g) (delays g) (statusChanges g) (errors g))
  else g.

(** One failed attempt: the socket closes before it opens, and the timer
    armed by the close handler, if any, expires. *)
Definition failedAttempt (g : GatewayConnection) : GatewayConnection :=
  let g1 := socketClosed g in
  match timers g1 with
  | (h, _) :: _ => expire h (inr tt) g1
  | [] => g1
  end.

Fixpoint failedAttempts (n : nat) (g : GatewayConnection) : GatewayConnection :=
  match n with
  | O => g
  | S n' => failedAttempts n' (failedAttempt g)
  end.

End Gateway.

(** ** Concrete stores used below *)

Module Scenario.
Definition c1 : Store.TabConnection :=
  Store.mkTabConnection "c1" 7 "https://a" "" (Store.mkWebSocket 1 1)
    1000 1000 None.
Definition c10 : Store.TabConnection :=
  Store.mkTabConnection "c10" 8 "https://b" "" (Store.mkWebSocket 2 1)
    1000 1000 None.
Definition click (r : string) : Store.PincerCommand :=
  Store.mkPincerCommand "click" r [("ref", Store.JsonValue "e3")].
Definition ok : Store.Value := Store.JsonValue "{ok:true}".

(** [c1] registered, [click] sent to it under request id [r1]. *)
Definition sent : Store.State :=
  fst (Store.sendCommand "c1" (click "r1")
         (Store.add c1 (Store.createConnectionStore 1000))).

(** [c1] and [c10] registered, [click] sent to [c10]. *)
Definition sent10 : Store.State :=
  fst (Store.sendCommand "c10" (click "r1")
         (Store.add c10 (Store.add c1 (Store.createConnectionStore 1000)))).

(** A registry whose only connection was never active. *)
Definition idle : Store.State :=
  Store.add
    (Store.mkTabConnection "c1" 7 "https://a" "" (Store.mkWebSocket 1 1) 0 0 None)
    (Store.createConnectionStore 0).

(** [c1] registered with a socket that has closed. *)
Definition c1_closed : Store.TabConnection :=
  Store.mkTabConnection "c1" 7 "https://a" "" (Store.mkWebSocket 1 3)
    1000 1000 None.
Definition closed : Store.State :=
  Store.add c1_closed (Store.createConnectionStore 1000).
End Scenario.

(** ** Predicates and logs used in the statements *)

(** The errors thrown by the handlers [hs] on [conn] and [ctx], in order. *)
Definition thrown (hs : list Store.Handler) (conn : Store.TabConnection)
    (ctx : Store.PageContext) : list Store.JsError :=
  flat_map (fun h => match h conn ctx with
                     | Some err => [err]
                     | None => []
                     end) hs.

Module Handlers.
(** A subscriber that always throws, and one that returns. *)
Definition failing : Store.Handler :=
  fun _ _ => Some (Store.mkError "boom").
Definition quiet : Store.Handler := fun _ _ => None.
Definition page : Store.PageContext :=
  Store.mkPageContext "https://b" "B" None None [] 5.
Definition subscribed : Store.State :=
  Store.onContextUpdate quiet
    (Store.onContextUpdate failing Scenario.sent).
End Handlers.

(** Number of [setTimeout] calls made on the way from [g] to [g']. *)
Definition scheduledBetween (g g' : Gateway.GatewayConnection) : nat :=
  length (Gateway.delays g') - length (Gateway.delays g).

(** The client after five failed attempts in a row. *)
Definition exhausted : Gateway.GatewayConnection :=
  Gateway.failedAttempts 5 (Gateway.connect (inr tt) Gateway.create).

(** The entry of [id] in [s'], if any, has the tab of its entry in [s]. *)
Definition keepsTab (id : string) (s s' : Store.State) : Prop :=
  forall conn', Store.get id s' = Some conn' ->
    exists conn, Store.get id s = Some conn /\
                 Store.tabId conn' = Store.tabId conn.

(** What holds between the closure variable [tabId] and the registry. *)
Definition bindingHolds (id : string) (st : WsHandler.Upgrade * Store.State)
    : Prop :=
  WsHandler.connId (fst st) = id /\
  match WsHandler.boundTabId (fst st) with
  | None => Store.get id (snd st) = None
  | Some t =>
      t <> 0%Z /\
      forall conn, Store.get id (snd st) = Some conn -> Store.tabId conn = t
  end.

(** A [disconnect] frame. *)
Definition isDisconnect (m : WsHandler.PincerMessage) : bool :=
  String.eqb (WsHandler.type m) "disconnect".

(** The messages from the first one with a truthy [tabId] on. *)
Fixpoint sinceFirstTab (messages : list WsHandler.PincerMessage)
    : list WsHandler.PincerMessage :=
  match messages with
  | [] => []
  | m :: rest =>
      if WsHandler.truthy (WsHandler.tabId m) then m :: rest
      else sinceFirstTab rest
  end.

(** The entry stored for connection [id] when tab [t] was bound on
    [socket]. *)
Definition entryOf (id : string) (socket : Store.WebSocket) (t : Z)
    (s : Store.State) : Prop :=
  exists conn, Store.get id s = Some conn /\ Store.id conn = id /\
               Store.tabId conn = t /\ Store.ws conn = socket.

(** The tab [t] is bound and the registry holds the entry made for it. *)
Definition live (id : string) (socket : Store.WebSocket) (t : Z)
    (st : WsHandler.Upgrade * Store.State) : Prop :=
  WsHandler.connId (fst st) = id /\
  WsHandler.ws (fst st) = socket /\
  WsHandler.boundTabId (fst st) = Some t /\ t <> 0%Z /\
  entryOf id socket t (snd st).

(** What one iteration of the clean-up loop has done to an entry stays
    done during the rest of the loop. *)
Definition rejectedBy (k : string) (pe : Store.Pending) (st : Store.State)
    : Prop :=
  In (Store.promise pe, Store.Rejected Store.ConnectionClosed)
     (Store.settled st) /\
  (forall t, In t (Store.timers st) -> Store.handle t <> Store.timeout pe) /\
  JsMap.get k (Store.pendingCommands st) = None.

(** Armed timers have distinct handles and reject distinct promises;
    every handle and promise in use was allocated before. *)
Definition wf (s : Store.State) : Prop :=
  NoDup (map Store.handle (Store.timers s)) /\
  NoDup (map Store.t_promise (Store.timers s)) /\
  (forall t, In t (Store.timers s) ->
     Store.handle t < Store.nextTimer s /\
     Store.t_promise t < Store.nextPromise s) /\
  (forall e, In e (Store.pendingCommands s) ->
     Store.promise (snd e) < Store.nextPromise s /\
     Store.timeout (snd e) < Store.nextTimer s) /\
  (forall c, In c (Store.settled s) -> fst c < Store.nextPromise s).

(** The request stored under [key], with promise [p], and its timer [h]
    due at [deadline]. *)
Section RequestStates.
Variables (key : string) (p h : nat) (deadline : Z).

(** The request is pending: its timer is armed, no settling call was
    made on its promise, and only the entry under [key] can refer to the
    promise or to the timer. *)
Definition armed (s : Store.State) : Prop :=
  wf s /\
  In (Store.mkTimer h deadline key p) (Store.timers s) /\
  Store.settleCalls p s = 0 /\
  (forall e, In e (Store.pendingCommands s) ->
     Store.promise (snd e) = p \/ Store.timeout (snd e) = h -> fst e = key).

(** The request has timed out: one settling call was made on its
    promise, the rejection with "Command timeout", and neither a timer
    nor an entry refers to the promise any more. *)
Definition timedOut (s : Store.State) : Prop :=
  wf s /\
  p < Store.nextPromise s /\
  (forall t, In t (Store.timers s) -> Store.t_promise t <> p) /\
  (forall e, In e (Store.pendingCommands s) -> Store.promise (snd e) <> p) /\
  Store.settleCalls p s = 1 /\
  Store.promiseState p s = Some (Store.Rejected Store.CommandTimeout).
End RequestStates.

Module Window.
(** What happens while the request [c1:r1] of [Scenario.sent] waits, and
    after its deadline. *)
Definition during : list Loop.Event :=
  [Loop.Elapse 10000;
   Loop.SendCommand "c1" (Scenario.click "r2");
   Loop.CommandResult "c1" "r2" Scenario.ok;
   Loop.Remove "c2"].
Definition after : list Loop.Event :=
  [Loop.CommandResult "c1" "r1" Scenario.ok; Loop.Remove "c1"].

(** Frames received on one socket. *)
Definition frame (ty : string) (tab : Z) : WsHandler.PincerMessage :=
  WsHandler.mkPincerMessage ty tab "https://a" 0 None (Store.JsonValue "").
Definition before : list WsHandler.PincerMessage :=
  [frame "connect" 0; frame "connect" 7].
Definition rebinding : list WsHandler.PincerMessage :=
  [frame "connect" 9;
   WsHandler.mkPincerMessage "page_context" 9 "https://b" 0 None
     (Store.ContextValue Handlers.page)].
End Window.

(** ** The rest of the socket handler *)

Module Summary.

Definition quote : string := String (Ascii.ascii_of_nat 34) EmptyString.
Definition newline : string := String (Ascii.ascii_of_nat 10) EmptyString.

(** [a || b] on strings: the empty string is falsy. *)
Definition orElse (a b : string) : string :=
  if String.eqb a "" then b else a.

(** [formatContextSummary]: one line for the tab and, when text is
    selected, a second line quoting its first 100 characters. *)
Definition formatContextSummary (context : Store.PageContext) : string :=
  let parts :=
    [("Browser tab: "
      ++ orElse (Store.ctx_title context) (Store.ctx_url context))%string] in
  let parts :=
    match Store.selectedText context with
    | Some selected =>
        if String.eqb selected "" then parts
        else parts ++ [("Selected: " ++ quote ++ String.substring 0 100 selected
                        ++ "..." ++ quote)%string]
    | None => parts
    end in
  String.concat newline parts.

End Summary.

(** ** The client connection as driven by its events *)

Module Client.

(** What happens to a [GatewayConnection]: calls of its methods, the
    handlers it installed being run by some socket it opened, the current
    socket changing its [readyState], and a timer expiring. *)
Inductive Event :=
| Connect (opening : string + unit)
| Disconnect
| Opened
| Closed
| Errored
| ReadyState (r : Z)
| Expire (h : nat) (opening : string + unit).

Definition step (g : Gateway.GatewayConnection) (ev : Event)
    : Gateway.GatewayConnection :=
  match ev with
  | Connect opening => Gateway.connect opening g
  | Disconnect => Gateway.disconnect g
  | Opened => Gateway.onopen g
  | Closed => Gateway.onclose g
  | Errored => Gateway.onerror g
  | ReadyState r => Gateway.setReadyState r g
  | Expire h opening => Gateway.expire h opening g
  end.

Definition run (evs : list Event) (g : Gateway.GatewayConnection)
    : Gateway.GatewayConnection :=
  fold_left step evs g.

(** Events in which neither the caller nor a timer asks for a connection
    and no socket opens. *)
Definition passive (ev : Event) : bool :=
  match ev with
  | Closed | Errored | ReadyState _ => true
  | _ => false
  end.

(** Events other than a call of [connect()] by the caller and a socket
    opening or starting to open: closes and errors reported by sockets,
    timers expiring, [disconnect()], and a socket closing. *)
Definition unasked (ev : Event) : bool :=
  match ev with
  | Connect _ | Opened => false
  | ReadyState r =>
      negb ((r =? Gateway.CONNECTING)%Z || (r =? Gateway.OPEN)%Z)
  | Disconnect | Closed | Errored | Expire _ _ => true
  end.

(** [send(message)]: the frames written to the socket so far are kept
    beside the connection; [throws] tells whether [ws.send] throws. *)
Definition send {M : Type} (message : M) (throws : bool)
    (c : Gateway.GatewayConnection * list M)
    : (Gateway.GatewayConnection * list M) * bool :=
  let (g, written) := c in
  if negb match Gateway.ws g with
          | Some readyState => (readyState =? Gateway.OPEN)%Z
          | None => false
          end
  then (c, false)
  else if throws then (c, false)
  else ((g, written ++ [message]), true).

(** The delays the backoff can produce. *)
Definition backoffDelays : list Z := [1000; 2000; 4000; 8000; 16000]%Z.

(** What every client state satisfies. *)
Definition bounded (g : Gateway.GatewayConnection) : Prop :=
  (0 <= Gateway.reconnectAttempts g <= 5)%Z /\
  (forall d, In d (Gateway.delays g) -> In d backoffDelays) /\
  (forall t, In t (Gateway.timers g) -> In (snd t) backoffDelays).

End Client.

(** ** plugin/src/tools/index.ts: the target of a tool and [pincer_click] *)

Module Tools.

(** JavaScript truthiness of an optional string parameter. *)
Definition given (x : option string) : bool :=
  match x with
  | Some v => negb (String.eqb v "")
  | None => false
  end.

(** [params.tabId ? store.get(params.tabId) : store.getActive()] *)
Definition target (tabId : option string) (s : Store.State)
    : option Store.TabConnection :=
  match tabId with
  | Some id => if given tabId then Store.get id s else Store.getActive s
  | None => Store.getActive s
  end.

Record ClickParams := mkClickParams {
  tabId : option string;
  ref : option string;
  selector : option string
}.

(** The text of a result: a literal, or [JSON.stringify] of a value. *)
Inductive Text :=
| Literal (text : string)
| Stringified (v : Store.Value).

Record ToolResult := mkToolResult { text : Text; isError : bool }.

(** A template literal prints an [Error] as its name and message. *)
Definition printError (err : Store.JsError) : string :=
  ("Error: " ++ Store.message err)%string.

(** The fields of an object literal that are not [undefined]. *)
Definition defined (fields : list (string * option string))
    : list (string * Store.Value) :=
  flat_map (fun f => match snd f with
                     | Some v => [(fst f, Store.JsonValue v)]
                     | None => []
                     end) fields.

(** The command built by [pincer_click]; [Date.now()] is printed in
    decimal. *)
Definition clickCommand (params : ClickParams) (now : Z) : Store.PincerCommand :=
  Store.mkPincerCommand "click"
    ("click-" ++ DecimalString.NilZero.string_of_int (Z.to_int now))%string
    (defined [("ref", ref params); ("selector", selector params)]).

(** What ends the [try] block of [pincer_click], given how the awaited
    promise was settled. *)
Definition clickFinish (o : Store.Settlement) : ToolResult :=
  match o with
  | Store.Fulfilled result => mkToolResult (Stringified result) false
  | Store.Rejected err =>
      mkToolResult (Literal ("Click failed: " ++ printError err)%string) true
  end.

(** [execute] of [pincer_click] up to its [await]: the result, when it
    returns before waiting, or the promise it waits for. *)
Definition clickStart (params : ClickParams) (s : Store.State)
    : Store.State * (ToolResult + nat) :=
  match target (tabId params) s with
  | None => (s, inl (mkToolResult (Literal "No browser tab connected.") true))
  | Some conn =>
      if negb (given (ref params)) && negb (given (selector params))
      then (s, inl (mkToolResult (Literal "Either ref or selector required.")
                      true))
      else
        match Store.sendCommand (Store.id conn)
                (clickCommand params (Store.now s)) s with
        | (s', inl err) => (s', inl (clickFinish (Store.Rejected err)))
        | (s', inr p) => (s', inr p)
        end
  end.

End Tools.

(** A connection whose tab is bound and which is not registered. *)
Definition retired (id : string) (st : WsHandler.Upgrade * Store.State)
    : Prop :=
  WsHandler.connId (fst st) = id /\
  WsHandler.truthyOpt (WsHandler.boundTabId (fst st)) = true /\
  Store.get id (snd st) = None.

(** ** Invariants of the registry and of the correlator *)

(** Every connection is stored under its own id, once. *)
Definition keyed (s : Store.State) : Prop :=
  NoDup (map fst (Store.connections s)) /\
  (forall k conn, In (k, conn) (Store.connections s) -> Store.id conn = k).

(** Every entry of [pendingCommands] has its timer armed, for the same
    key and promise; the promise of an armed timer is unsettled; every
    promise handed out so far is either still awaited by an armed timer or
    was settled by exactly one call, a rejection with "Connection closed"
    or "Command timeout". *)
Definition correlated (s : Store.State) : Prop :=
  NoDup (map fst (Store.pendingCommands s)) /\
  (forall k pe, In (k, pe) (Store.pendingCommands s) ->
     exists d, In (Store.mkTimer (Store.timeout pe) d k (Store.promise pe))
                  (Store.timers s)) /\
  (forall t, In t (Store.timers s) ->
     Store.settleCalls (Store.t_promise t) s = 0) /\
  (forall p, Store.settleCalls p s <= 1) /\
  (forall p, p < Store.nextPromise s ->
     Store.settleCalls p s = 1 \/
     exists t, In t (Store.timers s) /\ Store.t_promise t = p) /\
  (forall c, In c (Store.settled s) ->
     snd c = Store.Rejected Store.ConnectionClosed \/
     snd c = Store.Rejected Store.CommandTimeout).

Definition sound (s : Store.State) : Prop := wf s /\ correlated s.

(** Every armed timer is due in the future, at most 30000 ms from now. *)
Definition timely (s : Store.State) : Prop :=
  forall t, In t (Store.timers s) ->
    (Store.now s < Store.due t <= Store.now s + 30000)%Z.

(** What the time-out callback and an iteration of the clean-up loop
    have in common: the timer [t] is cleared, its promise settled with
    [o], and the entry under its key deleted. *)
Definition cancel (t : Store.Timer) (o : Store.Settlement) (s : Store.State)
    : Store.State :=
  Store.mkState (Store.connections s)
    (JsMap.delete (Store.t_key t) (Store.pendingCommands s))
    (Store.contextHandlers s) (Store.now s)
    (filter (fun t' => negb (Nat.eqb (Store.handle t') (Store.handle t)))
            (Store.timers s))
    (Store.settled s ++ [(Store.t_promise t, o)])
    (Store.nextPromise s) (Store.nextTimer s) (Store.wire s)
    (Store.invoked s) (Store.console s).

(** The rejections made by [remove(id)], in order. *)
Definition rejections (id : string) (pending : JsMap.t Store.Pending)
    : list (nat * Store.Settlement) :=
  map (fun e => (Store.promise (snd e), Store.Rejected Store.ConnectionClosed))
      (filter (fun e => String.prefix id (fst e)) pending).

(** * Properties *)

(** ** Facts about [JsMap] *)

Section JsMapFacts.
Context {V : Type}.
Implicit Types (m : JsMap.t V) (k : string) (v : V).

Lemma get_delete_same k m : JsMap.get k (JsMap.delete k m) = None.
Proof.
  induction m as [|[k' v] m IH]; simpl; auto.
  destruct (String.eqb k' k) eqn:E; simpl; auto.
  now rewrite E.
Qed.

Lemma get_delete_other k k' m :
  k <> k' -> JsMap.get k' (JsMap.delete k m) = JsMap.get k' m.
Proof.
  intros Hne. induction m as [|[k0 v] m IH]; simpl; auto.
  destruct (String.eqb k0 k) eqn:E; simpl.
  - apply String.eqb_eq in E. subst k0.
    destruct (String.eqb k k') eqn:E'; auto.
    apply String.eqb_eq in E'. contradiction.
  - now rewrite IH.
Qed.

Lemma get_delete_None k k' m :
  JsMap.get k m = None -> JsMap.get k (JsMap.delete k' m) = None.
Proof.
  intros H. destruct (String.eqb k' k) eqn:E.
  - apply String.eqb_eq in E. subst. apply get_delete_same.
  - apply String.eqb_neq in E. now rewrite get_delete_other.
Qed.

Lemma get_set_same k v m : JsMap.get k (JsMap.set k v m) = Some v.
Proof.
  induction m as [|[k' v'] m IH]; simpl.
  - now rewrite String.eqb_refl.
  - destruct (String.eqb k' k) eqn:E; simpl; now rewrite E.
Qed.

Lemma get_set_other k k' v m :
  k <> k' -> JsMap.get k' (JsMap.set k v m) = JsMap.get k' m.
Proof.
  intros Hne. induction m as [|[k0 v0] m IH]; simpl.
  - destruct (String.eqb k k') eqn:E; auto.
    apply String.eqb_eq in E. contradiction.
  - destruct (String.eqb k0 k) eqn:E; simpl.
    + apply String.eqb_eq in E. subst k0.
      destruct (String.eqb k k') eqn:E'; auto.
      apply String.eqb_eq in E'. contradiction.
    + now rewrite IH.
Qed.

Lemma In_delete (e : string * V) k m : In e (JsMap.delete k m) -> In e m.
Proof. unfold JsMap.delete. rewrite filter_In. tauto. Qed.

Lemma In_set (e : string * V) k v m :
  In e (JsMap.set k v m) -> e = (k, v) \/ In e m.
Proof.
  induction m as [|[k' v'] m IH]; simpl.
  - intros [<-|[]]. now left.
  - destruct (String.eqb k' k) eqn:E; simpl.
    + apply String.eqb_eq in E. subst k'.
      intros [<-|H]; [now left | right; now right].
    + intros [<-|H]; [right; now left|].
      destruct (IH H) as [->|H']; [now left | right; now right].
Qed.
End JsMapFacts.

(** A loop keeps what each of its iterations keeps. *)
Lemma fold_left_keeps {A B : Type} (f : A -> B -> A) (P : A -> Prop) :
  forall (l : list B) (a : A),
    P a -> (forall a' b, In b l -> P a' -> P (f a' b)) ->
    P (fold_left f l a).
Proof.
  induction l as [|b l IH]; simpl; intros a Ha Hstep; [assumption|].
  apply IH.
  - apply Hstep; [now left | assumption].
  - intros a' b' Hb. apply Hstep. now right.
Qed.

(** ** The command-result handler *)

(** The store object has no [pendingCommands] property, so the handler
    finds nothing to resolve, whatever it is given. *)
Lemma handleCommandResult_unchanged connId requestId result s :
  Store.handleCommandResult connId requestId result s = s.
Proof. reflexivity. Qed.

(** C1, on the end-to-end scenario of the specification: with the
    request [c1:r1] pending, the matching [command_result] delivered
    through [handleCommandResult] leaves the promise unsettled, the entry
    in [pendingCommands] and the timer armed; the call is later rejected
    by its timeout instead of being resolved with the payload. *)
Theorem handleCommandResult_leaves_request_pending :
  let s := Store.handleCommandResult "c1" "r1" Scenario.ok Scenario.sent in
  Store.sendCommand "c1" (Scenario.click "r1")
    (Store.add Scenario.c1 (Store.createConnectionStore 1000))
    = (Scenario.sent, inr 0%nat) /\
  s = Scenario.sent /\
  Store.promiseState 0 s = None /\
  Store.settleCalls 0 s = 0%nat /\
  JsMap.get "c1:r1" (Store.pendingCommands s) = Some (Store.mkPending 0 0) /\
  Store.timers s = [Store.mkTimer 0 31000 "c1:r1" 0] /\
  Store.promiseState 0 (Store.elapse 30000 s)
    = Some (Store.Rejected Store.CommandTimeout).
Proof. repeat split. Qed.

(** ** [remove] *)

Lemma removeStep_connections id st e :
  Store.connections (Store.removeStep id st e) = Store.connections st.
Proof.
  destruct e as [k p]. unfold Store.removeStep.
  now destruct (String.prefix id k).
Qed.

Lemma remove_loop_connections id l st :
  Store.connections (fold_left (Store.removeStep id) l st) = Store.connections st.
Proof.
  revert st. induction l as [|e l IH]; intros st; simpl; auto.
  now rewrite IH, removeStep_connections.
Qed.

Lemma remove_connections id s :
  Store.connections (Store.remove id s) = JsMap.delete id (Store.connections s).
Proof.
  unfold Store.remove.
  destruct (JsMap.get id (Store.connections s)) eqn:E.
  - now rewrite remove_loop_connections.
  - clear -E. induction (Store.connections s) as [|[k v] m IH]; simpl in *; auto.
    destruct (String.eqb k id); [discriminate|]. simpl. now rewrite <- IH.
Qed.

(** After [remove(id)], [get(id)] finds nothing. *)
Lemma remove_get_same id s : Store.get id (Store.remove id s) = None.
Proof. unfold Store.get. rewrite remove_connections. apply get_delete_same. Qed.

Lemma remove_get_other id id' s :
  id <> id' -> Store.get id' (Store.remove id s) = Store.get id' s.
Proof.
  intros H. unfold Store.get. rewrite remove_connections.
  now apply get_delete_other.
Qed.

(** Removing an id that is not registered changes nothing. *)
Lemma remove_absent id s : Store.get id s = None -> Store.remove id s = s.
Proof. unfold Store.get, Store.remove. now intros ->. Qed.

(** A key built by [sendCommand] for connection [id] starts with [id]. *)
Lemma prefix_key id r : String.prefix id (id ++ ":" ++ r)%string = true.
Proof.
  induction id as [|a id IH]; simpl; [reflexivity|].
  destruct (Ascii.ascii_dec a a) as [_|Hne]; [exact IH | contradiction].
Qed.

Lemma removeStep_rejectedBy id k pe st e :
  rejectedBy k pe st -> rejectedBy k pe (Store.removeStep id st e).
Proof.
  intros (Hs & Ht & Hg). destruct e as [k' pe']. unfold Store.removeStep.
  destruct (String.prefix id k'); [|repeat split; assumption].
  split; [|split]; simpl.
  - apply in_or_app. now left.
  - intros t Hin. apply filter_In in Hin. now apply Ht.
  - now apply get_delete_None.
Qed.

(** [remove(id)] of a registered connection rejects every pending request
    whose key starts with [id], in particular those of the connection
    itself, with "Connection closed", clears its timer and deletes its
    entry. *)
Lemma remove_rejects_pending id s conn k pe :
  Store.get id s = Some conn ->
  In (k, pe) (Store.pendingCommands s) ->
  String.prefix id k = true ->
  rejectedBy k pe (Store.remove id s).
Proof.
  unfold Store.get, Store.remove. intros -> Hin Hpre.
  destruct (in_split _ _ Hin) as (l1 & l2 & ->).
  rewrite fold_left_app. simpl fold_left at 1.
  apply (fold_left_keeps (Store.removeStep id) (rejectedBy k pe)).
  - unfold Store.removeStep at 1. rewrite Hpre.
    split; [|split]; simpl.
    + apply in_or_app. right. now left.
    + intros t Ht. apply filter_In in Ht. destruct Ht as [_ Ht].
      now apply negb_true_iff, Nat.eqb_neq in Ht.
    + apply get_delete_same.
  - intros st e _. apply removeStep_rejectedBy.
Qed.

(** C2, at the failing input: with connections [c1] and [c10] registered
    and a request pending under [(c10, r1)], [remove("c1")] also rejects
    that request of [c10] with "Connection closed", releases its timer and
    deletes its entry, although [c10] stays registered: the loop tests
    [reqId.startsWith(id)] and "c10:r1" starts with "c1". *)
Theorem remove_rejects_request_of_other_connection :
  let s := Store.remove "c1" Scenario.sent10 in
  JsMap.get "c10:r1" (Store.pendingCommands Scenario.sent10)
    = Some (Store.mkPending 0 0) /\
  Store.promiseState 0 Scenario.sent10 = None /\
  Store.get "c1" s = None /\
  Store.get "c10" s = Some Scenario.c10 /\
  Store.promiseState 0 s = Some (Store.Rejected Store.ConnectionClosed) /\
  JsMap.get "c10:r1" (Store.pendingCommands s) = None /\
  Store.timers s = [].
Proof. repeat split. Qed.

(** ** [sendCommand]: immediate failures *)

(** C4: [sendCommand] to an id that is not registered fails at once
    with "Connection not found", and to a registered id whose socket is
    not open ([readyState] other than 1) with "Connection not open"; in
    both cases the state is the one before the call: no entry is added to
    [pendingCommands], no timer is armed, nothing is sent. *)
Theorem sendCommand_fails_immediately :
  forall (s : Store.State) (id : string) (command : Store.PincerCommand),
    (Store.get id s = None ->
     Store.sendCommand id command s = (s, inl (Store.ConnectionNotFound id))) /\
    (forall conn,
        Store.get id s = Some conn ->
        Store.readyState (Store.ws conn) <> Store.OPEN ->
        Store.sendCommand id command s = (s, inl (Store.ConnectionNotOpen id))).
Proof.
  intros s id command. unfold Store.get, Store.sendCommand. split.
  - now intros ->.
  - intros conn -> Hne.
    destruct (Store.readyState (Store.ws conn) =? 1)%Z eqn:E; auto.
    apply Z.eqb_eq in E. contradiction.
Qed.

Lemma sendCommand_fails_immediately_witness :
  Store.sendCommand "c2" (Scenario.click "r1") Scenario.sent
    = (Scenario.sent, inl (Store.ConnectionNotFound "c2")) /\
  Store.sendCommand "c1" (Scenario.click "r1") Scenario.closed
    = (Scenario.closed, inl (Store.ConnectionNotOpen "c1")).
Proof.
  split.
  - apply (proj1 (sendCommand_fails_immediately
                    Scenario.sent "c2" (Scenario.click "r1"))).
    reflexivity.
  - apply (proj2 (sendCommand_fails_immediately
                    Scenario.closed "c1" (Scenario.click "r1"))
             Scenario.c1_closed).
    + reflexivity.
    + vm_compute. lia.
Defined.

(** ** [updateContext] and the fan-out to subscribers *)

Lemma notifyFrom_spec hs : forall i conn ctx s,
  Store.notifyFrom i hs conn ctx s =
  Store.mkState (Store.connections s) (Store.pendingCommands s)
    (Store.contextHandlers s) (Store.now s) (Store.timers s)
    (Store.settled s) (Store.nextPromise s) (Store.nextTimer s) (Store.wire s)
    (Store.invoked s ++ map (fun j => (j, conn, ctx)) (seq i (length hs)))
    (Store.console s ++ thrown hs conn ctx).
Proof.
  induction hs as [|h hs IH]; intros i conn ctx s; simpl.
  - destruct s; simpl. now rewrite !app_nil_r.
  - rewrite IH. unfold Store.callHandler; simpl.
    rewrite <- !app_assoc. simpl.
    destruct (h conn ctx); simpl; [|reflexivity].
    now rewrite <- app_assoc.
Qed.

(** C7: when [id] is registered, [updateContext(id, context)] stores
    the passed context on the connection, sets [lastActivity] to the
    current time and [url], [title] to those of the context, and calls
    every registered handler once, in registration order, with the updated
    connection and the context, whether or not earlier handlers throw; the
    thrown errors go to the console and nothing else of the store changes.
    When [id] is not registered the call changes nothing. *)
Theorem updateContext_stores_and_notifies_all :
  forall (s : Store.State) (id : string) (ctx : Store.PageContext),
    (forall conn,
        Store.get id s = Some conn ->
        let conn' :=
          Store.mkTabConnection (Store.id conn) (Store.tabId conn)
            (Store.ctx_url ctx) (Store.ctx_title ctx) (Store.ws conn)
            (Store.connectedAt conn) (Store.now s) (Some ctx) in
        let s' := Store.updateContext id ctx s in
        Store.get id s' = Some conn' /\
        Store.invoked s' =
          Store.invoked s ++
          map (fun i => (i, conn', ctx))
              (seq 0 (length (Store.contextHandlers s))) /\
        Store.console s' =
          Store.console s ++ thrown (Store.contextHandlers s) conn' ctx /\
        (forall id', id <> id' -> Store.get id' s' = Store.get id' s) /\
        Store.contextHandlers s' = Store.contextHandlers s /\
        Store.pendingCommands s' = Store.pendingCommands s /\
        Store.timers s' = Store.timers s /\
        Store.settled s' = Store.settled s) /\
    (Store.get id s = None -> Store.updateContext id ctx s = s).
Proof.
  intros s id ctx. unfold Store.get, Store.updateContext. split.
  - intros conn ->. simpl. rewrite notifyFrom_spec. simpl.
    repeat split; auto.
    + apply get_set_same.
    + intros id' Hne. now apply get_set_other.
  - now intros ->.
Qed.

Lemma updateContext_stores_and_notifies_all_witness :
  let conn' :=
    Store.mkTabConnection "c1" 7 "https://b" "B" (Store.mkWebSocket 1 1)
      1000 1000 (Some Handlers.page) in
  let s' := Store.updateContext "c1" Handlers.page Handlers.subscribed in
  Store.get "c1" s' = Some conn' /\
  Store.invoked s' = [(0%nat, conn', Handlers.page); (1%nat, conn', Handlers.page)] /\
  Store.console s' = [Store.mkError "boom"] /\
  Store.updateContext "c2" Handlers.page Handlers.subscribed
    = Handlers.subscribed.
Proof.
  pose proof (updateContext_stores_and_notifies_all
                Handlers.subscribed "c1" Handlers.page) as [H _].
  pose proof (updateContext_stores_and_notifies_all
                Handlers.subscribed "c2" Handlers.page) as [_ H0].
  specialize (H Scenario.c1 eq_refl).
  destruct H as (H1 & H2 & H3 & _).
  intros conn' s'.
  split; [exact H1 | split; [exact H2 | split; [exact H3 |]]].
  apply H0. reflexivity.
Defined.

(** ** [getActive] *)

Lemma getActiveLoop_spec conns : forall active m,
  exists m',
    (m <= m')%Z /\
    (forall c, In c conns -> (Store.lastActivity c <= m')%Z) /\
    ((Store.getActiveLoop conns active m = active /\ m' = m) \/
     (exists c, Store.getActiveLoop conns active m = Some c /\ In c conns /\
                Store.lastActivity c = m' /\ (m < m')%Z)).
Proof.
  induction conns as [|conn rest IH]; intros active m; simpl.
  - exists m. split; [lia|]. split; [tauto|]. now left.
  - destruct (Store.lastActivity conn >? m)%Z eqn:E.
    + apply Z.gtb_lt in E.
      destruct (IH (Some conn) (Store.lastActivity conn))
        as (m' & Hle & Hall & [[Hr Hm]|(c & Hr & Hin & Hc & Hlt)]).
      * exists m'. split; [lia|]. split.
        { intros c [<-|Hc]; [lia | auto]. }
        right. exists conn. rewrite Hr. repeat split; auto; lia.
      * exists m'. split; [lia|]. split.
        { intros c' [<-|Hc']; [lia | auto]. }
        right. exists c. repeat split; auto; lia.
    + rewrite Z.gtb_ltb in E. apply Z.ltb_ge in E.
      destruct (IH active m)
        as (m' & Hle & Hall & [[Hr Hm]|(c & Hr & Hin & Hc & Hlt)]).
      * exists m'. split; [lia|]. split.
        { intros c [<-|Hc]; [lia | auto]. }
        left. auto.
      * exists m'. split; [lia|]. split.
        { intros c' [<-|Hc']; [lia | auto]. }
        right. exists c. repeat split; auto.
Qed.

(** C8: [getActive()] does not return the most recently active
    connection of a registry that is not empty when no [lastActivity] is
    above the initial [maxActivity = 0] of the scan. Over the registry whose
    only connection has [lastActivity] 0, which is the maximum over all
    connections, it returns not-found. *)
Theorem getActive_nonempty_not_found :
  exists conn,
    Store.list_ Scenario.idle = [conn] /\
    Store.lastActivity conn = 0%Z /\
    (forall c, In c (Store.list_ Scenario.idle) ->
               (Store.lastActivity c <= Store.lastActivity conn)%Z) /\
    Store.getActive Scenario.idle = None.
Proof.
  eexists. split; [reflexivity|]. split; [reflexivity|].
  split; [|reflexivity].
  intros c [<-|[]]. simpl. lia.
Qed.

(** Where the scan of [getActive()] succeeds: it returns not-found exactly
    when no connection has a positive [lastActivity] (in particular over
    an empty registry); otherwise it returns a registered connection whose
    [lastActivity] is the maximum over all connections. *)
Lemma getActive_returns_max_positive_activity :
  forall s : Store.State,
    (Store.list_ s = [] -> Store.getActive s = None) /\
    ((forall c, In c (Store.list_ s) -> (Store.lastActivity c <= 0)%Z) ->
     Store.getActive s = None) /\
    (forall c0, In c0 (Store.list_ s) -> (0 < Store.lastActivity c0)%Z ->
     exists c, Store.getActive s = Some c /\ In c (Store.list_ s) /\
               forall c', In c' (Store.list_ s) ->
                          (Store.lastActivity c' <= Store.lastActivity c)%Z).
Proof.
  intros s. unfold Store.getActive, Store.list_.
  destruct (getActiveLoop_spec (JsMap.values (Store.connections s)) None 0)
    as (m' & Hle & Hall & [[Hr Hm]|(c & Hr & Hin & Hc & Hlt)]).
  - subst m'. repeat split; auto.
    intros c0 Hin Hpos. specialize (Hall c0 Hin). lia.
  - split; [|split].
    + intros E. rewrite E in Hin. destruct Hin.
    + intros Hnon. specialize (Hnon c Hin). lia.
    + intros c0 Hin0 Hpos. exists c. repeat split; auto.
      intros c' Hc'. rewrite Hc. auto.
Qed.

Lemma getActive_returns_max_positive_activity_instances :
  Store.getActive (Store.createConnectionStore 0) = None /\
  Store.getActive Scenario.idle = None /\
  exists c, Store.getActive Scenario.sent10 = Some c /\
            In c (Store.list_ Scenario.sent10) /\
            forall c', In c' (Store.list_ Scenario.sent10) ->
                       (Store.lastActivity c' <= Store.lastActivity c)%Z.
Proof.
  split; [|split].
  - apply (proj1 (getActive_returns_max_positive_activity
                    (Store.createConnectionStore 0))).
    reflexivity.
  - apply (proj1 (proj2 (getActive_returns_max_positive_activity Scenario.idle))).
    simpl. intros c [<-|[]]. simpl. lia.
  - apply (proj2 (proj2 (getActive_returns_max_positive_activity Scenario.sent10))
             Scenario.c1).
    + simpl. now left.
    + simpl. lia.
Defined.

(** ** The client connection: status, backoff, error and close *)

(** C10: whatever the socket's [readyState], the [status] getter
    returns [disconnected], [connecting] or [connected] and never [error];
    it returns [disconnected] when there is no socket and when the socket
    is closing or closed. A socket error reaches the caller through
    [onStatusChange] only: the getter reads the same before and after. *)
Theorem status_never_error :
  forall g : Gateway.GatewayConnection,
    (Gateway.status g = Gateway.disconnected \/
     Gateway.status g = Gateway.connecting \/
     Gateway.status g = Gateway.connected) /\
    Gateway.status g <> Gateway.error /\
    (Gateway.ws g = None -> Gateway.status g = Gateway.disconnected) /\
    (Gateway.ws g = Some Gateway.CLOSING ->
     Gateway.status g = Gateway.disconnected) /\
    (Gateway.ws g = Some Gateway.CLOSED ->
     Gateway.status g = Gateway.disconnected) /\
    Gateway.statusChanges (Gateway.socketError g)
      = Gateway.statusChanges g ++ [Gateway.error] /\
    Gateway.status (Gateway.socketError g) = Gateway.status g.
Proof.
  intros g. unfold Gateway.status.
  repeat split; try (intros H; rewrite H; reflexivity).
  - destruct (Gateway.ws g) as [r|]; auto.
    destruct (r =? Gateway.CONNECTING)%Z; auto.
    destruct (r =? Gateway.OPEN)%Z; auto.
  - destruct (Gateway.ws g) as [r|]; [|discriminate].
    destruct (r =? Gateway.CONNECTING)%Z; [discriminate|].
    destruct (r =? Gateway.OPEN)%Z; discriminate.
Qed.

Lemma status_never_error_witness :
  Gateway.status (Gateway.socketError exhausted) <> Gateway.error /\
  Gateway.status Gateway.create = Gateway.disconnected /\
  Gateway.status (Gateway.socketClosed exhausted) = Gateway.disconnected.
Proof.
  split; [|split].
  - exact (proj1 (proj2 (status_never_error (Gateway.socketError exhausted)))).
  - destruct (status_never_error Gateway.create) as (_ & _ & H & _).
    apply H. reflexivity.
  - destruct (status_never_error (Gateway.socketClosed exhausted))
      as (_ & _ & _ & _ & H & _).
    apply H. reflexivity.
Defined.

Lemma connect_keeps opening g :
  Gateway.reconnectAttempts (Gateway.connect opening g)
    = Gateway.reconnectAttempts g /\
  Gateway.delays (Gateway.connect opening g) = Gateway.delays g /\
  Gateway.timers (Gateway.connect opening g) = Gateway.timers g.
Proof.
  unfold Gateway.connect.
  destruct (match Gateway.ws g with Some r => (r =? Gateway.OPEN)%Z | None => false end);
    [auto|].
  destruct opening; simpl; auto.
Qed.

Lemma expire_keeps h opening g :
  Gateway.reconnectAttempts (Gateway.expire h opening g)
    = Gateway.reconnectAttempts g /\
  Gateway.delays (Gateway.expire h opening g) = Gateway.delays g.
Proof.
  unfold Gateway.expire.
  destruct (existsb _ _); [|auto].
  destruct (connect_keeps opening
    (Gateway.mkGateway (Gateway.ws g) (Gateway.reconnectTimer g)
       (Gateway.reconnectAttempts g)
       (filter (fun t => negb (fst t =? h)%nat) (Gateway.timers g))
       (Gateway.nextTimer g) (Gateway.delays g) (Gateway.statusChanges g)
       (Gateway.errors g))) as (-> & -> & _).
  auto.
Qed.

Lemma socketClosed_spec g :
  Gateway.reconnectAttempts (Gateway.socketClosed g)
    = (if (Gateway.reconnectAttempts g <? 5)%Z
       then Gateway.reconnectAttempts g + 1
       else Gateway.reconnectAttempts g)%Z /\
  Gateway.delays (Gateway.socketClosed g)
    = (if (Gateway.reconnectAttempts g <? 5)%Z
       then Gateway.delays g ++ [1000 * 2 ^ Gateway.reconnectAttempts g]%Z
       else Gateway.delays g) /\
  Gateway.timers (Gateway.socketClosed g)
    = (if (Gateway.reconnectAttempts g <? 5)%Z
       then Gateway.timers g
              ++ [(Gateway.nextTimer g, 1000 * 2 ^ Gateway.reconnectAttempts g)%Z]
       else Gateway.timers g).
Proof.
  unfold Gateway.socketClosed, Gateway.onclose, Gateway.scheduleReconnect.
  simpl. unfold Gateway.maxReconnectAttempts, Gateway.reconnectDelay.
  rewrite Z.geb_leb.
  destruct (Gateway.reconnectAttempts g <? 5)%Z eqn:E.
  - apply Z.ltb_lt in E.
    destruct (5 <=? Gateway.reconnectAttempts g)%Z eqn:E'; simpl; auto.
    apply Z.leb_le in E'. lia.
  - apply Z.ltb_ge in E.
    destruct (5 <=? Gateway.reconnectAttempts g)%Z eqn:E'; simpl; auto.
    apply Z.leb_gt in E'. lia.
Qed.

Lemma failedAttempt_spec g :
  (Gateway.reconnectAttempts g < 5)%Z ->
  Gateway.reconnectAttempts (Gateway.failedAttempt g)
    = (Gateway.reconnectAttempts g + 1)%Z /\
  Gateway.delays (Gateway.failedAttempt g)
    = Gateway.delays g ++ [1000 * 2 ^ Gateway.reconnectAttempts g]%Z.
Proof.
  intros Hlt. unfold Gateway.failedAttempt.
  destruct (socketClosed_spec g) as (Ha & Hd & _).
  apply Z.ltb_lt in Hlt. rewrite Hlt in Ha, Hd.
  destruct (Gateway.timers (Gateway.socketClosed g)) as [|[h d] rest].
  - auto.
  - destruct (expire_keeps h (inr tt) (Gateway.socketClosed g)) as (-> & ->).
    auto.
Qed.

Lemma connect_from_disconnected g :
  Gateway.status g = Gateway.disconnected ->
  Gateway.status (Gateway.connect (inr tt) g) = Gateway.connecting.
Proof.
  unfold Gateway.status, Gateway.connect.
  destruct (Gateway.ws g) as [r|]; [|reflexivity].
  destruct (r =? Gateway.CONNECTING)%Z; [discriminate|].
  destruct (r =? Gateway.OPEN)%Z; [discriminate | reflexivity].
Qed.

Lemma unasked_step ev g :
  (5 <= Gateway.reconnectAttempts g)%Z ->
  Client.unasked ev = true ->
  let g' := Client.step g ev in
  (5 <= Gateway.reconnectAttempts g')%Z /\
  Gateway.delays g' = Gateway.delays g /\
  incl (Gateway.timers g') (Gateway.timers g) /\
  (Gateway.timers g = [] ->
   Gateway.status g = Gateway.disconnected ->
   Gateway.status g' = Gateway.disconnected).
Proof.
  intros H5 Hu. destruct ev; try discriminate; simpl.
  - unfold Gateway.disconnect, Gateway.maxReconnectAttempts. simpl.
    split; [lia|]. split; [reflexivity|]. split; [|reflexivity].
    destruct (Gateway.reconnectTimer g); [|apply incl_refl].
    intros t Hin. now apply filter_In in Hin.
  - unfold Gateway.onclose, Gateway.scheduleReconnect,
      Gateway.maxReconnectAttempts. simpl.
    rewrite Z.geb_leb.
    destruct (5 <=? Gateway.reconnectAttempts g)%Z eqn:E;
      [|apply Z.leb_gt in E; lia].
    simpl. split; [assumption|]. split; [reflexivity|].
    split; [apply incl_refl | auto].
  - split; [assumption|]. split; [reflexivity|].
    split; [apply incl_refl | auto].
  - simpl in Hu. apply negb_true_iff, orb_false_iff in Hu.
    destruct Hu as [H0 H1].
    split; [assumption|]. split; [reflexivity|].
    split; [apply incl_refl|]. intros _ _.
    unfold Gateway.status, Gateway.setReadyState. simpl.
    destruct (Gateway.ws g); simpl; [|reflexivity].
    now rewrite H0, H1.
  - destruct (expire_keeps h opening g) as (-> & ->).
    split; [assumption|]. split; [reflexivity|].
    unfold Gateway.expire. split.
    + destruct (existsb _ _); [|apply incl_refl].
      match goal with
      | |- incl (Gateway.timers (Gateway.connect _ ?g1)) _ =>
          destruct (connect_keeps opening g1) as (_ & _ & ->)
      end.
      simpl. intros t Hin. now apply filter_In in Hin.
    + intros Ht. rewrite Ht. simpl. auto.
Qed.

Lemma unasked_run evs : forall g,
  (5 <= Gateway.reconnectAttempts g)%Z ->
  forallb Client.unasked evs = true ->
  let g' := Client.run evs g in
  (5 <= Gateway.reconnectAttempts g')%Z /\
  Gateway.delays g' = Gateway.delays g /\
  incl (Gateway.timers g') (Gateway.timers g) /\
  (Gateway.timers g = [] ->
   Gateway.status g = Gateway.disconnected ->
   Gateway.status g' = Gateway.disconnected).
Proof.
  induction evs as [|ev evs IH]; intros g H5 Hu; simpl.
  - split; [assumption|]. split; [reflexivity|].
    split; [apply incl_refl | auto].
  - simpl in Hu. apply andb_true_iff in Hu. destruct Hu as [Hev Hu].
    destruct (unasked_step ev g H5 Hev) as (A1 & D1 & T1 & S1).
    destruct (IH _ A1 Hu) as (A2 & D2 & T2 & S2).
    split; [exact A2|]. split; [congruence|].
    split; [eapply incl_tran; eauto|].
    intros Ht Hs. apply S2; [|now apply S1].
    rewrite Ht in T1. now apply incl_l_nil.
Qed.

(** C5 as stated fails: when the fifth failure in a row has taken the
    counter to 5, the 16000 ms timer it armed is still running; the client
    reads [disconnected], and without any call of [connect()] by the caller
    the expiry of that timer opens a new socket. *)
Lemma counter_at_5_last_timer_reconnects :
  let g := Gateway.socketClosed
             (Gateway.failedAttempts 4
                (Gateway.connect (inr tt) Gateway.create)) in
  Gateway.delays g = [1000; 2000; 4000; 8000; 16000]%Z /\
  Gateway.reconnectAttempts g = 5%Z /\
  Gateway.status g = Gateway.disconnected /\
  Gateway.timers g = [(5%nat, 16000%Z)] /\
  forallb Client.unasked [Client.Expire 5 (inr tt)] = true /\
  Gateway.status (Client.run [Client.Expire 5 (inr tt)] g)
    = Gateway.connecting.
Proof. repeat split. Qed.

(** C5, amended: below five attempts [scheduleReconnect] arms one timer
    with delay 1000 * 2^attempts and increments the counter, so that five
    failed attempts in a row from counter 0 arm the delays 1000, 2000, 4000,
    8000 and 16000 ms; from counter 5 on it arms nothing and changes
    nothing. Every timer armed by a close, the fifth included, calls
    [connect()] when it expires. With the counter at 5 or more, as long as
    no socket opens and the caller does not call [connect()], whatever
    closes, errors, timer expiries and [disconnect()] calls follow, no
    [setTimeout] call is made and no timer is added; once no timer is armed
    and the client reads [disconnected], it stays so until [connect()] is
    called explicitly, and the success of that attempt resets the
    counter. *)
Theorem reconnect_backoff_schedule :
  (forall g,
      (0 <= Gateway.reconnectAttempts g < 5)%Z ->
      let g' := Gateway.scheduleReconnect g in
      let delay := (1000 * 2 ^ Gateway.reconnectAttempts g)%Z in
      Gateway.timers g' = Gateway.timers g ++ [(Gateway.nextTimer g, delay)] /\
      Gateway.delays g' = Gateway.delays g ++ [delay] /\
      Gateway.reconnectTimer g' = Some (Gateway.nextTimer g) /\
      Gateway.reconnectAttempts g' = (Gateway.reconnectAttempts g + 1)%Z) /\
  (forall g,
      Gateway.reconnectAttempts g = 0%Z ->
      let g' := Gateway.failedAttempts 5 g in
      Gateway.delays g'
        = Gateway.delays g ++ [1000; 2000; 4000; 8000; 16000]%Z /\
      Gateway.reconnectAttempts g' = 5%Z) /\
  (forall g,
      (5 <= Gateway.reconnectAttempts g)%Z ->
      Gateway.scheduleReconnect g = g) /\
  (forall g,
      (0 <= Gateway.reconnectAttempts g < 5)%Z ->
      let g' := Gateway.socketClosed g in
      let g'' := Gateway.expire (Gateway.nextTimer g) (inr tt) g' in
      Gateway.status g' = Gateway.disconnected /\
      Gateway.reconnectAttempts g'' = (Gateway.reconnectAttempts g + 1)%Z /\
      Gateway.status g'' = Gateway.connecting) /\
  (forall g,
      (5 <= Gateway.reconnectAttempts g)%Z ->
      let g' := Gateway.socketClosed g in
      Gateway.timers g' = Gateway.timers g /\
      Gateway.delays g' = Gateway.delays g /\
      Gateway.reconnectAttempts g' = Gateway.reconnectAttempts g /\
      Gateway.status g' = Gateway.disconnected) /\
  (forall g evs,
      (5 <= Gateway.reconnectAttempts g)%Z ->
      forallb Client.unasked evs = true ->
      let g' := Client.run evs g in
      Gateway.delays g' = Gateway.delays g /\
      incl (Gateway.timers g') (Gateway.timers g) /\
      (5 <= Gateway.reconnectAttempts g')%Z /\
      (Gateway.timers g = [] ->
       Gateway.status g = Gateway.disconnected ->
       Gateway.timers g' = [] /\
       Gateway.status g' = Gateway.disconnected /\
       Gateway.status (Gateway.connect (inr tt) g') = Gateway.connecting /\
       Gateway.reconnectAttempts
         (Gateway.socketOpened (Gateway.connect (inr tt) g')) = 0%Z)).
Proof.
  split; [|split; [|split; [|split; [|split]]]].
  - intros g [H0 H5] g' delay. subst g' delay.
    unfold Gateway.scheduleReconnect, Gateway.maxReconnectAttempts,
      Gateway.reconnectDelay.
    rewrite Z.geb_leb.
    destruct (5 <=? Gateway.reconnectAttempts g)%Z eqn:E.
    + apply Z.leb_le in E. lia.
    + simpl. auto.
  - intros g H0 g'. subst g'. simpl.
    destruct (failedAttempt_spec g) as (A1 & D1); [lia|].
    rewrite H0 in A1, D1. simpl in A1, D1.
    destruct (failedAttempt_spec (Gateway.failedAttempt g)) as (A2 & D2); [lia|].
    rewrite A1 in A2, D2. rewrite D1 in D2.
    set (g2 := Gateway.failedAttempt (Gateway.failedAttempt g)) in *.
    destruct (failedAttempt_spec g2) as (A3 & D3); [lia|].
    rewrite A2 in A3, D3. rewrite D2 in D3.
    set (g3 := Gateway.failedAttempt g2) in *.
    destruct (failedAttempt_spec g3) as (A4 & D4); [lia|].
    rewrite A3 in A4, D4. rewrite D3 in D4.
    set (g4 := Gateway.failedAttempt g3) in *.
    destruct (failedAttempt_spec g4) as (A5 & D5); [lia|].
    rewrite A4 in A5, D5. rewrite D4 in D5.
    rewrite A5, D5. rewrite <- !app_assoc. simpl. auto.
  - intros g H5.
    unfold Gateway.scheduleReconnect, Gateway.maxReconnectAttempts.
    rewrite Z.geb_leb.
    destruct (5 <=? Gateway.reconnectAttempts g)%Z eqn:E; [reflexivity|].
    apply Z.leb_gt in E. lia.
  - intros g [H0 H5] g' g''.
    destruct (socketClosed_spec g) as (Ha & _ & Htm).
    assert (E : (Gateway.reconnectAttempts g <? 5)%Z = true)
      by (apply Z.ltb_lt; lia).
    rewrite E in Ha, Htm. fold g' in Ha, Htm.
    assert (Hs : Gateway.status g' = Gateway.disconnected).
    { subst g'. unfold Gateway.socketClosed, Gateway.onclose,
        Gateway.scheduleReconnect, Gateway.maxReconnectAttempts. simpl.
      rewrite Z.geb_leb.
      destruct (5 <=? Gateway.reconnectAttempts g)%Z;
        unfold Gateway.status; simpl; destruct (Gateway.ws g); reflexivity. }
    split; [exact Hs|].
    destruct (expire_keeps (Gateway.nextTimer g) (inr tt) g') as (Ea & _).
    fold g'' in Ea. split; [congruence|].
    subst g''. unfold Gateway.expire. rewrite Htm, existsb_app.
    cbn [existsb fst]. rewrite Nat.eqb_refl, orb_true_r.
    apply connect_from_disconnected. exact Hs.
  - intros g H5 g'. subst g'.
    destruct (socketClosed_spec g) as (Ha & Hd & Htm).
    assert (E : (Gateway.reconnectAttempts g <? 5)%Z = false)
      by (apply Z.ltb_ge; lia).
    rewrite E in Ha, Hd, Htm.
    split; [assumption|]. split; [assumption|]. split; [assumption|].
    unfold Gateway.socketClosed, Gateway.onclose, Gateway.scheduleReconnect,
      Gateway.maxReconnectAttempts.
    simpl. rewrite Z.geb_leb.
    destruct (5 <=? Gateway.reconnectAttempts g)%Z;
      unfold Gateway.status; simpl; destruct (Gateway.ws g); reflexivity.
  - intros g evs H5 Hu g'.
    destruct (unasked_run evs g H5 Hu) as (A & D & T & S). fold g' in A, D, T, S.
    split; [exact D|]. split; [exact T|]. split; [exact A|].
    intros Ht Hs. specialize (S Ht Hs).
    split; [rewrite Ht in T; now apply incl_l_nil|].
    split; [exact S|].
    split; [now apply connect_from_disconnected|].
    unfold Gateway.socketOpened, Gateway.onopen. reflexivity.
Qed.

Lemma reconnect_backoff_schedule_witness :
  Gateway.delays exhausted = [1000; 2000; 4000; 8000; 16000]%Z /\
  Gateway.reconnectAttempts exhausted = 5%Z /\
  Gateway.scheduleReconnect exhausted = exhausted /\
  Gateway.delays (Gateway.scheduleReconnect Gateway.create) = [1000%Z] /\
  Gateway.status
    (Gateway.expire 1 (inr tt)
       (Gateway.socketClosed (Gateway.connect (inr tt) Gateway.create)))
    = Gateway.connecting /\
  Gateway.timers (Gateway.socketClosed exhausted) = [] /\
  Gateway.status
    (Client.run [Client.Errored; Client.Closed; Client.Expire 5 (inr tt)]
       (Gateway.socketClosed exhausted))
    = Gateway.disconnected.
Proof.
  destruct reconnect_backoff_schedule as (H1 & H2 & H3 & H4 & H5 & H6).
  assert (A : (5 <= Gateway.reconnectAttempts exhausted)%Z)
    by (vm_compute; discriminate).
  assert (A' : (5 <= Gateway.reconnectAttempts
                       (Gateway.socketClosed exhausted))%Z)
    by (vm_compute; discriminate).
  assert (B : (0 <= Gateway.reconnectAttempts Gateway.create < 5)%Z)
    by (vm_compute; split; [discriminate | reflexivity]).
  assert (B' : (0 <= Gateway.reconnectAttempts
                       (Gateway.connect (inr tt) Gateway.create) < 5)%Z)
    by (vm_compute; split; [discriminate | reflexivity]).
  split; [|split; [|split; [|split; [|split; [|split]]]]].
  - exact (proj1 (H2 (Gateway.connect (inr tt) Gateway.create) eq_refl)).
  - exact (proj2 (H2 (Gateway.connect (inr tt) Gateway.create) eq_refl)).
  - exact (H3 exhausted A).
  - destruct (H1 Gateway.create B) as (_ & H & _). exact H.
  - destruct (H4 (Gateway.connect (inr tt) Gateway.create) B') as (_ & _ & H).
    exact H.
  - destruct (H5 exhausted A) as (H & _). exact H.
  - destruct (H6 (Gateway.socketClosed exhausted)
                 [Client.Errored; Client.Closed; Client.Expire 5 (inr tt)]
                 A' eq_refl) as (_ & _ & _ & H).
    destruct (H eq_refl eq_refl) as (_ & H' & _). exact H'.
Defined.

(** C6 as stated fails: once the counter has reached 5, an error
    followed by its close schedules no reconnect at all. *)
Lemma error_then_close_schedules_none_when_exhausted :
  Gateway.reconnectAttempts exhausted = 5%Z /\
  scheduledBetween exhausted
    (Gateway.socketClosed (Gateway.socketError exhausted)) = 0%nat /\
  Gateway.timers (Gateway.socketClosed (Gateway.socketError exhausted)) = [].
Proof. repeat split. Qed.

(** C6, amended: a socket error only notifies the caller (status
    [error], then the error itself); it arms no timer and leaves the
    attempt counter alone. Scheduling happens in the close handler only, so
    an error followed by its close makes exactly one [setTimeout] call and
    one increment while the counter is below 5, and none once it has
    reached 5. *)
Theorem error_notifies_only_close_schedules :
  forall g : Gateway.GatewayConnection,
    let e := Gateway.socketError g in
    let c := Gateway.socketClosed e in
    Gateway.statusChanges e = Gateway.statusChanges g ++ [Gateway.error] /\
    Gateway.errors e = Gateway.errors g ++ ["WebSocket error"] /\
    Gateway.timers e = Gateway.timers g /\
    Gateway.delays e = Gateway.delays g /\
    Gateway.reconnectTimer e = Gateway.reconnectTimer g /\
    Gateway.reconnectAttempts e = Gateway.reconnectAttempts g /\
    Gateway.ws e = Gateway.ws g /\
    scheduledBetween g c
      = (if (Gateway.reconnectAttempts g <? 5)%Z then 1 else 0)%nat /\
    Gateway.reconnectAttempts c
      = (if (Gateway.reconnectAttempts g <? 5)%Z
         then Gateway.reconnectAttempts g + 1
         else Gateway.reconnectAttempts g)%Z.
Proof.
  intros g e c.
  repeat (split; [reflexivity|]).
  subst c. unfold scheduledBetween.
  destruct (socketClosed_spec e) as (Ha & Hd & _).
  rewrite Ha, Hd. subst e. simpl.
  destruct (Gateway.reconnectAttempts g <? 5)%Z; split; auto.
  - rewrite length_app. simpl. lia.
  - lia.
Qed.

(** ** The socket handler: one tab per connection *)

Lemma updateContext_connections id ctx s :
  Store.connections (Store.updateContext id ctx s) =
  match JsMap.get id (Store.connections s) with
  | Some conn =>
      JsMap.set id
        (Store.mkTabConnection (Store.id conn) (Store.tabId conn)
           (Store.ctx_url ctx) (Store.ctx_title ctx) (Store.ws conn)
           (Store.connectedAt conn) (Store.now s) (Some ctx))
        (Store.connections s)
  | None => Store.connections s
  end.
Proof.
  unfold Store.updateContext.
  destruct (JsMap.get id (Store.connections s)); [|reflexivity].
  now rewrite notifyFrom_spec.
Qed.

Lemma keepsTab_refl id s : keepsTab id s s.
Proof. intros conn' H. eauto. Qed.

Lemma keepsTab_remove id s : keepsTab id s (Store.remove id s).
Proof. intros conn' H. rewrite remove_get_same in H. discriminate. Qed.

Lemma keepsTab_updateContext id ctx s :
  keepsTab id s (Store.updateContext id ctx s).
Proof.
  intros conn'. unfold Store.get. rewrite updateContext_connections.
  destruct (JsMap.get id (Store.connections s)) as [conn|] eqn:E.
  - rewrite get_set_same. intros [= <-]. exists conn. auto.
  - rewrite E. discriminate.
Qed.

Lemma bindingHolds_keepsTab id u s s' :
  bindingHolds id (u, s) -> keepsTab id s s' -> bindingHolds id (u, s').
Proof.
  intros [Hid Hb] Hk. split; [assumption|]. simpl in *.
  destruct (WsHandler.boundTabId u) as [t|].
  - destruct Hb as [Ht Hb]. split; [assumption|].
    intros conn' H'. destruct (Hk conn' H') as (conn & Hc & ->). auto.
  - destruct (Store.get id s') as [conn'|] eqn:E; [|reflexivity].
    destruct (Hk conn' E) as (conn & Hc & _). congruence.
Qed.

Lemma handleMessage_binding id m st :
  bindingHolds id st ->
  bindingHolds id (WsHandler.handleMessage id m st) /\
  WsHandler.boundTabId (fst (WsHandler.handleMessage id m st)) =
    match WsHandler.boundTabId (fst st) with
    | Some t => Some t
    | None => if WsHandler.truthy (WsHandler.tabId m)
              then Some (WsHandler.tabId m) else None
    end.
Proof.
  destruct st as [u s]. intros Hb. unfold WsHandler.handleMessage.
  set (first := WsHandler.truthy (WsHandler.tabId m)
                && negb (WsHandler.truthyOpt (WsHandler.boundTabId u))).
  set (st1 := if first then _ else (u, s)).
  assert (H1 : bindingHolds id st1 /\
               WsHandler.boundTabId (fst st1) =
               match WsHandler.boundTabId u with
               | Some t => Some t
               | None => if WsHandler.truthy (WsHandler.tabId m)
                         then Some (WsHandler.tabId m) else None
               end).
  { subst st1 first. destruct Hb as [Hid Hb]. simpl in Hid, Hb.
    destruct (WsHandler.boundTabId u) as [t|] eqn:Eu; simpl.
    - destruct Hb as [Ht Hb].
      assert (Et : WsHandler.truthy t = true).
      { unfold WsHandler.truthy. apply Z.eqb_neq in Ht. now rewrite Ht. }
      rewrite Et, andb_false_r. split; [|exact Eu].
      split; [assumption|]. simpl. rewrite Eu. auto.
    - rewrite andb_true_r.
      destruct (WsHandler.truthy (WsHandler.tabId m)) eqn:Em.
      + split; [|reflexivity]. split; [assumption|]. simpl. split.
        * unfold WsHandler.truthy in Em. apply negb_true_iff in Em.
          now apply Z.eqb_neq in Em.
        * unfold Store.get, Store.add. simpl. rewrite get_set_same.
          now intros conn [= <-].
      + split; [|exact Eu]. split; [assumption|]. simpl. now rewrite Eu. }
  clearbody st1. clear first. destruct st1 as [u1 s1]. destruct H1 as [H1 H2].
  assert (K : forall s', keepsTab id s1 s' ->
                bindingHolds id (u1, s') /\
                WsHandler.boundTabId (fst (u1, s')) =
                match WsHandler.boundTabId u with
                | Some t => Some t
                | None => if WsHandler.truthy (WsHandler.tabId m)
                          then Some (WsHandler.tabId m) else None
                end).
  { intros s' Hk. split; [|exact H2]. eapply bindingHolds_keepsTab; eauto. }
  simpl fst.
  destruct (String.eqb (WsHandler.type m) "connect");
    [apply K, keepsTab_refl|].
  destruct (String.eqb (WsHandler.type m) "disconnect");
    [apply K, keepsTab_remove|].
  destruct (String.eqb (WsHandler.type m) "page_context");
    [apply K, keepsTab_updateContext|].
  destruct (String.eqb (WsHandler.type m) "selection");
    [apply K, keepsTab_refl|].
  destruct (String.eqb (WsHandler.type m) "command_result");
    [|apply K, keepsTab_refl].
  destruct (WsHandler.requestId m) as [r|]; [|apply K, keepsTab_refl].
  destruct (String.eqb r ""); apply K, keepsTab_refl.
Qed.

Lemma firstTabId_cons m msgs :
  WsHandler.firstTabId (m :: msgs) =
  if WsHandler.truthy (WsHandler.tabId m) then Some (WsHandler.tabId m)
  else WsHandler.firstTabId msgs.
Proof.
  unfold WsHandler.firstTabId. simpl.
  now destruct (WsHandler.truthy (WsHandler.tabId m)).
Qed.

Lemma onMessages_binding id msgs : forall st,
  bindingHolds id st ->
  bindingHolds id (WsHandler.onMessages msgs st) /\
  WsHandler.boundTabId (fst (WsHandler.onMessages msgs st)) =
    match WsHandler.boundTabId (fst st) with
    | Some t => Some t
    | None => WsHandler.firstTabId msgs
    end.
Proof.
  induction msgs as [|m msgs IH]; intros st Hb.
  - split; [assumption|]. simpl.
    now destruct (WsHandler.boundTabId (fst st)).
  - change (WsHandler.onMessages (m :: msgs) st)
      with (WsHandler.onMessages msgs (WsHandler.onMessage m st)).
    unfold WsHandler.onMessage.
    replace (WsHandler.connId (fst st)) with id by (symmetry; apply Hb).
    destruct (handleMessage_binding id m st Hb) as [Hb1 E1].
    destruct (IH _ Hb1) as [Hb2 E2].
    split; [assumption|]. rewrite E2, E1, firstTabId_cons.
    destruct (WsHandler.boundTabId (fst st)); [reflexivity|].
    now destruct (WsHandler.truthy (WsHandler.tabId m)).
Qed.

Lemma handlePageContext_absent id context s :
  Store.get id s = None -> WsHandler.handlePageContext id context s = s.
Proof.
  unfold Store.get, WsHandler.handlePageContext, Store.updateContext.
  now intros ->.
Qed.

Lemma handleMessage_unbound id m u s :
  WsHandler.boundTabId u = None ->
  WsHandler.truthy (WsHandler.tabId m) = false ->
  Store.get id s = None ->
  WsHandler.handleMessage id m (u, s) = (u, s).
Proof.
  intros Hb Ht Hg. unfold WsHandler.handleMessage. rewrite Ht. simpl.
  destruct (String.eqb (WsHandler.type m) "connect"); [reflexivity|].
  destruct (String.eqb (WsHandler.type m) "disconnect");
    [now rewrite remove_absent|].
  destruct (String.eqb (WsHandler.type m) "page_context");
    [now rewrite handlePageContext_absent|].
  destruct (String.eqb (WsHandler.type m) "selection"); [reflexivity|].
  destruct (String.eqb (WsHandler.type m) "command_result"); [|reflexivity].
  destruct (WsHandler.requestId m) as [r|]; [|reflexivity].
  now destruct (String.eqb r "").
Qed.

Lemma handleMessage_retired id m st :
  retired id st -> retired id (WsHandler.handleMessage id m st).
Proof.
  destruct st as [u s]. intros (Hid & Hb & Hg). simpl in *.
  unfold WsHandler.handleMessage. rewrite Hb, andb_false_r.
  assert (K : forall s', Store.get id s' = None -> retired id (u, s'))
    by (intros s' H; now repeat split).
  destruct (String.eqb (WsHandler.type m) "connect"); [now apply K|].
  destruct (String.eqb (WsHandler.type m) "disconnect");
    [apply K, remove_get_same|].
  destruct (String.eqb (WsHandler.type m) "page_context");
    [apply K; now rewrite handlePageContext_absent|].
  destruct (String.eqb (WsHandler.type m) "selection"); [now apply K|].
  destruct (String.eqb (WsHandler.type m) "command_result"); [|now apply K].
  destruct (WsHandler.requestId m) as [r|]; [|now apply K].
  destruct (String.eqb r ""); now apply K.
Qed.

Lemma onMessages_retired id messages : forall st,
  retired id st -> retired id (WsHandler.onMessages messages st).
Proof.
  induction messages as [|m messages IH]; intros st Hr; [assumption|].
  change (WsHandler.onMessages (m :: messages) st)
    with (WsHandler.onMessages messages (WsHandler.onMessage m st)).
  apply IH. unfold WsHandler.onMessage.
  replace (WsHandler.connId (fst st)) with id by (symmetry; apply Hr).
  now apply handleMessage_retired.
Qed.

Lemma onMessages_app l1 l2 st :
  WsHandler.onMessages (l1 ++ l2) st
    = WsHandler.onMessages l2 (WsHandler.onMessages l1 st).
Proof. unfold WsHandler.onMessages. apply fold_left_app. Qed.

Lemma truthy_nonzero t : t <> 0%Z -> WsHandler.truthy t = true.
Proof.
  intros Ht. unfold WsHandler.truthy. apply Z.eqb_neq in Ht. now rewrite Ht.
Qed.

Lemma entryOf_updateContext id socket t ctx s :
  entryOf id socket t s -> entryOf id socket t (Store.updateContext id ctx s).
Proof.
  intros (conn & Hg & Hi & Ht & Hw). unfold entryOf, Store.get in *.
  rewrite updateContext_connections, Hg, get_set_same.
  eexists. split; [reflexivity|]. simpl. auto.
Qed.

(** A bound connection that is registered stays so with its tab, its id and
    its socket under every frame but [disconnect], which retires it. *)
Lemma handleMessage_live id socket t m st :
  live id socket t st ->
  if isDisconnect m then retired id (WsHandler.handleMessage id m st)
  else live id socket t (WsHandler.handleMessage id m st).
Proof.
  destruct st as [u s]. intros (Hid & Hws & Hb & Ht & He). simpl in *.
  unfold WsHandler.handleMessage, isDisconnect.
  rewrite Hb. simpl WsHandler.truthyOpt.
  rewrite (truthy_nonzero t Ht), andb_false_r.
  assert (K : forall s', entryOf id socket t s' -> live id socket t (u, s'))
    by (intros s' H; now repeat split).
  destruct (String.eqb (WsHandler.type m) "disconnect") eqn:Ed.
  - destruct (String.eqb (WsHandler.type m) "connect") eqn:Ec.
    + apply String.eqb_eq in Ed, Ec. congruence.
    + split; [assumption|]. simpl. rewrite Hb. simpl.
      split; [now apply truthy_nonzero | apply remove_get_same].
  - destruct (String.eqb (WsHandler.type m) "connect"); [now apply K|].
    destruct (String.eqb (WsHandler.type m) "page_context");
      [apply K; now apply entryOf_updateContext|].
    destruct (String.eqb (WsHandler.type m) "selection"); [now apply K|].
    destruct (String.eqb (WsHandler.type m) "command_result"); [|now apply K].
    destruct (WsHandler.requestId m) as [r|]; [|now apply K].
    destruct (String.eqb r ""); now apply K.
Qed.

(** The first frame with a truthy [tabId] is handled as in the state in
    which the tab is bound and the entry registered. *)
Lemma handleMessage_first id m u s :
  WsHandler.boundTabId u = None ->
  WsHandler.truthy (WsHandler.tabId m) = true ->
  let st1 :=
    (WsHandler.mkUpgrade (WsHandler.connId u) (WsHandler.ws u)
       (Some (WsHandler.tabId m)),
     Store.add
       (Store.mkTabConnection id (WsHandler.tabId m) (WsHandler.url m) ""
          (WsHandler.ws u) (Store.now s) (Store.now s) None) s) in
  WsHandler.handleMessage id m (u, s) = WsHandler.handleMessage id m st1 /\
  (WsHandler.connId u = id ->
   live id (WsHandler.ws u) (WsHandler.tabId m) st1).
Proof.
  intros Hb Ht st1. split.
  - subst st1. unfold WsHandler.handleMessage.
    rewrite Hb. simpl WsHandler.boundTabId. simpl WsHandler.truthyOpt.
    rewrite Ht. reflexivity.
  - intros Hid. subst st1. split; [exact Hid|]. split; [reflexivity|].
    split; [reflexivity|]. split.
    + unfold WsHandler.truthy in Ht. apply negb_true_iff in Ht.
      now apply Z.eqb_neq in Ht.
    + simpl. eexists. unfold Store.get, Store.add. simpl.
      rewrite get_set_same. split; [reflexivity|]. simpl. auto.
Qed.

Lemma onMessages_live id socket t msgs : forall st,
  live id socket t st ->
  if existsb isDisconnect msgs then retired id (WsHandler.onMessages msgs st)
  else live id socket t (WsHandler.onMessages msgs st).
Proof.
  induction msgs as [|m msgs IH]; intros st Hl; [exact Hl|].
  change (WsHandler.onMessages (m :: msgs) st)
    with (WsHandler.onMessages msgs (WsHandler.onMessage m st)).
  unfold WsHandler.onMessage.
  replace (WsHandler.connId (fst st)) with id by (symmetry; apply Hl).
  pose proof (handleMessage_live id socket t m st Hl) as H.
  cbn [existsb]. destruct (isDisconnect m); cbn [orb].
  - now apply onMessages_retired.
  - now apply IH.
Qed.

(** What the registry holds for the connection after any frames. *)
Lemma onMessages_registry id socket s msgs :
  Store.get id s = None ->
  let st := WsHandler.onMessages msgs (WsHandler.handleUpgrade id socket, s) in
  match WsHandler.firstTabId msgs with
  | None => st = (WsHandler.handleUpgrade id socket, s)
  | Some t =>
      if existsb isDisconnect (sinceFirstTab msgs) then retired id st
      else live id socket t st
  end.
Proof.
  intros Hg. induction msgs as [|m msgs IH]; [reflexivity|].
  cbn zeta. rewrite firstTabId_cons. cbn [sinceFirstTab].
  change (WsHandler.onMessages (m :: msgs)
            (WsHandler.handleUpgrade id socket, s))
    with (WsHandler.onMessages msgs
            (WsHandler.onMessage m (WsHandler.handleUpgrade id socket, s))).
  unfold WsHandler.onMessage. simpl fst. simpl WsHandler.connId.
  destruct (WsHandler.truthy (WsHandler.tabId m)) eqn:Et.
  - destruct (handleMessage_first id m (WsHandler.handleUpgrade id socket) s
                eq_refl Et) as [E Hl].
    rewrite E. specialize (Hl eq_refl). simpl WsHandler.ws in Hl.
    pose proof (handleMessage_live id socket (WsHandler.tabId m) m _ Hl) as H.
    cbn [existsb]. destruct (isDisconnect m); cbn [orb].
    + now apply onMessages_retired.
    + now apply onMessages_live.
  - rewrite handleMessage_unbound; auto.
Qed.

Lemma firstTabId_app pre post t :
  WsHandler.firstTabId pre = Some t ->
  WsHandler.firstTabId (pre ++ post) = Some t /\
  sinceFirstTab (pre ++ post) = sinceFirstTab pre ++ post.
Proof.
  induction pre as [|m pre IH]; [discriminate|].
  rewrite <- app_comm_cons, !firstTabId_cons. cbn [sinceFirstTab].
  destruct (WsHandler.truthy (WsHandler.tabId m)); auto.
Qed.

(** C9: on one socket, starting with no tab bound and the generated id
    not yet registered, after any messages [pre] the bound tab is the first
    truthy [tabId] of [pre], and a registry entry for the connection, when
    there is one, carries that tab; once a tab [t] is bound, it remains the
    bound tab and the tab of the registry entry after any further messages
    [post], whatever tab ids they carry. The entry is stored: before a
    message carries a tab id the connection is not registered; from the
    first such message on the registry holds an entry under the connection
    id with that tab id and the socket, until a [disconnect] frame removes
    it, and no later message, whatever tab id it carries, changes the tab
    of the entry. *)
Theorem tab_binding_first_write_wins :
  forall (id : string) (socket : Store.WebSocket) (s : Store.State)
         (pre post : list WsHandler.PincerMessage),
    Store.get id s = None ->
    let st1 := WsHandler.onMessages pre (WsHandler.handleUpgrade id socket, s) in
    let st2 := WsHandler.onMessages post st1 in
    WsHandler.boundTabId (fst st1) = WsHandler.firstTabId pre /\
    (forall conn, Store.get id (snd st1) = Some conn ->
                  WsHandler.firstTabId pre = Some (Store.tabId conn)) /\
    (forall t, WsHandler.boundTabId (fst st1) = Some t ->
               WsHandler.boundTabId (fst st2) = Some t /\
               forall conn, Store.get id (snd st2) = Some conn ->
                            Store.tabId conn = t) /\
    (WsHandler.firstTabId pre = None -> Store.get id (snd st1) = None) /\
    (forall t, WsHandler.firstTabId pre = Some t ->
       if existsb isDisconnect (sinceFirstTab pre)
       then Store.get id (snd st1) = None
       else exists conn,
              Store.get id (snd st1) = Some conn /\ Store.id conn = id /\
              Store.tabId conn = t /\ Store.ws conn = socket) /\
    (forall t, WsHandler.firstTabId pre = Some t ->
       existsb isDisconnect (sinceFirstTab pre ++ post) = false ->
       exists conn,
         Store.get id (snd st2) = Some conn /\ Store.id conn = id /\
         Store.tabId conn = t /\ Store.ws conn = socket).
Proof.
  intros id socket s pre post Hfresh st1 st2.
  assert (H0 : bindingHolds id (WsHandler.handleUpgrade id socket, s))
    by (split; [reflexivity | exact Hfresh]).
  destruct (onMessages_binding id pre _ H0) as [Hb1 E1]. simpl in E1.
  fold st1 in Hb1, E1.
  destruct (onMessages_binding id post _ Hb1) as [Hb2 E2]. fold st2 in Hb2, E2.
  pose proof (onMessages_registry id socket s pre Hfresh) as R1.
  cbn zeta in R1. fold st1 in R1.
  split; [exact E1|]. split; [|split; [|split; [|split]]].
  - intros conn Hc. destruct Hb1 as [_ Hb1]. rewrite <- E1.
    destruct (WsHandler.boundTabId (fst st1)) as [t|].
    + destruct Hb1 as [_ Hb1]. now rewrite (Hb1 conn Hc).
    + congruence.
  - intros t Ht. rewrite Ht in E2. split; [exact E2|].
    destruct Hb2 as [_ Hb2]. rewrite E2 in Hb2. apply Hb2.
  - intros Hn. rewrite Hn in R1. now rewrite R1.
  - intros t Ht. rewrite Ht in R1.
    destruct (existsb isDisconnect (sinceFirstTab pre)).
    + apply R1.
    + apply R1.
  - intros t Ht Hd.
    destruct (firstTabId_app pre post t Ht) as [F S].
    pose proof (onMessages_registry id socket s (pre ++ post) Hfresh) as R2.
    cbn zeta in R2. rewrite onMessages_app in R2. fold st1 st2 in R2.
    rewrite F, S, Hd in R2. apply R2.
Qed.

(** ** Handles are fresh: an invariant of every reachable store *)

Lemma NoDup_map_filter {A B : Type} (f : A -> B) (g : A -> bool) (l : list A) :
  NoDup (map f l) -> NoDup (map f (filter g l)).
Proof.
  induction l as [|a l IH]; simpl; intros H; [constructor|].
  inversion H as [|x xs Hnotin Hnd]; subst.
  destruct (g a); simpl; auto.
  constructor; auto.
  intros Hin. apply Hnotin.
  apply in_map_iff in Hin. destruct Hin as (b & Hb & Hin).
  apply filter_In in Hin. apply in_map_iff. exists b. tauto.
Qed.

Lemma wf_clearTimeout h s : wf s -> wf (Store.clearTimeout h s).
Proof.
  intros (H1 & H2 & H3 & H4 & H5). unfold wf, Store.clearTimeout. simpl.
  split; [now apply NoDup_map_filter|].
  split; [now apply NoDup_map_filter|].
  split; [|split; assumption].
  intros t Ht. apply filter_In in Ht. now apply H3.
Qed.

Lemma wf_settle p o s :
  wf s -> p < Store.nextPromise s -> wf (Store.settle p o s).
Proof.
  intros (H1 & H2 & H3 & H4 & H5) Hp. unfold wf, Store.settle. simpl.
  do 4 (split; [assumption|]).
  intros c Hc. apply in_app_or in Hc. destruct Hc as [Hc|[<-|[]]]; auto.
Qed.

Lemma wf_delete k s :
  wf s ->
  wf (Store.with_pendingCommands (JsMap.delete k (Store.pendingCommands s)) s).
Proof.
  intros (H1 & H2 & H3 & H4 & H5). unfold wf. simpl.
  do 3 (split; [assumption|]). split; [|assumption].
  intros e He. apply In_delete in He. now apply H4.
Qed.

Lemma removeStep_counters id st e :
  Store.nextPromise (Store.removeStep id st e) = Store.nextPromise st /\
  Store.nextTimer (Store.removeStep id st e) = Store.nextTimer st /\
  Store.now (Store.removeStep id st e) = Store.now st.
Proof.
  destruct e as [k pe]. unfold Store.removeStep.
  destruct (String.prefix id k); simpl; auto.
Qed.

Lemma wf_removeStep id st e :
  wf st -> Store.promise (snd e) < Store.nextPromise st ->
  wf (Store.removeStep id st e).
Proof.
  destruct e as [k pe]. simpl. intros Hwf Hp. unfold Store.removeStep.
  destruct (String.prefix id k); [|assumption].
  apply (wf_delete k
           (Store.settle (Store.promise pe) (Store.Rejected Store.ConnectionClosed)
              (Store.clearTimeout (Store.timeout pe) st))).
  apply wf_settle; [now apply wf_clearTimeout | assumption].
Qed.

Lemma wf_remove id s : wf s -> wf (Store.remove id s).
Proof.
  intros Hwf. unfold Store.remove.
  destruct (JsMap.get id (Store.connections s)); [|assumption].
  apply (fold_left_keeps (Store.removeStep id)
           (fun st => wf st /\ Store.nextPromise st = Store.nextPromise s)).
  - split; [exact Hwf | reflexivity].
  - intros st e He [Hst Hn].
    destruct (removeStep_counters id st e) as (-> & _ & _).
    split; [|assumption]. apply wf_removeStep; [assumption|].
    rewrite Hn. destruct Hwf as (_ & _ & _ & H4 & _). now apply H4.
Qed.

Lemma fire_counters t st :
  Store.nextPromise (Store.fire t st) = Store.nextPromise st /\
  Store.nextTimer (Store.fire t st) = Store.nextTimer st /\
  Store.now (Store.fire t st) = Store.now st.
Proof. unfold Store.fire. simpl. auto. Qed.

Lemma wf_fire t st :
  wf st -> Store.t_promise t < Store.nextPromise st -> wf (Store.fire t st).
Proof.
  intros Hwf Hp. unfold Store.fire.
  apply wf_settle; [|assumption].
  apply (wf_delete (Store.t_key t) (Store.clearTimeout (Store.handle t) st)).
  now apply wf_clearTimeout.
Qed.

Lemma elapse_now d s : Store.now (Store.elapse d s) = (Store.now s + d)%Z.
Proof.
  unfold Store.elapse.
  apply (fold_left_keeps _ (fun st => Store.now st = (Store.now s + d)%Z)).
  - reflexivity.
  - intros st t _ Hst. destruct (Store.due t <=? _)%Z; [|assumption].
    now destruct (fire_counters t st) as (_ & _ & ->).
Qed.

Lemma wf_elapse d s : wf s -> wf (Store.elapse d s).
Proof.
  intros Hwf. unfold Store.elapse.
  apply (fold_left_keeps _
           (fun st => wf st /\ Store.nextPromise st = Store.nextPromise s)).
  - split; [exact Hwf | reflexivity].
  - intros st t Ht [Hst Hn].
    destruct (Store.due t <=? _)%Z; [|now split].
    destruct (fire_counters t st) as (-> & _ & _).
    split; [|assumption]. apply wf_fire; [assumption|].
    rewrite Hn. destruct Hwf as (_ & _ & H3 & _). now apply H3.
Qed.

Lemma updateContext_frame id ctx s :
  Store.pendingCommands (Store.updateContext id ctx s) = Store.pendingCommands s /\
  Store.timers (Store.updateContext id ctx s) = Store.timers s /\
  Store.settled (Store.updateContext id ctx s) = Store.settled s /\
  Store.nextPromise (Store.updateContext id ctx s) = Store.nextPromise s /\
  Store.nextTimer (Store.updateContext id ctx s) = Store.nextTimer s /\
  Store.now (Store.updateContext id ctx s) = Store.now s.
Proof.
  unfold Store.updateContext.
  destruct (JsMap.get id (Store.connections s)); [|auto 6].
  rewrite notifyFrom_spec. simpl. auto 6.
Qed.

Lemma wf_updateContext id ctx s : wf s -> wf (Store.updateContext id ctx s).
Proof.
  destruct (updateContext_frame id ctx s) as (E1 & E2 & E3 & E4 & E5 & _).
  unfold wf. now rewrite E1, E2, E3, E4, E5.
Qed.

Lemma NoDup_map_snoc {A : Type} (f : A -> nat) (l : list A) (a : A) :
  NoDup (map f l) -> (forall b, In b l -> f b < f a) ->
  NoDup (map f (l ++ [a])).
Proof.
  intros Hnd Hlt. rewrite map_app. simpl.
  apply NoDup_app; [assumption | repeat constructor; auto |].
  intros x Hx [<-|[]].
  apply in_map_iff in Hx. destruct Hx as (b & Hb & Hin).
  specialize (Hlt b Hin). lia.
Qed.

Lemma wf_sendCommand id command s :
  wf s -> wf (fst (Store.sendCommand id command s)).
Proof.
  intros Hwf. unfold Store.sendCommand.
  destruct (JsMap.get id (Store.connections s)) as [conn|]; [|assumption].
  destruct (negb _); [assumption|].
  destruct Hwf as (H1 & H2 & H3 & H4 & H5). unfold wf. simpl.
  split; [|split; [|split; [|split]]].
  - apply NoDup_map_snoc; [assumption|]. intros b Hb. simpl. now apply H3.
  - apply NoDup_map_snoc; [assumption|]. intros b Hb. simpl. now apply H3.
  - intros t H. apply in_app_or in H. destruct H as [H|[<-|[]]]; simpl; [|lia].
    specialize (H3 t H). lia.
  - intros e H. apply In_set in H. destruct H as [->|H]; simpl; [lia|].
    specialize (H4 e H). lia.
  - intros c Hc. specialize (H5 c Hc). lia.
Qed.

Lemma wf_step ev s : wf s -> wf (Loop.step s ev).
Proof.
  intros Hwf. destruct ev; simpl.
  - exact Hwf.
  - now apply wf_remove.
  - now apply wf_updateContext.
  - now apply wf_sendCommand.
  - exact Hwf.
  - exact Hwf.
  - now apply wf_elapse.
Qed.

Lemma wf_run evs : forall s, wf s -> wf (Loop.run evs s).
Proof.
  induction evs as [|ev evs IH]; intros s Hwf; simpl; [assumption|].
  apply IH. now apply wf_step.
Qed.

Lemma wf_reachable s : Loop.reachable s -> wf s.
Proof.
  intros (clock & evs & ->). apply wf_run.
  unfold wf. simpl.
  split; [constructor|]. split; [constructor|].
  split; [|split]; intros ? [].
Qed.

(** ** One request, from [sendCommand] to its timeout *)

Lemma calls_snoc_other (l : list (nat * Store.Settlement)) p p' o :
  p' <> p ->
  filter (fun c => Nat.eqb (fst c) p) (l ++ [(p', o)])
    = filter (fun c => Nat.eqb (fst c) p) l.
Proof.
  intros Hne. rewrite filter_app. simpl.
  apply Nat.eqb_neq in Hne. rewrite Hne. apply app_nil_r.
Qed.

Lemma find_snoc_other (l : list (nat * Store.Settlement)) p p' o :
  p' <> p ->
  find (fun c => Nat.eqb (fst c) p) (l ++ [(p', o)])
    = find (fun c => Nat.eqb (fst c) p) l.
Proof.
  intros Hne. apply Nat.eqb_neq in Hne.
  induction l as [|c l IH]; simpl; [now rewrite Hne|].
  now destruct (Nat.eqb (fst c) p).
Qed.

Lemma find_snoc_fresh (l : list (nat * Store.Settlement)) p o :
  filter (fun c => Nat.eqb (fst c) p) l = [] ->
  find (fun c => Nat.eqb (fst c) p) (l ++ [(p, o)]) = Some (p, o).
Proof.
  induction l as [|c l IH]; simpl; [now rewrite Nat.eqb_refl|].
  destruct (Nat.eqb (fst c) p); [discriminate | assumption].
Qed.

Lemma settleCalls_other p p' o s :
  p' <> p -> Store.settleCalls p (Store.settle p' o s) = Store.settleCalls p s.
Proof.
  intros Hne. unfold Store.settleCalls, Store.settle. simpl.
  now rewrite calls_snoc_other.
Qed.

Lemma promiseState_other p p' o s :
  p' <> p -> Store.promiseState p (Store.settle p' o s) = Store.promiseState p s.
Proof.
  intros Hne. unfold Store.promiseState, Store.settle. simpl.
  now rewrite find_snoc_other.
Qed.

Lemma promiseState_unsettled p s :
  Store.settleCalls p s = 0 -> Store.promiseState p s = None.
Proof.
  unfold Store.settleCalls, Store.promiseState.
  induction (Store.settled s) as [|c l IH]; simpl; [reflexivity|].
  destruct (Nat.eqb (fst c) p); simpl; [discriminate | assumption].
Qed.

Lemma settle_first p o s :
  Store.settleCalls p s = 0 ->
  Store.promiseState p (Store.settle p o s) = Some o /\
  Store.settleCalls p (Store.settle p o s) = 1.
Proof.
  unfold Store.settleCalls, Store.promiseState, Store.settle. simpl.
  intros H. apply length_zero_iff_nil in H.
  rewrite find_snoc_fresh by assumption.
  rewrite filter_app, H. simpl. now rewrite Nat.eqb_refl.
Qed.

Lemma NoDup_map_eq {A B : Type} (f : A -> B) (l : list A) (a b : A) :
  NoDup (map f l) -> In a l -> In b l -> f a = f b -> a = b.
Proof.
  induction l as [|x l IH]; simpl; intros Hnd Ha Hb Hf; [contradiction|].
  inversion Hnd as [|y ys Hnotin Hnd']; subst.
  destruct Ha as [->|Ha], Hb as [->|Hb]; auto.
  - exfalso. apply Hnotin. rewrite Hf. now apply in_map.
  - exfalso. apply Hnotin. rewrite <- Hf. now apply in_map.
Qed.

Section Request.
Variables (key : string) (p h : nat) (deadline : Z).

Let t0 : Store.Timer := Store.mkTimer h deadline key p.

Lemma armed_bounds s :
  armed key p h deadline s -> h < Store.nextTimer s /\ p < Store.nextPromise s.
Proof.
  intros ((_ & _ & H3 & _) & Hin & _). exact (H3 t0 Hin).
Qed.

Lemma armed_clearTimeout h' s :
  armed key p h deadline s -> h' <> h -> armed key p h deadline (Store.clearTimeout h' s).
Proof.
  intros (Hwf & Hin & Hc & He) Hne.
  split; [now apply wf_clearTimeout|]. split; [|split; assumption].
  unfold Store.clearTimeout. simpl. apply filter_In. split; [assumption|].
  simpl. apply negb_true_iff, Nat.eqb_neq. congruence.
Qed.

Lemma armed_settle p' o s :
  armed key p h deadline s -> p' <> p -> p' < Store.nextPromise s ->
  armed key p h deadline (Store.settle p' o s).
Proof.
  intros (Hwf & Hin & Hc & He) Hne Hlt.
  split; [now apply wf_settle|]. split; [assumption|].
  split; [|assumption]. now rewrite settleCalls_other.
Qed.

Lemma armed_delete k s :
  armed key p h deadline s ->
  armed key p h deadline (Store.with_pendingCommands
           (JsMap.delete k (Store.pendingCommands s)) s).
Proof.
  intros (Hwf & Hin & Hc & He).
  split; [now apply wf_delete|]. split; [assumption|].
  split; [assumption|].
  simpl. intros e Hd. apply In_delete in Hd. now apply He.
Qed.

Lemma timedOut_clearTimeout h' s :
  timedOut p s -> timedOut p (Store.clearTimeout h' s).
Proof.
  intros (Hwf & Hlt & Ht & He & Hc & Hp).
  split; [now apply wf_clearTimeout|]. split; [assumption|].
  split; [|repeat split; assumption].
  unfold Store.clearTimeout. simpl. intros t Hin.
  apply filter_In in Hin. now apply Ht.
Qed.

Lemma timedOut_settle p' o s :
  timedOut p s -> p' <> p -> p' < Store.nextPromise s ->
  timedOut p (Store.settle p' o s).
Proof.
  intros (Hwf & Hlt & Ht & He & Hc & Hp) Hne Hlt'.
  split; [now apply wf_settle|]. do 3 (split; [assumption|]).
  split; [now rewrite settleCalls_other | now rewrite promiseState_other].
Qed.

Lemma timedOut_delete k s :
  timedOut p s ->
  timedOut p (Store.with_pendingCommands
              (JsMap.delete k (Store.pendingCommands s)) s).
Proof.
  intros (Hwf & Hlt & Ht & He & Hc & Hp).
  split; [now apply wf_delete|]. do 2 (split; [assumption|]).
  split; [|split; assumption].
  simpl. intros e Hd. apply In_delete in Hd. now apply He.
Qed.

(** The time-out callback of another request. *)
Lemma armed_fire t s :
  armed key p h deadline s -> Store.handle t <> h -> Store.t_promise t <> p ->
  Store.t_promise t < Store.nextPromise s ->
  armed key p h deadline (Store.fire t s).
Proof.
  intros Ha Hh Hp Hlt. unfold Store.fire.
  apply armed_settle; [|assumption|assumption].
  apply (armed_delete (Store.t_key t) (Store.clearTimeout (Store.handle t) s)).
  now apply armed_clearTimeout.
Qed.

Lemma timedOut_fire t s :
  timedOut p s -> Store.t_promise t <> p ->
  Store.t_promise t < Store.nextPromise s ->
  timedOut p (Store.fire t s).
Proof.
  intros Ha Hp Hlt. unfold Store.fire.
  apply timedOut_settle; [|assumption|assumption].
  apply (timedOut_delete (Store.t_key t)
           (Store.clearTimeout (Store.handle t) s)).
  now apply timedOut_clearTimeout.
Qed.

(** The time-out callback of the request itself. *)
Lemma armed_fire_own s : armed key p h deadline s -> timedOut p (Store.fire t0 s).
Proof.
  intros Ha. destruct (armed_bounds s Ha) as [Hh Hp].
  destruct Ha as (Hwf & Hin & Hc & He).
  assert (Hwf' : wf (Store.fire t0 s)) by (now apply wf_fire).
  destruct Hwf as (H1 & H2 & H3 & H4 & H5).
  split; [exact Hwf'|]. split; [exact Hp|].
  unfold Store.fire. simpl Store.handle. simpl Store.t_key.
  simpl Store.t_promise.
  split; [|split].
  - simpl. intros t Hin' Heq. apply filter_In in Hin'.
    destruct Hin' as [Hin' Hneq]. apply negb_true_iff, Nat.eqb_neq in Hneq.
    apply Hneq.
    assert (t = t0) by (apply (NoDup_map_eq Store.t_promise (Store.timers s));
                        auto).
    now subst t.
  - simpl. intros e Hin' Heq.
    unfold JsMap.delete in Hin'. apply filter_In in Hin'.
    destruct Hin' as [Hin' Hneq]. apply negb_true_iff, String.eqb_neq in Hneq.
    apply Hneq. apply He; auto.
  - destruct (settle_first p (Store.Rejected Store.CommandTimeout)
      (Store.with_pendingCommands
         (JsMap.delete key
            (Store.pendingCommands (Store.clearTimeout h s)))
         (Store.clearTimeout h s))) as [E1 E2]; [exact Hc|].
    split; assumption.
Qed.

Lemma wf_frame s s' :
  Store.timers s' = Store.timers s ->
  Store.pendingCommands s' = Store.pendingCommands s ->
  Store.settled s' = Store.settled s ->
  Store.nextPromise s' = Store.nextPromise s ->
  Store.nextTimer s' = Store.nextTimer s ->
  wf s -> wf s'.
Proof. unfold wf. now intros -> -> -> -> ->. Qed.

Lemma armed_frame s s' :
  Store.timers s' = Store.timers s ->
  Store.pendingCommands s' = Store.pendingCommands s ->
  Store.settled s' = Store.settled s ->
  Store.nextPromise s' = Store.nextPromise s ->
  Store.nextTimer s' = Store.nextTimer s ->
  armed key p h deadline s -> armed key p h deadline s'.
Proof.
  intros E1 E2 E3 E4 E5 (Hwf & Hin & Hc & He).
  split; [now apply (wf_frame s s')|].
  unfold Store.settleCalls. now rewrite E1, E2, E3.
Qed.

Lemma timedOut_frame s s' :
  Store.timers s' = Store.timers s ->
  Store.pendingCommands s' = Store.pendingCommands s ->
  Store.settled s' = Store.settled s ->
  Store.nextPromise s' = Store.nextPromise s ->
  Store.nextTimer s' = Store.nextTimer s ->
  timedOut p s -> timedOut p s'.
Proof.
  intros E1 E2 E3 E4 E5 (Hwf & Hlt & Ht & He & Hc & Hp).
  split; [now apply (wf_frame s s')|].
  unfold Store.settleCalls, Store.promiseState in *.
  now rewrite E1, E2, E3, E4.
Qed.

(** *** Events other than the request's own timeout *)

Lemma armed_remove id s :
  armed key p h deadline s -> String.prefix id key = false -> armed key p h deadline (Store.remove id s).
Proof.
  intros Ha Hpre. unfold Store.remove.
  destruct (JsMap.get id (Store.connections s)); [|assumption].
  apply (fold_left_keeps (Store.removeStep id)
           (fun st => armed key p h deadline st /\ Store.nextPromise st = Store.nextPromise s)).
  - split; [|reflexivity]. now apply (armed_frame s).
  - intros st [k pe] Hin [Hst Hn].
    destruct (removeStep_counters id st (k, pe)) as (-> & _ & _).
    split; [|assumption]. unfold Store.removeStep.
    destruct (String.prefix id k) eqn:Ek; [|assumption].
    destruct Ha as ((_ & _ & _ & H4 & _) & _ & _ & He).
    assert (Hk : k <> key) by congruence.
    assert (Hp : Store.promise pe <> p)
      by (intros E; apply Hk, (He (k, pe)); auto).
    assert (Hh : Store.timeout pe <> h)
      by (intros E; apply Hk, (He (k, pe)); auto).
    apply (armed_delete k
             (Store.settle (Store.promise pe)
                (Store.Rejected Store.ConnectionClosed)
                (Store.clearTimeout (Store.timeout pe) st))).
    apply armed_settle; [now apply armed_clearTimeout | assumption |].
    simpl. rewrite Hn. now apply (H4 (k, pe)).
Qed.

Lemma timedOut_remove id s : timedOut p s -> timedOut p (Store.remove id s).
Proof.
  intros Hd. unfold Store.remove.
  destruct (JsMap.get id (Store.connections s)); [|assumption].
  apply (fold_left_keeps (Store.removeStep id)
           (fun st => timedOut p st /\ Store.nextPromise st = Store.nextPromise s)).
  - split; [|reflexivity]. now apply (timedOut_frame s).
  - intros st [k pe] Hin [Hst Hn].
    destruct (removeStep_counters id st (k, pe)) as (-> & _ & _).
    split; [|assumption]. unfold Store.removeStep.
    destruct (String.prefix id k); [|assumption].
    destruct Hd as ((_ & _ & _ & H4 & _) & _ & _ & He & _).
    apply (timedOut_delete k
             (Store.settle (Store.promise pe)
                (Store.Rejected Store.ConnectionClosed)
                (Store.clearTimeout (Store.timeout pe) st))).
    apply timedOut_settle; [now apply timedOut_clearTimeout | |].
    + now apply (He (k, pe)).
    + simpl. rewrite Hn. now apply (H4 (k, pe)).
Qed.

Lemma armed_elapse d s :
  armed key p h deadline s -> (Store.now s + d < deadline)%Z -> armed key p h deadline (Store.elapse d s).
Proof.
  intros Ha Hnow. unfold Store.elapse.
  apply (fold_left_keeps _
           (fun st => armed key p h deadline st /\ Store.nextPromise st = Store.nextPromise s)).
  - split; [|reflexivity]. now apply (armed_frame s).
  - intros st t Hin [Hst Hn]. simpl.
    destruct (Store.due t <=? Store.now s + d)%Z eqn:Edue; [|now split].
    apply Z.leb_le in Edue.
    destruct (fire_counters t st) as (-> & _ & _).
    split; [|assumption].
    destruct Ha as ((H1 & H2 & H3 & _) & Hin0 & _).
    assert (Hne : t <> t0) by (intros ->; simpl in Edue; lia).
    apply armed_fire; [assumption| | |].
    + intros E. apply Hne.
      apply (NoDup_map_eq Store.handle (Store.timers s)); auto.
    + intros E. apply Hne.
      apply (NoDup_map_eq Store.t_promise (Store.timers s)); auto.
    + rewrite Hn. now apply H3.
Qed.

Lemma timedOut_elapse d s : timedOut p s -> timedOut p (Store.elapse d s).
Proof.
  intros Hd. unfold Store.elapse.
  apply (fold_left_keeps _
           (fun st => timedOut p st /\ Store.nextPromise st = Store.nextPromise s)).
  - split; [|reflexivity]. now apply (timedOut_frame s).
  - intros st t Hin [Hst Hn].
    destruct (Store.due t <=? _)%Z; [|now split].
    destruct (fire_counters t st) as (-> & _ & _).
    split; [|assumption].
    destruct Hd as ((_ & _ & H3 & _) & _ & Ht & _).
    apply timedOut_fire; [assumption | now apply Ht |].
    rewrite Hn. now apply H3.
Qed.

Lemma armed_sendCommand id command s :
  armed key p h deadline s -> armed key p h deadline (fst (Store.sendCommand id command s)).
Proof.
  intros Ha. destruct (armed_bounds s Ha) as [Hh Hp].
  assert (Hwf : wf (fst (Store.sendCommand id command s)))
    by (apply wf_sendCommand, Ha).
  revert Hwf. unfold Store.sendCommand.
  destruct (JsMap.get id (Store.connections s)) as [conn|]; [|now intros _].
  destruct (negb _); [now intros _|].
  destruct Ha as (_ & Hin & Hc & He). simpl. intros Hwf.
  split; [exact Hwf|]. simpl. split; [apply in_or_app; now left|].
  split; [exact Hc|].
  intros e Hine Hor. apply In_set in Hine. destruct Hine as [->|Hine].
  - simpl in Hor. lia.
  - now apply He.
Qed.

Lemma timedOut_sendCommand id command s :
  timedOut p s -> timedOut p (fst (Store.sendCommand id command s)).
Proof.
  intros Hd.
  assert (Hwf : wf (fst (Store.sendCommand id command s)))
    by (apply wf_sendCommand, Hd).
  revert Hwf. unfold Store.sendCommand.
  destruct (JsMap.get id (Store.connections s)) as [conn|]; [|now intros _].
  destruct (negb _); [now intros _|].
  destruct Hd as (_ & Hlt & Ht & He & Hc & Hp). simpl. intros Hwf.
  split; [exact Hwf|]. simpl. split; [lia|]. split; [|split].
  - intros t Hin. apply in_app_or in Hin.
    destruct Hin as [Hin|[<-|[]]]; [now apply Ht | simpl; lia].
  - intros e Hin. apply In_set in Hin.
    destruct Hin as [->|Hin]; [simpl; lia | now apply He].
  - split; assumption.
Qed.

Lemma armed_step ev s :
  armed key p h deadline s -> Loop.settles key ev = false ->
  (forall d, ev = Loop.Elapse d -> (Store.now s + d < deadline)%Z) ->
  armed key p h deadline (Loop.step s ev).
Proof.
  intros Ha Hc Hd. destruct ev; simpl in *.
  - now apply (armed_frame s).
  - now apply armed_remove.
  - destruct (updateContext_frame id ctx s) as (E1 & E2 & E3 & E4 & E5 & _).
    now apply (armed_frame s).
  - now apply armed_sendCommand.
  - exact Ha.
  - now apply (armed_frame s).
  - apply armed_elapse; auto.
Qed.

Lemma timedOut_step ev s : timedOut p s -> timedOut p (Loop.step s ev).
Proof.
  intros Hd. destruct ev; simpl.
  - now apply (timedOut_frame s).
  - now apply timedOut_remove.
  - destruct (updateContext_frame id ctx s) as (E1 & E2 & E3 & E4 & E5 & _).
    now apply (timedOut_frame s).
  - now apply timedOut_sendCommand.
  - exact Hd.
  - now apply (timedOut_frame s).
  - now apply timedOut_elapse.
Qed.

Lemma timedOut_run evs : forall s, timedOut p s -> timedOut p (Loop.run evs s).
Proof.
  induction evs as [|ev evs IH]; intros s Hd; simpl; [assumption|].
  apply IH. now apply timedOut_step.
Qed.
End Request.

Lemma remove_now id s : Store.now (Store.remove id s) = Store.now s.
Proof.
  unfold Store.remove.
  destruct (JsMap.get id (Store.connections s)); [|reflexivity].
  apply (fold_left_keeps (Store.removeStep id)
           (fun st => Store.now st = Store.now s)); [reflexivity|].
  intros st e _ Hst. now destruct (removeStep_counters id st e) as (_ & _ & ->).
Qed.

Lemma step_now ev s :
  Store.now (Loop.step s ev)
    = (Store.now s + match ev with Loop.Elapse d => d | _ => 0 end)%Z.
Proof.
  destruct ev; simpl; rewrite ?Z.add_0_r; try reflexivity.
  - apply remove_now.
  - apply updateContext_frame.
  - unfold Store.sendCommand.
    destruct (JsMap.get id (Store.connections s)); [|reflexivity].
    now destruct (negb _).
  - apply elapse_now.
Qed.

Lemma elapsed_nonneg evs : Loop.monotone evs = true -> (0 <= Loop.elapsed evs)%Z.
Proof.
  induction evs as [|ev evs IH]; simpl; [lia|].
  destruct ev; auto.
  intros H. apply andb_true_iff in H. destruct H as [Hd Hm].
  apply Z.leb_le in Hd. specialize (IH Hm). lia.
Qed.

Lemma NoDup_map_split {A : Type} (f : A -> nat) (l1 l2 : list A) (a b : A) :
  NoDup (map f (l1 ++ a :: l2)) -> In b l1 \/ In b l2 -> f b <> f a.
Proof.
  rewrite map_app. simpl. intros Hnd Hb E.
  apply NoDup_remove_2 in Hnd. apply Hnd. rewrite <- E.
  apply in_or_app. destruct Hb; [left | right]; now apply in_map.
Qed.

Section Timeout.
Variables (key : string) (p h : nat) (deadline : Z).

(** While the deadline has not passed and no event settles the request,
    it stays pending. *)
Lemma armed_run evs : forall s,
  armed key p h deadline s ->
  existsb (Loop.settles key) evs = false ->
  Loop.monotone evs = true ->
  (Store.now s + Loop.elapsed evs < deadline)%Z ->
  armed key p h deadline (Loop.run evs s) /\
  Store.now (Loop.run evs s) = (Store.now s + Loop.elapsed evs)%Z.
Proof.
  induction evs as [|ev evs IH]; intros s Ha Hc Hm Hd.
  - simpl in *. split; [assumption | lia].
  - change (Loop.run (ev :: evs) s) with (Loop.run evs (Loop.step s ev)).
    simpl in Hc. apply orb_false_iff in Hc. destruct Hc as [Hc Hcs].
    assert (Hm' : Loop.monotone evs = true /\
                  (0 <= match ev with Loop.Elapse d => d | _ => 0 end)%Z).
    { destruct ev; simpl in Hm; try (split; [assumption | lia]).
      apply andb_true_iff in Hm. destruct Hm as [H0 Hm].
      apply Z.leb_le in H0. now split. }
    destruct Hm' as [Hm' H0].
    assert (He : Loop.elapsed (ev :: evs)
                 = (match ev with Loop.Elapse d => d | _ => 0 end
                    + Loop.elapsed evs)%Z)
      by (destruct ev; reflexivity).
    rewrite He in Hd |- *.
    pose proof (elapsed_nonneg evs Hm') as Hnn.
    destruct (IH (Loop.step s ev)) as [Ha' Hn']; auto.
    + apply armed_step; auto. intros d ->. lia.
    + rewrite step_now. lia.
    + split; [assumption|]. rewrite Hn', step_now. lia.
Qed.

(** When the deadline passes, the request's timer fires. *)
Lemma elapse_fires d s :
  armed key p h deadline s ->
  (deadline <= Store.now s + d)%Z ->
  timedOut p (Store.elapse d s) /\
  JsMap.get key (Store.pendingCommands (Store.elapse d s)) = None.
Proof.
  intros Ha Hd.
  pose proof Ha as ((H1 & H2 & H3 & _) & Hin & _).
  destruct (in_split _ _ Hin) as (l1 & l2 & E).
  unfold Store.elapse. rewrite E, fold_left_app. simpl fold_left at 1.
  set (f := fun st t => if (Store.due t <=? _)%Z then Store.fire t st else st).
  set (s1 := fold_left f l1 _).
  assert (P1 : armed key p h deadline s1 /\
               Store.nextPromise s1 = Store.nextPromise s).
  { apply (fold_left_keeps f
             (fun st => armed key p h deadline st /\
                        Store.nextPromise st = Store.nextPromise s)).
    - split; [|reflexivity]. now apply (armed_frame key p h deadline s).
    - intros st t Ht [Hst Hn]. unfold f.
      destruct (Store.due t <=? _)%Z; [|now split].
      destruct (fire_counters t st) as (-> & _ & _).
      split; [|assumption].
      apply armed_fire; [assumption| | |].
      + rewrite E in H1.
        apply (NoDup_map_split Store.handle l1 l2 _ t H1). now left.
      + rewrite E in H2.
        apply (NoDup_map_split Store.t_promise l1 l2 _ t H2). now left.
      + rewrite Hn. apply H3. rewrite E. apply in_or_app. now left. }
  destruct P1 as [Ha1 Hn1].
  assert (Hdue : (deadline <=? Store.now s + d)%Z = true)
    by now apply Z.leb_le.
  unfold f at 2. simpl. rewrite Hdue.
  assert (P2 : timedOut p (Store.fire (Store.mkTimer h deadline key p) s1)
               /\ JsMap.get key
                    (Store.pendingCommands
                       (Store.fire (Store.mkTimer h deadline key p) s1))
                  = None
               /\ Store.nextPromise
                    (Store.fire (Store.mkTimer h deadline key p) s1)
                  = Store.nextPromise s).
  { split; [now apply (armed_fire_own key p h deadline)|].
    split; [apply get_delete_same | exact Hn1]. }
  revert P2.
  generalize (Store.fire (Store.mkTimer h deadline key p) s1). intros s2 P2.
  cut (timedOut p (fold_left f l2 s2) /\
       JsMap.get key (Store.pendingCommands (fold_left f l2 s2)) = None /\
       Store.nextPromise (fold_left f l2 s2) = Store.nextPromise s);
    [tauto|].
  apply (fold_left_keeps f
           (fun st => timedOut p st /\
                      JsMap.get key (Store.pendingCommands st) = None /\
                      Store.nextPromise st = Store.nextPromise s));
    [exact P2|].
  intros st t Ht (Hst & Hg & Hn). unfold f.
  destruct (Store.due t <=? _)%Z;
    [|split; [assumption | split; assumption]].
  destruct (fire_counters t st) as (-> & _ & _).
  split; [|split; [|assumption]].
  - apply timedOut_fire; [assumption| |].
    + rewrite E in H2.
      apply (NoDup_map_split Store.t_promise l1 l2 _ t H2). now right.
    + rewrite Hn. apply H3. rewrite E. apply in_or_app. right. now right.
  - simpl. now apply get_delete_None.
Qed.
End Timeout.

Lemma calls_fresh (l : list (nat * Store.Settlement)) (n : nat) :
  (forall c, In c l -> fst c < n) ->
  filter (fun c => Nat.eqb (fst c) n) l = [].
Proof.
  induction l as [|c l IH]; simpl; intros H; [reflexivity|].
  assert (Hc : fst c < n) by (apply H; now left).
  destruct (Nat.eqb_spec (fst c) n) as [E|_]; [lia|].
  apply IH. intros c' Hc'. apply H. now right.
Qed.

(** A successful [sendCommand] leaves its request pending. *)
Lemma sendCommand_arms id command conn s :
  wf s ->
  Store.get id s = Some conn ->
  Store.readyState (Store.ws conn) = Store.OPEN ->
  let s1 := fst (Store.sendCommand id command s) in
  snd (Store.sendCommand id command s) = inr (Store.nextPromise s) /\
  Store.now s1 = Store.now s /\
  armed (id ++ ":" ++ Store.requestId command)%string (Store.nextPromise s)
        (Store.nextTimer s) (Store.now s + 30000)%Z s1.
Proof.
  intros Hwf Hget Hopen s1.
  pose proof (wf_sendCommand id command s Hwf) as Hwf1. fold s1 in Hwf1.
  revert s1 Hwf1. unfold Store.get in Hget. unfold Store.sendCommand.
  rewrite Hget, Hopen. simpl. intros Hwf1.
  split; [reflexivity|]. split; [reflexivity|].
  destruct Hwf as (H1 & H2 & H3 & H4 & H5).
  split; [exact Hwf1|]. simpl. split; [apply in_or_app; right; now left|].
  split.
  - unfold Store.settleCalls. simpl. now rewrite calls_fresh.
  - intros e Hin Hor. apply In_set in Hin. destruct Hin as [->|Hin].
    + reflexivity.
    + specialize (H4 e Hin). lia.
Qed.

(** C3 as stated fails: the connection removed before the deadline,
    the call is rejected with "Connection closed", its timer is cleared,
    and no "Command timeout" follows although no result was delivered. *)
Lemma sendCommand_removed_is_not_timeout :
  let s := Store.add Scenario.c1 (Store.createConnectionStore 1000) in
  let s3 := Store.elapse 30000 (Store.remove "c1" Scenario.sent) in
  Store.sendCommand "c1" (Scenario.click "r1") s = (Scenario.sent, inr 0) /\
  Store.promiseState 0 s3 = Some (Store.Rejected Store.ConnectionClosed) /\
  Store.promiseState 0 s3 <> Some (Store.Rejected Store.CommandTimeout) /\
  Store.settleCalls 0 s3 = 1.
Proof. repeat split. discriminate. Qed.

(** C3, amended: [sendCommand] on a registered connection with an open
    socket, in any reachable store, returns a promise [p] that stays
    pending during any events [evs] taking less than 30000 ms among which
    there is neither the matching result nor a [remove(id')] with [id'] a
    prefix of the request's key (such as the connection's own id); once
    30000 ms have passed, [p] is rejected with "Command timeout" by the one
    settling call made on it and the entry under the key is gone. A result
    for the same request id arriving then changes nothing, and whatever
    events follow, no further settling call is made on [p]. *)
Theorem sendCommand_times_out_unless_removed :
  forall (s : Store.State) (id : string) (command : Store.PincerCommand)
         (conn : Store.TabConnection) (evs later : list Loop.Event) (d : Z),
    Loop.reachable s ->
    Store.get id s = Some conn ->
    Store.readyState (Store.ws conn) = Store.OPEN ->
    let key := (id ++ ":" ++ Store.requestId command)%string in
    let p := Store.nextPromise s in
    let s1 := fst (Store.sendCommand id command s) in
    existsb (Loop.settles key) evs = false ->
    Loop.monotone evs = true ->
    (Loop.elapsed evs < 30000 <= Loop.elapsed evs + d)%Z ->
    let s2 := Loop.run evs s1 in
    let s3 := Store.elapse d s2 in
    snd (Store.sendCommand id command s) = inr p /\
    Store.promiseState p s2 = None /\
    Store.promiseState p s3 = Some (Store.Rejected Store.CommandTimeout) /\
    Store.settleCalls p s3 = 1 /\
    JsMap.get key (Store.pendingCommands s3) = None /\
    (forall result,
        Store.handleCommandResult id (Store.requestId command) result s3 = s3) /\
    Store.settleCalls p (Loop.run later s3) = 1 /\
    Store.promiseState p (Loop.run later s3)
      = Some (Store.Rejected Store.CommandTimeout).
Proof.
  intros s id command conn evs later d Hreach Hget Hopen key p s1
         Hquiet Hmono [Hlt Hge] s2 s3.
  destruct (sendCommand_arms id command conn s (wf_reachable s Hreach) Hget Hopen)
    as (Hp & Hnow & Harmed).
  fold key p s1 in Hp, Hnow, Harmed.
  destruct (armed_run key p (Store.nextTimer s) (Store.now s + 30000)%Z
              evs s1 Harmed Hquiet Hmono) as [Harmed2 Hnow2]; [lia|].
  fold s2 in Harmed2, Hnow2.
  destruct (elapse_fires key p (Store.nextTimer s) (Store.now s + 30000)%Z
              d s2 Harmed2) as [Hout Hgone]; [lia|].
  fold s3 in Hout, Hgone.
  pose proof (timedOut_run p later s3 Hout) as Hlater.
  split; [exact Hp|].
  split; [apply promiseState_unsettled, Harmed2|].
  split; [apply Hout|]. split; [apply Hout|]. split; [exact Hgone|].
  split; [intros result; apply handleCommandResult_unchanged|].
  split; apply Hlater.
Qed.

Lemma sendCommand_times_out_unless_removed_witness :
  let s3 := Store.elapse 20000 (Loop.run Window.during Scenario.sent) in
  Store.promiseState 0 (Loop.run Window.during Scenario.sent) = None /\
  Store.promiseState 0 s3 = Some (Store.Rejected Store.CommandTimeout) /\
  Store.settleCalls 0 s3 = 1 /\
  JsMap.get "c1:r1" (Store.pendingCommands s3) = None /\
  Store.settleCalls 0 (Loop.run Window.after s3) = 1.
Proof.
  assert (R : Loop.reachable
                (Store.add Scenario.c1 (Store.createConnectionStore 1000)))
    by (exists 1000%Z, [Loop.Add Scenario.c1]; reflexivity).
  assert (T : (Loop.elapsed Window.during < 30000
               <= Loop.elapsed Window.during + 20000)%Z)
    by (vm_compute; split; [reflexivity | discriminate]).
  destruct (sendCommand_times_out_unless_removed
              (Store.add Scenario.c1 (Store.createConnectionStore 1000))
              "c1" (Scenario.click "r1") Scenario.c1
              Window.during Window.after 20000
              R eq_refl eq_refl eq_refl eq_refl T)
    as (_ & H2 & H3 & H4 & H5 & _ & H7 & _).
  intros s3.
  split; [exact H2|]. split; [exact H3|]. split; [exact H4|].
  split; [exact H5 | exact H7].
Defined.

Lemma tab_binding_first_write_wins_witness :
  let st1 := WsHandler.onMessages Window.before
               (WsHandler.handleUpgrade "c1" (Store.mkWebSocket 1 1),
                Store.createConnectionStore 1000) in
  let st2 := WsHandler.onMessages Window.rebinding st1 in
  WsHandler.boundTabId (fst st1) = Some 7%Z /\
  WsHandler.boundTabId (fst st2) = Some 7%Z /\
  (forall conn, Store.get "c1" (snd st2) = Some conn ->
                Store.tabId conn = 7%Z) /\
  exists conn,
    Store.get "c1" (snd st2) = Some conn /\ Store.id conn = "c1" /\
    Store.tabId conn = 7%Z /\ Store.ws conn = Store.mkWebSocket 1 1.
Proof.
  destruct (tab_binding_first_write_wins
              "c1" (Store.mkWebSocket 1 1) (Store.createConnectionStore 1000)
              Window.before Window.rebinding eq_refl)
    as (H1 & _ & H3 & _ & _ & H6).
  intros st1 st2.
  split; [exact H1|]. split; [exact (proj1 (H3 7%Z H1))|].
  split; [exact (proj2 (H3 7%Z H1))|].
  exact (H6 7%Z eq_refl eq_refl).
Defined.

(** * Further properties of the registry and of the correlator *)

(** ** More facts about [JsMap] *)

Section JsMapKeys.
Context {V : Type}.
Implicit Types (m : JsMap.t V) (k : string) (v : V).

Lemma get_In k v m : JsMap.get k m = Some v -> In (k, v) m.
Proof.
  induction m as [|[k' v'] m IH]; simpl; [discriminate|].
  destruct (String.eqb k' k) eqn:E.
  - apply String.eqb_eq in E. intros [= ->]. subst. now left.
  - intros H. right. auto.
Qed.

Lemma get_None_keys k m : JsMap.get k m = None -> ~ In k (map fst m).
Proof.
  induction m as [|[k' v'] m IH]; simpl; [tauto|].
  destruct (String.eqb k' k) eqn:E; [discriminate|].
  apply String.eqb_neq in E. intros H [H'|H']; [contradiction|].
  now apply IH.
Qed.

Lemma In_get k v m : NoDup (map fst m) -> In (k, v) m -> JsMap.get k m = Some v.
Proof.
  induction m as [|[k' v'] m IH]; simpl; [tauto|].
  intros Hnd [[= -> ->]|Hin].
  - now rewrite String.eqb_refl.
  - inversion Hnd as [|x xs Hnotin Hnd']; subst.
    destruct (String.eqb k' k) eqn:E; [|auto].
    apply String.eqb_eq in E. subst k'. exfalso. apply Hnotin.
    apply in_map_iff. exists (k, v). auto.
Qed.

Lemma keys_delete k m x : In x (map fst (JsMap.delete k m)) -> In x (map fst m).
Proof.
  intros H. apply in_map_iff in H. destruct H as (e & <- & He).
  apply In_delete in He. now apply in_map.
Qed.

Lemma NoDup_keys_delete k m :
  NoDup (map fst m) -> NoDup (map fst (JsMap.delete k m)).
Proof. apply NoDup_map_filter. Qed.

Lemma keys_set k v m :
  map fst (JsMap.set k v m) =
  if existsb (fun e => String.eqb (fst e) k) m then map fst m
  else map fst m ++ [k].
Proof.
  induction m as [|[k' v'] m IH]; simpl; [reflexivity|].
  destruct (String.eqb k' k) eqn:E; simpl; [reflexivity|].
  rewrite IH. now destruct (existsb _ m).
Qed.

Lemma NoDup_keys_set k v m :
  NoDup (map fst m) -> NoDup (map fst (JsMap.set k v m)).
Proof.
  intros Hnd. rewrite keys_set.
  destruct (existsb (fun e => String.eqb (fst e) k) m) eqn:E; [assumption|].
  apply NoDup_app; [assumption | repeat constructor; auto |].
  intros x Hx [Hk|[]]. subst x.
  apply in_map_iff in Hx. destruct Hx as (e & He & Hin).
  assert (Ht : existsb (fun e => String.eqb (fst e) k) m = true).
  { apply existsb_exists. exists e. split; [assumption|].
    rewrite He. apply String.eqb_refl. }
  congruence.
Qed.

Lemma In_delete_iff (e : string * V) k m :
  In e (JsMap.delete k m) <-> In e m /\ fst e <> k.
Proof.
  unfold JsMap.delete. rewrite filter_In, negb_true_iff, String.eqb_neq.
  reflexivity.
Qed.

Lemma In_set_other (e : string * V) k v m :
  In e m -> fst e <> k -> In e (JsMap.set k v m).
Proof.
  intros Hin Hne. induction m as [|[k' v'] m IH]; simpl in *; [tauto|].
  destruct (String.eqb k' k) eqn:E.
  - apply String.eqb_eq in E. subst k'.
    destruct Hin as [<-|Hin]; [simpl in Hne; contradiction | now right].
  - destruct Hin as [<-|Hin]; [now left | right; auto].
Qed.
End JsMapKeys.

Lemma filter_filter {A : Type} (f g : A -> bool) (l : list A) :
  filter f (filter g l) = filter (fun x => g x && f x) l.
Proof.
  induction l as [|a l IH]; simpl; [reflexivity|].
  destruct (g a); simpl; [|assumption].
  destruct (f a); simpl; now rewrite IH.
Qed.

Lemma filter_none {A : Type} (f : A -> bool) (l : list A) :
  (forall x, In x l -> f x = false) -> filter f l = [].
Proof.
  induction l as [|a l IH]; simpl; intros H; [reflexivity|].
  rewrite (H a) by now left. apply IH. intros x Hx. apply H. now right.
Qed.

(** ** The correlator's invariant *)

Lemma fire_cancel t st :
  Store.fire t st = cancel t (Store.Rejected Store.CommandTimeout) st.
Proof. reflexivity. Qed.

Lemma removeStep_cancel id st k pe d :
  String.prefix id k = true ->
  Store.removeStep id st (k, pe) =
  cancel (Store.mkTimer (Store.timeout pe) d k (Store.promise pe))
         (Store.Rejected Store.ConnectionClosed) st.
Proof. intros H. unfold Store.removeStep. now rewrite H. Qed.

Lemma settleCalls_cancel p t o st :
  Store.settleCalls p (cancel t o st) =
  Store.settleCalls p st + (if Nat.eqb (Store.t_promise t) p then 1 else 0).
Proof.
  unfold Store.settleCalls, cancel. simpl.
  rewrite filter_app, length_app. simpl.
  now destruct (Nat.eqb (Store.t_promise t) p).
Qed.

Lemma wf_cancel t o st : wf st -> In t (Store.timers st) -> wf (cancel t o st).
Proof.
  intros (H1 & H2 & H3 & H4 & H5) Hin. unfold wf, cancel. simpl.
  split; [now apply NoDup_map_filter|].
  split; [now apply NoDup_map_filter|].
  split; [|split].
  - intros t' Ht'. apply filter_In in Ht'. now apply H3.
  - intros e He. apply In_delete in He. now apply H4.
  - intros c Hc. apply in_app_or in Hc. destruct Hc as [Hc|[<-|[]]]; auto.
    simpl. now apply H3.
Qed.

Lemma sound_cancel t o st :
  sound st -> In t (Store.timers st) ->
  o = Store.Rejected Store.ConnectionClosed \/
  o = Store.Rejected Store.CommandTimeout ->
  sound (cancel t o st).
Proof.
  intros [Hwf (C1 & C2 & C3 & C4 & C5 & C6)] Hin Ho.
  split; [now apply wf_cancel|].
  destruct Hwf as (W1 & W2 & W3 & W4 & W5).
  assert (Hother : forall t', In t' (Store.timers st) ->
            Store.handle t' <> Store.handle t ->
            Store.t_promise t' <> Store.t_promise t).
  { intros t' Ht' Hh Hp. apply Hh. f_equal.
    now apply (NoDup_map_eq Store.t_promise (Store.timers st)). }
  assert (Hkeep : forall t', In t' (Store.timers st) ->
            Store.t_promise t' <> Store.t_promise t ->
            In t' (Store.timers (cancel t o st))).
  { intros t' Ht' Hp. simpl. apply filter_In. split; [assumption|].
    apply negb_true_iff, Nat.eqb_neq. intros Hh. apply Hp. f_equal.
    now apply (NoDup_map_eq Store.handle (Store.timers st)). }
  split; [|split; [|split; [|split; [|split]]]].
  - simpl. now apply NoDup_keys_delete.
  - intros k pe He. simpl in He. apply In_delete_iff in He.
    destruct He as [He Hk]. simpl in Hk.
    destruct (C2 k pe He) as (d & Hd). exists d.
    simpl. apply filter_In. split; [assumption|]. simpl.
    apply negb_true_iff, Nat.eqb_neq. intros Hh. apply Hk.
    assert (E : Store.mkTimer (Store.timeout pe) d k (Store.promise pe) = t)
      by now apply (NoDup_map_eq Store.handle (Store.timers st)).
    now rewrite <- E.
  - intros t' Ht'. simpl in Ht'. apply filter_In in Ht'.
    destruct Ht' as [Ht' Hh]. apply negb_true_iff, Nat.eqb_neq in Hh.
    rewrite settleCalls_cancel, (C3 t' Ht').
    specialize (Hother t' Ht' Hh).
    destruct (Nat.eqb_spec (Store.t_promise t) (Store.t_promise t'));
      [congruence | reflexivity].
  - intros p. rewrite settleCalls_cancel.
    destruct (Nat.eqb_spec (Store.t_promise t) p) as [<-|Hne].
    + rewrite (C3 t Hin). lia.
    + specialize (C4 p). lia.
  - intros p Hp. rewrite settleCalls_cancel.
    destruct (Nat.eqb_spec (Store.t_promise t) p) as [<-|Hne].
    + left. rewrite (C3 t Hin). reflexivity.
    + destruct (C5 p Hp) as [Hc|(t' & Ht' & Hpt')].
      * left. lia.
      * right. exists t'. split; [|assumption]. apply Hkeep; congruence.
  - intros c Hc. simpl in Hc. apply in_app_or in Hc.
    destruct Hc as [Hc|[<-|[]]]; [now apply C6 | exact Ho].
Qed.

Lemma sound_frame s s' :
  Store.timers s' = Store.timers s ->
  Store.pendingCommands s' = Store.pendingCommands s ->
  Store.settled s' = Store.settled s ->
  Store.nextPromise s' = Store.nextPromise s ->
  Store.nextTimer s' = Store.nextTimer s ->
  sound s -> sound s'.
Proof.
  intros E1 E2 E3 E4 E5 [Hwf Hc].
  split; [now apply (wf_frame s s')|].
  unfold correlated, Store.settleCalls in *. now rewrite E1, E2, E3, E4.
Qed.

Lemma sound_removeStep id st e :
  sound st -> In e (Store.pendingCommands st) ->
  sound (Store.removeStep id st e).
Proof.
  intros Hs Hin. destruct e as [k pe].
  destruct (String.prefix id k) eqn:E;
    [|unfold Store.removeStep; now rewrite E].
  destruct Hs as [Hwf Hc]. pose proof Hc as (_ & C2 & _).
  destruct (C2 k pe Hin) as (d & Hd).
  rewrite (removeStep_cancel id st k pe d E).
  apply sound_cancel; [now split | assumption | now left].
Qed.

Lemma removeStep_pending id st e (e' : string * Store.Pending) :
  In e' (Store.pendingCommands st) -> fst e' <> fst e ->
  In e' (Store.pendingCommands (Store.removeStep id st e)).
Proof.
  intros Hin Hne. destruct e as [k pe]. unfold Store.removeStep.
  destruct (String.prefix id k); [|assumption].
  simpl. apply In_delete_iff. now split.
Qed.

Lemma sound_remove_loop id l : forall st,
  NoDup (map fst l) -> incl l (Store.pendingCommands st) -> sound st ->
  sound (fold_left (Store.removeStep id) l st).
Proof.
  induction l as [|e l IH]; intros st Hnd Hincl Hs; simpl; [assumption|].
  inversion Hnd as [|x xs Hnotin Hnd']; subst.
  apply IH; [assumption| |].
  - intros e' He'. apply removeStep_pending.
    + apply Hincl. now right.
    + intros E. apply Hnotin. rewrite <- E. now apply in_map.
  - apply sound_removeStep; [assumption|]. apply Hincl. now left.
Qed.

Lemma sound_remove id s : sound s -> sound (Store.remove id s).
Proof.
  intros Hs. unfold Store.remove.
  destruct (JsMap.get id (Store.connections s)); [|assumption].
  apply sound_remove_loop.
  - apply Hs.
  - simpl. apply incl_refl.
  - now apply (sound_frame s).
Qed.

Lemma fire_timers t st (t' : Store.Timer) :
  In t' (Store.timers st) -> Store.handle t' <> Store.handle t ->
  In t' (Store.timers (Store.fire t st)).
Proof.
  intros Hin Hne. simpl. apply filter_In. split; [assumption|].
  now apply negb_true_iff, Nat.eqb_neq.
Qed.

Lemma sound_elapse_loop now' l : forall st,
  NoDup (map Store.handle l) -> incl l (Store.timers st) -> sound st ->
  sound (fold_left (fun st t => if (Store.due t <=? now')%Z
                                then Store.fire t st else st) l st).
Proof.
  induction l as [|t l IH]; intros st Hnd Hincl Hs; simpl; [assumption|].
  inversion Hnd as [|x xs Hnotin Hnd']; subst.
  destruct (Store.due t <=? now')%Z.
  - apply IH; [assumption| |].
    + intros t' Ht'. apply fire_timers; [apply Hincl; now right|].
      intros E. apply Hnotin. rewrite <- E. now apply in_map.
    + rewrite fire_cancel. apply sound_cancel; [assumption| |now right].
      apply Hincl. now left.
  - apply IH; [assumption| |assumption].
    intros t' Ht'. apply Hincl. now right.
Qed.

Lemma sound_elapse d s : sound s -> sound (Store.elapse d s).
Proof.
  intros Hs. unfold Store.elapse. apply sound_elapse_loop.
  - apply Hs.
  - simpl. apply incl_refl.
  - now apply (sound_frame s).
Qed.

Lemma sound_sendCommand id command s :
  sound s -> sound (fst (Store.sendCommand id command s)).
Proof.
  intros [Hwf Hc].
  pose proof (wf_sendCommand id command s Hwf) as Hwf'.
  revert Hwf'. unfold Store.sendCommand.
  destruct (JsMap.get id (Store.connections s)) as [conn|];
    [|intros _; now split].
  destruct (negb _); [intros _; now split|].
  simpl. intros Hwf'. split; [exact Hwf'|].
  destruct Hwf as (W1 & W2 & W3 & W4 & W5).
  destruct Hc as (C1 & C2 & C3 & C4 & C5 & C6).
  assert (Hfresh : Store.settleCalls (Store.nextPromise s) s = 0)
    by (unfold Store.settleCalls; now rewrite calls_fresh).
  unfold correlated, Store.settleCalls in *. simpl.
  split; [now apply NoDup_keys_set|]. split; [|split; [|split; [|split]]].
  - intros k pe He. apply In_set in He. destruct He as [[= -> ->]|He].
    + exists (Store.now s + 30000)%Z. apply in_or_app. right. now left.
    + destruct (C2 k pe He) as (d & Hd). exists d. apply in_or_app. now left.
  - intros t Ht. apply in_app_or in Ht.
    destruct Ht as [Ht|[<-|[]]]; [now apply C3 | exact Hfresh].
  - exact C4.
  - intros p Hp.
    destruct (Nat.eq_dec p (Store.nextPromise s)) as [->|Hne].
    + right. eexists. split; [apply in_or_app; right; now left | reflexivity].
    + destruct (C5 p) as [Hc|(t & Ht & Hpt)]; [lia | now left |].
      right. exists t. split; [apply in_or_app; now left | assumption].
  - exact C6.
Qed.

Lemma sound_step ev s : sound s -> sound (Loop.step s ev).
Proof.
  intros Hs. destruct ev; simpl.
  - now apply (sound_frame s).
  - now apply sound_remove.
  - destruct (updateContext_frame id ctx s) as (E1 & E2 & E3 & E4 & E5 & _).
    now apply (sound_frame s).
  - now apply sound_sendCommand.
  - exact Hs.
  - now apply (sound_frame s).
  - now apply sound_elapse.
Qed.

Lemma sound_run evs : forall s, sound s -> sound (Loop.run evs s).
Proof.
  induction evs as [|ev evs IH]; intros s Hs; simpl; [assumption|].
  apply IH. now apply sound_step.
Qed.

Lemma sound_created clock : sound (Store.createConnectionStore clock).
Proof.
  split.
  - apply wf_reachable. now exists clock, [].
  - unfold correlated. simpl.
    split; [constructor|]. split; [intros ? ? []|]. split; [intros ? []|].
    split; [intros p; unfold Store.settleCalls; simpl; lia|].
    split; [intros p Hp; lia | intros ? []].
Qed.

Lemma sound_reachable s : Loop.reachable s -> sound s.
Proof. intros (clock & evs & ->). apply sound_run, sound_created. Qed.

Lemma promiseState_In p o s :
  Store.promiseState p s = Some o -> In (p, o) (Store.settled s).
Proof.
  unfold Store.promiseState.
  destruct (find _ _) as [[p' o']|] eqn:E; simpl; [|discriminate].
  intros [= ->]. apply find_some in E. destruct E as [Hin Hp].
  simpl in Hp. apply Nat.eqb_eq in Hp. now subst.
Qed.

Lemma settled_promiseState p s :
  Store.settleCalls p s <> 0 -> exists o, Store.promiseState p s = Some o.
Proof.
  unfold Store.settleCalls, Store.promiseState.
  induction (Store.settled s) as [|c l IH]; simpl; [congruence|].
  destruct (Nat.eqb (fst c) p); simpl; eauto.
Qed.

(** ** Timers: what a clock advance leaves armed and pending *)

Lemma filter_all {A : Type} (l : list A) : filter (fun _ => true) l = l.
Proof. induction l as [|a l IH]; simpl; congruence. Qed.

Lemma elapse_loop_timers now' l : forall st,
  Store.timers (fold_left (fun st t => if (Store.due t <=? now')%Z
                                       then Store.fire t st else st) l st) =
  filter (fun t => negb (existsb (fun t' => (Store.due t' <=? now')%Z &&
                                            Nat.eqb (Store.handle t)
                                                    (Store.handle t')) l))
         (Store.timers st).
Proof.
  induction l as [|t0 l IH]; intros st; simpl; [now rewrite filter_all|].
  rewrite IH. destruct (Store.due t0 <=? now')%Z; simpl; [|reflexivity].
  rewrite filter_filter. apply filter_ext. intros t.
  now rewrite negb_orb.
Qed.

Lemma elapse_loop_pending now' l : forall st,
  Store.pendingCommands
    (fold_left (fun st t => if (Store.due t <=? now')%Z
                            then Store.fire t st else st) l st) =
  filter (fun e => negb (existsb (fun t' => (Store.due t' <=? now')%Z &&
                                            String.eqb (fst e) (Store.t_key t'))
                                 l))
         (Store.pendingCommands st).
Proof.
  induction l as [|t0 l IH]; intros st; simpl; [now rewrite filter_all|].
  rewrite IH. destruct (Store.due t0 <=? now')%Z; simpl; [|reflexivity].
  unfold JsMap.delete. rewrite filter_filter. apply filter_ext. intros e.
  now rewrite negb_orb.
Qed.

Lemma elapse_timers d s t :
  In t (Store.timers (Store.elapse d s)) ->
  In t (Store.timers s) /\ (Store.now s + d < Store.due t)%Z.
Proof.
  unfold Store.elapse. rewrite elapse_loop_timers. simpl.
  intros H. apply filter_In in H. destruct H as [Hin Hex].
  split; [assumption|].
  apply negb_true_iff in Hex.
  destruct (Store.due t <=? Store.now s + d)%Z eqn:E;
    [|now apply Z.leb_gt in E].
  exfalso. rewrite <- not_true_iff_false in Hex. apply Hex.
  apply existsb_exists. exists t. split; [assumption|].
  now rewrite E, Nat.eqb_refl.
Qed.

Lemma elapse_counters d s :
  Store.nextPromise (Store.elapse d s) = Store.nextPromise s /\
  Store.nextTimer (Store.elapse d s) = Store.nextTimer s.
Proof.
  unfold Store.elapse.
  apply (fold_left_keeps _
           (fun st => Store.nextPromise st = Store.nextPromise s /\
                      Store.nextTimer st = Store.nextTimer s)).
  - now split.
  - intros st t _ [H1 H2]. destruct (Store.due t <=? _)%Z; [|now split].
    now destruct (fire_counters t st) as (-> & -> & _).
Qed.

Lemma remove_timers id s t :
  In t (Store.timers (Store.remove id s)) -> In t (Store.timers s).
Proof.
  unfold Store.remove.
  destruct (JsMap.get id (Store.connections s)); [|auto].
  revert t.
  apply (fold_left_keeps (Store.removeStep id)
           (fun st => forall t, In t (Store.timers st) -> In t (Store.timers s))).
  - auto.
  - intros st [k pe] _ Hst t. unfold Store.removeStep.
    destruct (String.prefix id k); [|apply Hst].
    simpl. intros Ht. apply filter_In in Ht. now apply Hst.
Qed.

Lemma timely_step ev s :
  (0 <= match ev with Loop.Elapse d => d | _ => 0 end)%Z ->
  timely s -> timely (Loop.step s ev).
Proof.
  intros Hd Ht t. rewrite step_now. destruct ev; simpl; rewrite ?Z.add_0_r.
  - apply Ht.
  - intros Hin. apply Ht. now apply remove_timers in Hin.
  - destruct (updateContext_frame id ctx s) as (_ & -> & _). apply Ht.
  - unfold Store.sendCommand.
    destruct (JsMap.get id (Store.connections s)); [|apply Ht].
    destruct (negb _); [apply Ht|]. simpl.
    intros Hin. apply in_app_or in Hin.
    destruct Hin as [Hin|[<-|[]]]; [now apply Ht | simpl; lia].
  - apply Ht.
  - apply Ht.
  - intros Hin. apply elapse_timers in Hin. destruct Hin as [Hin Hdue].
    specialize (Ht t Hin). lia.
Qed.

Lemma timely_run evs : forall s,
  Loop.monotone evs = true -> timely s -> timely (Loop.run evs s).
Proof.
  induction evs as [|ev evs IH]; intros s Hm Ht; simpl; [assumption|].
  apply IH.
  - destruct ev; simpl in Hm; try assumption.
    now apply andb_true_iff in Hm.
  - apply timely_step; [|assumption].
    destruct ev; simpl in *; lia.
Qed.

(** ** What [remove] and a clock advance do, in closed form *)

Lemma remove_loop_pending id l : forall st,
  Store.pendingCommands (fold_left (Store.removeStep id) l st) =
  filter (fun e => negb (existsb (fun e' => String.prefix id (fst e') &&
                                            String.eqb (fst e) (fst e')) l))
         (Store.pendingCommands st).
Proof.
  induction l as [|[k pe] l IH]; intros st; simpl; [now rewrite filter_all|].
  rewrite IH. unfold Store.removeStep.
  destruct (String.prefix id k); simpl; [|reflexivity].
  unfold JsMap.delete. rewrite filter_filter. apply filter_ext. intros e.
  now rewrite negb_orb.
Qed.

Lemma remove_loop_timers id l : forall st,
  Store.timers (fold_left (Store.removeStep id) l st) =
  filter (fun t => negb (existsb (fun e' => String.prefix id (fst e') &&
                                            Nat.eqb (Store.handle t)
                                                    (Store.timeout (snd e'))) l))
         (Store.timers st).
Proof.
  induction l as [|[k pe] l IH]; intros st; simpl; [now rewrite filter_all|].
  rewrite IH. unfold Store.removeStep.
  destruct (String.prefix id k); simpl; [|reflexivity].
  rewrite filter_filter. apply filter_ext. intros t.
  now rewrite negb_orb.
Qed.

Lemma remove_loop_settled id l : forall st,
  Store.settled (fold_left (Store.removeStep id) l st) =
  Store.settled st ++ rejections id l.
Proof.
  unfold rejections.
  induction l as [|[k pe] l IH]; intros st; simpl; [now rewrite app_nil_r|].
  rewrite IH. unfold Store.removeStep.
  destruct (String.prefix id k); simpl; [|reflexivity].
  now rewrite <- app_assoc.
Qed.

Lemma elapse_loop_settled now' l : forall st,
  Store.settled
    (fold_left (fun st t => if (Store.due t <=? now')%Z
                            then Store.fire t st else st) l st) =
  Store.settled st ++
  map (fun t => (Store.t_promise t, Store.Rejected Store.CommandTimeout))
      (filter (fun t => (Store.due t <=? now')%Z) l).
Proof.
  induction l as [|t l IH]; intros st; simpl; [now rewrite app_nil_r|].
  rewrite IH. destruct (Store.due t <=? now')%Z; simpl; [|reflexivity].
  now rewrite <- app_assoc.
Qed.

Lemma find_first_appended (l1 l2 : list (nat * Store.Settlement)) p o :
  filter (fun c => Nat.eqb (fst c) p) l1 = [] ->
  In p (map fst l2) ->
  (forall c, In c l2 -> snd c = o) ->
  option_map snd (find (fun c => Nat.eqb (fst c) p) (l1 ++ l2)) = Some o.
Proof.
  intros H1 Hin Hall. induction l1 as [|c l1 IH]; simpl in *.
  - clear H1. induction l2 as [|c l2 IH2]; simpl in *; [contradiction|].
    destruct (Nat.eqb_spec (fst c) p) as [_|Hne].
    + simpl. f_equal. apply Hall. now left.
    + destruct Hin as [Hin|Hin]; [contradiction|].
      apply IH2; [assumption|]. intros c' Hc'. apply Hall. now right.
  - destruct (Nat.eqb (fst c) p); [discriminate H1 | now apply IH].
Qed.

(** The first settling call on an unsettled promise decides its state. *)
Lemma promiseState_appended p o s s' (l : list (nat * Store.Settlement)) :
  Store.settleCalls p s = 0 ->
  Store.settled s' = Store.settled s ++ l ->
  In p (map fst l) ->
  (forall c, In c l -> snd c = o) ->
  Store.promiseState p s' = Some o.
Proof.
  intros Hc E Hin Hall. unfold Store.promiseState. rewrite E.
  unfold Store.settleCalls in Hc. apply length_zero_iff_nil in Hc.
  now apply find_first_appended.
Qed.

(** ** Extra properties of the store *)

(** X1: [add] then [get]: the added connection is found under its own
    id, every other id reads as before; a new id goes to the end of
    [list()], an id already registered is replaced where it stands; the
    pending requests are not touched, also when a connection is replaced. *)
Theorem add_then_get :
  forall (s : Store.State) (conn : Store.TabConnection),
    let s' := Store.add conn s in
    Store.get (Store.id conn) s' = Some conn /\
    (forall id', Store.id conn <> id' -> Store.get id' s' = Store.get id' s) /\
    (Store.get (Store.id conn) s = None ->
     Store.list_ s' = Store.list_ s ++ [conn]) /\
    (forall old, Store.get (Store.id conn) s = Some old ->
     exists before after,
       Store.list_ s = before ++ old :: after /\
       Store.list_ s' = before ++ conn :: after) /\
    Store.pendingCommands s' = Store.pendingCommands s /\
    Store.timers s' = Store.timers s.
Proof.
  intros s conn s'. subst s'. unfold Store.get, Store.add, Store.list_. simpl.
  split; [apply get_set_same|]. split; [intros id'; apply get_set_other|].
  split; [|split; [|split; reflexivity]].
  - generalize (Store.id conn) as k.
    induction (Store.connections s) as [|[k' v'] m IH]; intros k; simpl;
      [reflexivity|].
    destruct (String.eqb k' k); [discriminate|].
    intros H. unfold JsMap.values in *. simpl. now rewrite (IH k H).
  - generalize (Store.id conn) as k.
    induction (Store.connections s) as [|[k' v'] m IH]; intros k old; simpl;
      [discriminate|].
    destruct (String.eqb k' k).
    + intros [= ->]. exists [], (JsMap.values m). now split.
    + intros H. destruct (IH k old H) as (b & a & E1 & E2).
      exists (v' :: b), a. simpl. unfold JsMap.values in *.
      now rewrite E1, E2.
Qed.

Lemma add_then_get_witness :
  Store.list_ (Store.add Scenario.c10 (Store.add Scenario.c1
                 (Store.createConnectionStore 1000)))
    = [Scenario.c1; Scenario.c10] /\
  exists before after,
    Store.list_ Scenario.sent10 = before ++ Scenario.c1 :: after /\
    Store.list_ (Store.add Scenario.c1_closed Scenario.sent10)
      = before ++ Scenario.c1_closed :: after.
Proof.
  split.
  - destruct (add_then_get (Store.add Scenario.c1
                              (Store.createConnectionStore 1000))
                Scenario.c10) as (_ & _ & H & _).
    apply H. reflexivity.
  - destruct (add_then_get Scenario.sent10 Scenario.c1_closed)
      as (_ & _ & _ & H & _).
    apply (H Scenario.c1). reflexivity.
Defined.

(** X2: [getByTabId] returns the first connection, in insertion order,
    whose [tabId] is the one asked for, and not-found exactly when no
    registered connection has that tab. *)
Theorem getByTabId_first_match :
  forall (s : Store.State) (tab : Z),
    match Store.getByTabId tab s with
    | Some conn =>
        Store.tabId conn = tab /\
        exists before after,
          Store.list_ s = before ++ conn :: after /\
          forall c, In c before -> Store.tabId c <> tab
    | None => forall c, In c (Store.list_ s) -> Store.tabId c <> tab
    end.
Proof.
  intros s tab. unfold Store.getByTabId, Store.list_.
  induction (JsMap.values (Store.connections s)) as [|c l IH]; simpl.
  - intros c [].
  - destruct (Z.eqb_spec (Store.tabId c) tab) as [E|Hne].
    + split; [assumption|]. exists [], l. split; [reflexivity | intros ? []].
    + destruct (find _ l) as [conn|].
      * destruct IH as (Ht & b & a & E & Hb). split; [assumption|].
        exists (c :: b), a. split; [simpl; now rewrite E|].
        intros c' [<-|Hc']; auto.
      * intros c' [<-|Hc']; auto.
Qed.

(** X3: [remove(id)] of a registered connection deletes exactly the
    pending entries whose key starts with [id], makes one settling call on
    each of their promises, a rejection with "Connection closed", in
    insertion order, and clears their timers and no others. *)
Theorem remove_cancels_exactly_prefixed :
  forall (s : Store.State) (id : string) (conn : Store.TabConnection),
    Store.get id s = Some conn ->
    let s' := Store.remove id s in
    Store.connections s' = JsMap.delete id (Store.connections s) /\
    Store.pendingCommands s' =
      filter (fun e => negb (String.prefix id (fst e)))
             (Store.pendingCommands s) /\
    Store.settled s' = Store.settled s ++ rejections id (Store.pendingCommands s) /\
    Store.timers s' =
      filter (fun t => negb (existsb
                (fun e => String.prefix id (fst e) &&
                          Nat.eqb (Store.handle t) (Store.timeout (snd e)))
                (Store.pendingCommands s)))
             (Store.timers s).
Proof.
  intros s id conn Hget s'. subst s'.
  split; [apply remove_connections|].
  unfold Store.get in Hget. unfold Store.remove. rewrite Hget.
  rewrite remove_loop_pending, remove_loop_settled, remove_loop_timers. simpl.
  split; [|split; reflexivity].
  apply filter_ext_in. intros e He. f_equal.
  destruct (String.prefix id (fst e)) eqn:E.
  - apply existsb_exists. exists e. split; [assumption|].
    now rewrite E, String.eqb_refl.
  - apply not_true_iff_false. intros H. apply existsb_exists in H.
    destruct H as (e' & _ & H). apply andb_true_iff in H. destruct H as [H1 H2].
    apply String.eqb_eq in H2. congruence.
Qed.

Lemma remove_cancels_exactly_prefixed_witness :
  Store.pendingCommands (Store.remove "c1" Scenario.sent) = [] /\
  Store.settled (Store.remove "c1" Scenario.sent)
    = [(0, Store.Rejected Store.ConnectionClosed)].
Proof.
  destruct (remove_cancels_exactly_prefixed Scenario.sent "c1" Scenario.c1
              eq_refl) as (_ & H1 & H2 & _).
  split; [exact H1 | exact H2].
Defined.

(** X4: [remove] is idempotent: a second [remove(id)] changes nothing,
    in particular it rejects no request a second time. *)
Theorem remove_idempotent :
  forall (s : Store.State) (id : string),
    Store.remove id (Store.remove id s) = Store.remove id s.
Proof. intros s id. apply remove_absent, remove_get_same. Qed.

(** ** Stored under their own id *)

Lemma elapse_connections d s :
  Store.connections (Store.elapse d s) = Store.connections s.
Proof.
  unfold Store.elapse.
  apply (fold_left_keeps _
           (fun st => Store.connections st = Store.connections s));
    [reflexivity|].
  intros st t _ H. now destruct (Store.due t <=? _)%Z.
Qed.

Lemma sendCommand_connections id command s :
  Store.connections (fst (Store.sendCommand id command s))
    = Store.connections s.
Proof.
  unfold Store.sendCommand.
  destruct (JsMap.get id (Store.connections s)); [|reflexivity].
  now destruct (negb _).
Qed.

Lemma keyed_step ev s : keyed s -> keyed (Loop.step s ev).
Proof.
  intros [Hnd Hid]. destruct ev; simpl.
  - split; simpl; [now apply NoDup_keys_set|].
    intros k c Hin. apply In_set in Hin.
    destruct Hin as [[= -> ->]|Hin]; [reflexivity | now apply Hid].
  - unfold keyed. rewrite remove_connections.
    split; [now apply NoDup_keys_delete|].
    intros k c Hin. apply In_delete in Hin. now apply Hid.
  - unfold keyed. rewrite updateContext_connections.
    destruct (JsMap.get id (Store.connections s)) as [conn|] eqn:E;
      [|now split].
    split; [now apply NoDup_keys_set|].
    intros k c Hin. apply In_set in Hin.
    destruct Hin as [[= -> ->]|Hin]; [|now apply Hid].
    simpl. apply Hid. now apply get_In.
  - unfold keyed. rewrite sendCommand_connections. now split.
  - now split.
  - now split.
  - unfold keyed. rewrite elapse_connections. now split.
Qed.

Lemma keyed_run evs : forall s, keyed s -> keyed (Loop.run evs s).
Proof.
  induction evs as [|ev evs IH]; intros s Hk; simpl; [assumption|].
  apply IH. now apply keyed_step.
Qed.

Lemma keyed_reachable s : Loop.reachable s -> keyed s.
Proof.
  intros (clock & evs & ->). apply keyed_run.
  split; simpl; [constructor | intros ? ? []].
Qed.

Lemma keyed_ids (m : JsMap.t Store.TabConnection) :
  (forall k conn, In (k, conn) m -> Store.id conn = k) ->
  map Store.id (JsMap.values m) = map fst m.
Proof.
  induction m as [|[k v] m IH]; simpl; intros H; [reflexivity|].
  rewrite (H k v) by now left. f_equal. apply IH.
  intros k' c Hin. apply H. now right.
Qed.

(** X5: in every store made by [createConnectionStore], whatever was
    done with it, a connection found by [get(id)] has that id, and no two
    connections of [list()] have the same id. *)
Theorem connections_keyed_by_own_id :
  forall (s : Store.State),
    Loop.reachable s ->
    (forall id conn, Store.get id s = Some conn -> Store.id conn = id) /\
    NoDup (map Store.id (Store.list_ s)).
Proof.
  intros s Hr. destruct (keyed_reachable s Hr) as [Hnd Hid]. split.
  - intros id conn Hget. apply Hid. now apply get_In.
  - unfold Store.list_. now rewrite keyed_ids.
Qed.

Lemma connections_keyed_by_own_id_witness :
  NoDup (map Store.id (Store.list_ Scenario.sent10)).
Proof.
  apply (connections_keyed_by_own_id Scenario.sent10).
  exists 1000%Z,
    [Loop.Add Scenario.c1; Loop.Add Scenario.c10;
     Loop.SendCommand "c10" (Scenario.click "r1")].
  reflexivity.
Defined.

(** ** Every call is settled, once, and in time *)

(** X6: whatever is done with a store, no promise returned by
    [sendCommand] gets more than one settling call: result, timeout and
    removal never fire twice, nor one after the other. *)
Theorem promise_settled_at_most_once :
  forall (s : Store.State) (p : nat),
    Loop.reachable s -> Store.settleCalls p s <= 1.
Proof. intros s p Hr. apply (sound_reachable s Hr). Qed.

Lemma promise_settled_at_most_once_witness :
  Store.settleCalls 0
    (Loop.run [Loop.Add Scenario.c1;
               Loop.SendCommand "c1" (Scenario.click "r1");
               Loop.Remove "c1"; Loop.Remove "c1"; Loop.Elapse 30000]
              (Store.createConnectionStore 1000))
    <= 1.
Proof.
  apply promise_settled_at_most_once.
  exists 1000%Z,
    [Loop.Add Scenario.c1; Loop.SendCommand "c1" (Scenario.click "r1");
     Loop.Remove "c1"; Loop.Remove "c1"; Loop.Elapse 30000].
  reflexivity.
Defined.

(** X7: whatever is done with a store, including the delivery of
    results through [handleCommandResult], a settled promise of
    [sendCommand] is a rejected one, with "Connection closed" or with
    "Command timeout": no call is ever fulfilled. *)
Theorem promise_only_ever_rejected :
  forall (s : Store.State) (p : nat) (o : Store.Settlement),
    Loop.reachable s ->
    Store.promiseState p s = Some o ->
    o = Store.Rejected Store.ConnectionClosed \/
    o = Store.Rejected Store.CommandTimeout.
Proof.
  intros s p o Hr Hp.
  destruct (sound_reachable s Hr) as (_ & _ & _ & _ & _ & _ & C6).
  apply promiseState_In in Hp. exact (C6 (p, o) Hp).
Qed.

Lemma promise_only_ever_rejected_witness :
  Store.Rejected Store.CommandTimeout
    = Store.Rejected Store.ConnectionClosed \/
  Store.Rejected Store.CommandTimeout
    = Store.Rejected Store.CommandTimeout.
Proof.
  apply (promise_only_ever_rejected
           (Loop.run [Loop.CommandResult "c1" "r1" Scenario.ok;
                      Loop.Elapse 30000] Scenario.sent) 0).
  - exists 1000%Z,
      [Loop.Add Scenario.c1; Loop.SendCommand "c1" (Scenario.click "r1");
       Loop.CommandResult "c1" "r1" Scenario.ok; Loop.Elapse 30000].
    reflexivity.
  - reflexivity.
Defined.

(** X8: whatever is done with a store, an entry of [pendingCommands]
    has its timer armed, for the same key and promise, and its promise is
    still unsettled: no entry is left behind that nothing would end. *)
Theorem pending_entry_has_armed_timer :
  forall (s : Store.State) (key : string) (pe : Store.Pending),
    Loop.reachable s ->
    JsMap.get key (Store.pendingCommands s) = Some pe ->
    Store.promiseState (Store.promise pe) s = None /\
    exists d,
      In (Store.mkTimer (Store.timeout pe) d key (Store.promise pe))
         (Store.timers s).
Proof.
  intros s key pe Hr Hget.
  destruct (sound_reachable s Hr) as (_ & _ & C2 & C3 & _).
  apply get_In in Hget. destruct (C2 key pe Hget) as (d & Hd).
  split; [|now exists d].
  apply promiseState_unsettled. exact (C3 _ Hd).
Qed.

Lemma pending_entry_has_armed_timer_witness :
  Store.promiseState 0 Scenario.sent10 = None /\
  exists d, In (Store.mkTimer 0 d "c10:r1" 0) (Store.timers Scenario.sent10).
Proof.
  apply (pending_entry_has_armed_timer Scenario.sent10 "c10:r1"
           (Store.mkPending 0 0)).
  - exists 1000%Z,
      [Loop.Add Scenario.c1; Loop.Add Scenario.c10;
       Loop.SendCommand "c10" (Scenario.click "r1")].
    reflexivity.
  - reflexivity.
Defined.

(** X9: no call waits forever. After any events during which the
    clock never ran backwards, once 30000 ms pass with no new call, no
    entry is pending, no timer is armed, and every promise [sendCommand]
    has returned got its one settling call, a rejection. *)
Theorem no_request_outlives_30000_ms :
  forall (clock : Z) (evs : list Loop.Event) (d : Z),
    Loop.monotone evs = true ->
    (30000 <= d)%Z ->
    let s := Loop.run evs (Store.createConnectionStore clock) in
    let s' := Store.elapse d s in
    Store.pendingCommands s' = [] /\
    Store.timers s' = [] /\
    forall p, p < Store.nextPromise s ->
      Store.settleCalls p s' = 1 /\
      (Store.promiseState p s' = Some (Store.Rejected Store.ConnectionClosed) \/
       Store.promiseState p s' = Some (Store.Rejected Store.CommandTimeout)).
Proof.
  intros clock evs d Hm Hd s s'.
  assert (Hs : sound s) by apply sound_run, sound_created.
  assert (Ht : timely s) by (apply timely_run; [assumption | intros ? []]).
  assert (Htm : Store.timers s' = []).
  { subst s'. unfold Store.elapse. rewrite elapse_loop_timers. simpl.
    apply filter_none. intros t Hin. apply negb_false_iff, existsb_exists.
    exists t. split; [assumption|]. rewrite Nat.eqb_refl, andb_true_r.
    apply Z.leb_le. specialize (Ht t Hin). lia. }
  split; [|split; [exact Htm|]].
  - subst s'. unfold Store.elapse. rewrite elapse_loop_pending. simpl.
    apply filter_none. intros [k pe] Hin. apply negb_false_iff, existsb_exists.
    destruct Hs as (_ & _ & C2 & _). destruct (C2 k pe Hin) as (dl & Hdl).
    eexists. split; [exact Hdl|]. simpl. rewrite String.eqb_refl, andb_true_r.
    apply Z.leb_le. specialize (Ht _ Hdl). simpl in Ht. lia.
  - intros p Hp.
    assert (Hs' : sound s') by now apply sound_elapse.
    destruct Hs' as (_ & _ & _ & _ & _ & C5 & C6).
    assert (Hc : Store.settleCalls p s' = 1).
    { destruct (C5 p) as [Hc|(t & Hin & _)].
      - subst s'. now destruct (elapse_counters d s) as (-> & _).
      - assumption.
      - rewrite Htm in Hin. destruct Hin. }
    split; [exact Hc|].
    destruct (settled_promiseState p s') as (o & Ho); [lia|].
    rewrite Ho. pose proof (promiseState_In p o s' Ho) as Hin.
    destruct (C6 (p, o) Hin) as [E|E]; simpl in E; subst o; auto.
Qed.

Lemma no_request_outlives_30000_ms_witness :
  let s' := Store.elapse 30000
              (Loop.run [Loop.Add Scenario.c1;
                         Loop.SendCommand "c1" (Scenario.click "r1");
                         Loop.Elapse 10000;
                         Loop.SendCommand "c1" (Scenario.click "r2")]
                        (Store.createConnectionStore 1000)) in
  Store.pendingCommands s' = [] /\ Store.timers s' = [] /\
  Store.settleCalls 1 s' = 1.
Proof.
  assert (D : (30000 <= 30000)%Z) by (vm_compute; discriminate).
  destruct (no_request_outlives_30000_ms 1000
              [Loop.Add Scenario.c1;
               Loop.SendCommand "c1" (Scenario.click "r1");
               Loop.Elapse 10000;
               Loop.SendCommand "c1" (Scenario.click "r2")]
              30000 eq_refl D) as (H1 & H2 & H3).
  intros s'. split; [exact H1|]. split; [exact H2|].
  assert (L : 1 < 2) by (vm_compute; constructor).
  exact (proj1 (H3 1 L)).
Defined.

(** X10: a successful [sendCommand], on any store whatever was done
    with it before, returns a promise that is new: no settling call was
    made on it and no earlier entry or timer refers to it or to its timer.
    The entry is stored under `id:requestId`, the timer is due 30000 ms
    from now, and the command is written to the socket of the connection,
    after the frames written before. *)
Theorem sendCommand_registers_fresh_request :
  forall (s : Store.State) (id : string) (command : Store.PincerCommand)
         (conn : Store.TabConnection),
    Loop.reachable s ->
    Store.get id s = Some conn ->
    Store.readyState (Store.ws conn) = Store.OPEN ->
    let key := (id ++ ":" ++ Store.requestId command)%string in
    let p := Store.nextPromise s in
    let h := Store.nextTimer s in
    let s1 := fst (Store.sendCommand id command s) in
    snd (Store.sendCommand id command s) = inr p /\
    JsMap.get key (Store.pendingCommands s1) = Some (Store.mkPending p h) /\
    Store.timers s1 =
      Store.timers s ++ [Store.mkTimer h (Store.now s + 30000)%Z key p] /\
    Store.wire s1 = Store.wire s ++ [(Store.socket (Store.ws conn), command)] /\
    Store.promiseState p s1 = None /\
    (forall t, In t (Store.timers s) ->
       Store.t_promise t <> p /\ Store.handle t <> h) /\
    (forall k pe, In (k, pe) (Store.pendingCommands s) ->
       Store.promise pe <> p /\ Store.timeout pe <> h).
Proof.
  intros s id command conn Hr Hget Hopen key p h s1.
  destruct (wf_reachable s Hr) as (_ & _ & W3 & W4 & W5).
  subst s1. unfold Store.get in Hget. unfold Store.sendCommand.
  rewrite Hget, Hopen. simpl.
  split; [reflexivity|]. split; [apply get_set_same|].
  split; [reflexivity|]. split; [reflexivity|].
  split; [|split].
  - apply promiseState_unsettled. unfold Store.settleCalls. simpl.
    now rewrite calls_fresh.
  - intros t Ht. specialize (W3 t Ht). subst p h. lia.
  - intros k pe He. specialize (W4 (k, pe) He). simpl in W4. subst p h. lia.
Qed.

Lemma sendCommand_registers_fresh_request_witness :
  let s := Store.add Scenario.c1 (Store.createConnectionStore 1000) in
  snd (Store.sendCommand "c1" (Scenario.click "r1") s) = inr 0 /\
  JsMap.get "c1:r1" (Store.pendingCommands Scenario.sent)
    = Some (Store.mkPending 0 0).
Proof.
  assert (R : Loop.reachable
                (Store.add Scenario.c1 (Store.createConnectionStore 1000)))
    by (exists 1000%Z, [Loop.Add Scenario.c1]; reflexivity).
  destruct (sendCommand_registers_fresh_request
              (Store.add Scenario.c1 (Store.createConnectionStore 1000))
              "c1" (Scenario.click "r1") Scenario.c1 R eq_refl eq_refl)
    as (H1 & H2 & _).
  intros s. split; [exact H1 | exact H2].
Defined.

Lemma calls_app_none (l1 l2 : list (nat * Store.Settlement)) p :
  (forall c, In c l1 -> fst c <> p) -> (forall c, In c l2 -> fst c <> p) ->
  length (filter (fun c => Nat.eqb (fst c) p) (l1 ++ l2)) = 0.
Proof.
  intros H1 H2. rewrite filter_none; [reflexivity|].
  intros c Hc. apply Nat.eqb_neq. apply in_app_or in Hc.
  destruct Hc; auto.
Qed.

(** X11: a second [sendCommand] with a request id that is still
    pending on the same connection takes over the entry. The first call is
    then out of reach of [remove]: removing the connection rejects the
    second call with "Connection closed" and leaves the first one waiting,
    its timer armed, until its timeout rejects it. *)
Theorem overwritten_request_only_times_out :
  forall (s : Store.State) (id : string) (first second : Store.PincerCommand)
         (conn : Store.TabConnection) (d : Z),
    Loop.reachable s ->
    Store.get id s = Some conn ->
    Store.readyState (Store.ws conn) = Store.OPEN ->
    Store.requestId second = Store.requestId first ->
    (30000 <= d)%Z ->
    let key := (id ++ ":" ++ Store.requestId first)%string in
    let p1 := Store.nextPromise s in
    let p2 := S p1 in
    let s1 := fst (Store.sendCommand id first s) in
    let s2 := fst (Store.sendCommand id second s1) in
    let s3 := Store.remove id s2 in
    snd (Store.sendCommand id first s) = inr p1 /\
    snd (Store.sendCommand id second s1) = inr p2 /\
    JsMap.get key (Store.pendingCommands s2)
      = Some (Store.mkPending p2 (S (Store.nextTimer s))) /\
    Store.promiseState p2 s3 = Some (Store.Rejected Store.ConnectionClosed) /\
    Store.promiseState p1 s3 = None /\
    In (Store.mkTimer (Store.nextTimer s) (Store.now s + 30000)%Z key p1)
       (Store.timers s3) /\
    Store.promiseState p1 (Store.elapse d s3)
      = Some (Store.Rejected Store.CommandTimeout).
Proof.
  intros s id first second conn d Hr Hget Hopen Hreq Hd key p1 p2 s1 s2 s3.
  pose proof (sound_reachable s Hr) as Hs.
  assert (Hs2 : sound s2) by (subst s2 s1; now do 2 apply sound_sendCommand).
  destruct Hs as ((_ & _ & W3 & W4 & W5) & _).
  unfold Store.get in Hget.
  assert (E1 : Store.sendCommand id first s =
    (Store.mkState (Store.connections s)
       (JsMap.set key (Store.mkPending p1 (Store.nextTimer s))
          (Store.pendingCommands s))
       (Store.contextHandlers s) (Store.now s)
       (Store.timers s ++
        [Store.mkTimer (Store.nextTimer s) (Store.now s + 30000)%Z key p1])
       (Store.settled s) (S p1) (S (Store.nextTimer s))
       (Store.wire s ++ [(Store.socket (Store.ws conn), first)])
       (Store.invoked s) (Store.console s), inr p1)).
  { unfold Store.sendCommand. now rewrite Hget, Hopen. }
  assert (E2 : Store.sendCommand id second s1 =
    (Store.mkState (Store.connections s)
       (JsMap.set key (Store.mkPending p2 (S (Store.nextTimer s)))
          (Store.pendingCommands s1))
       (Store.contextHandlers s) (Store.now s)
       (Store.timers s1 ++
        [Store.mkTimer (S (Store.nextTimer s)) (Store.now s + 30000)%Z key p2])
       (Store.settled s) (S p2) (S (S (Store.nextTimer s)))
       (Store.wire s1 ++ [(Store.socket (Store.ws conn), second)])
       (Store.invoked s) (Store.console s), inr p2)).
  { subst s1. rewrite E1. unfold Store.sendCommand. simpl.
    rewrite Hget, Hopen, Hreq. reflexivity. }
  assert (Hkey : JsMap.get key (Store.pendingCommands s2)
                 = Some (Store.mkPending p2 (S (Store.nextTimer s))))
    by (subst s2; rewrite E2; apply get_set_same).
  assert (Hfirst : forall e, In e (Store.pendingCommands s2) ->
            Store.promise (snd e) <> p1 /\
            Store.timeout (snd e) <> Store.nextTimer s).
  { intros [k pe] He.
    assert (Hin : In (k, pe) (Store.pendingCommands s2)) by exact He.
    subst s2. rewrite E2 in He. simpl in He. apply In_set in He.
    destruct He as [[= -> ->]|He]; [simpl; subst p2; lia|].
    subst s1. rewrite E1 in He. simpl in He. apply In_set in He.
    destruct He as [[= -> ->]|He].
    - exfalso. destruct Hs2 as (_ & C1 & _).
      rewrite (In_get _ _ _ C1 Hin) in Hkey. injection Hkey. subst p2. lia.
    - specialize (W4 _ He). simpl in *. subst p1. lia. }
  assert (Hsettled : forall c, In c (Store.settled s) -> fst c <> p1)
    by (intros c Hc; specialize (W5 c Hc); subst p1; lia).
  assert (E3s : Store.settled s3 =
                Store.settled s ++ rejections id (Store.pendingCommands s2)).
  { subst s3. unfold Store.remove.
    replace (Store.connections s2) with (Store.connections s)
      by (subst s2; now rewrite E2).
    rewrite Hget, remove_loop_settled. simpl. subst s2. now rewrite E2. }
  assert (E3t : Store.timers s3 =
    filter (fun t => negb (existsb
              (fun e => String.prefix id (fst e) &&
                        Nat.eqb (Store.handle t) (Store.timeout (snd e)))
              (Store.pendingCommands s2)))
           (Store.timers s2)).
  { subst s3. unfold Store.remove.
    replace (Store.connections s2) with (Store.connections s)
      by (subst s2; now rewrite E2).
    now rewrite Hget, remove_loop_timers. }
  assert (Hc1 : Store.settleCalls p1 s3 = 0).
  { unfold Store.settleCalls. rewrite E3s.
    apply calls_app_none; [assumption|].
    intros c Hc. unfold rejections in Hc. apply in_map_iff in Hc.
    destruct Hc as (e & <- & He). apply filter_In in He. simpl.
    now apply Hfirst. }
  assert (Ht1 : In (Store.mkTimer (Store.nextTimer s)
                      (Store.now s + 30000)%Z key p1) (Store.timers s3)).
  { rewrite E3t. apply filter_In. split.
    - subst s2. rewrite E2. simpl. apply in_or_app. left.
      subst s1. rewrite E1. simpl. apply in_or_app. right. now left.
    - apply negb_true_iff, not_true_iff_false. intros H.
      apply existsb_exists in H. destruct H as (e & He & H).
      apply andb_true_iff in H. destruct H as [_ H]. apply Nat.eqb_eq in H.
      simpl in H. symmetry in H. now apply (Hfirst e He). }
  split; [now rewrite E1|]. split; [now rewrite E2|]. split; [exact Hkey|].
  split; [|split; [now apply promiseState_unsettled|split; [exact Ht1|]]].
  - apply (promiseState_appended p2 _
             (Store.with_settled (Store.settled s) s3) s3
             (rejections id (Store.pendingCommands s2))).
    + unfold Store.settleCalls. simpl. rewrite calls_fresh; [reflexivity|].
      intros c Hc. specialize (W5 c Hc). subst p2 p1. lia.
    + exact E3s.
    + unfold rejections. rewrite map_map. simpl.
      apply in_map_iff.
      exists (key, Store.mkPending p2 (S (Store.nextTimer s))).
      split; [reflexivity|]. apply filter_In.
      split; [now apply get_In | apply prefix_key].
    + intros c Hc. unfold rejections in Hc. apply in_map_iff in Hc.
      now destruct Hc as (e & <- & _).
  - assert (Hnow : Store.now s3 = Store.now s)
      by (subst s3; rewrite remove_now; subst s2; now rewrite E2).
    apply (promiseState_appended p1 _ s3 (Store.elapse d s3)
             (map (fun t => (Store.t_promise t,
                             Store.Rejected Store.CommandTimeout))
                  (filter (fun t => (Store.due t <=? Store.now s3 + d)%Z)
                          (Store.timers s3)))).
    + exact Hc1.
    + unfold Store.elapse. now rewrite elapse_loop_settled.
    + rewrite map_map. simpl. apply in_map_iff.
      eexists. split; [|apply filter_In; split; [exact Ht1|]].
      * reflexivity.
      * simpl. apply Z.leb_le. lia.
    + intros c Hc. apply in_map_iff in Hc. now destruct Hc as (t & <- & _).
Qed.

Lemma overwritten_request_only_times_out_witness :
  let s2 := fst (Store.sendCommand "c1" (Scenario.click "r1") Scenario.sent) in
  let s3 := Store.remove "c1" s2 in
  Store.promiseState 1 s3 = Some (Store.Rejected Store.ConnectionClosed) /\
  Store.promiseState 0 s3 = None /\
  Store.promiseState 0 (Store.elapse 30000 s3)
    = Some (Store.Rejected Store.CommandTimeout).
Proof.
  assert (R : Loop.reachable
                (Store.add Scenario.c1 (Store.createConnectionStore 1000)))
    by (exists 1000%Z, [Loop.Add Scenario.c1]; reflexivity).
  assert (D : (30000 <= 30000)%Z) by (vm_compute; discriminate).
  destruct (overwritten_request_only_times_out
              (Store.add Scenario.c1 (Store.createConnectionStore 1000))
              "c1" (Scenario.click "r1") (Scenario.click "r1") Scenario.c1
              30000 R eq_refl eq_refl eq_refl D)
    as (_ & _ & _ & H4 & H5 & _ & H7).
  intros s2 s3. split; [exact H4|]. split; [exact H5 | exact H7].
Defined.

(** ** Subscribers *)

Lemma remove_handlers id s :
  Store.contextHandlers (Store.remove id s) = Store.contextHandlers s.
Proof.
  unfold Store.remove.
  destruct (JsMap.get id (Store.connections s)); [|reflexivity].
  apply (fold_left_keeps (Store.removeStep id)
           (fun st => Store.contextHandlers st = Store.contextHandlers s));
    [reflexivity|].
  intros st [k pe] _ H. unfold Store.removeStep.
  now destruct (String.prefix id k).
Qed.

Lemma elapse_handlers d s :
  Store.contextHandlers (Store.elapse d s) = Store.contextHandlers s.
Proof.
  unfold Store.elapse.
  apply (fold_left_keeps _
           (fun st => Store.contextHandlers st = Store.contextHandlers s));
    [reflexivity|].
  intros st t _ H. now destruct (Store.due t <=? _)%Z.
Qed.

Lemma step_handlers ev s :
  exists added,
    Store.contextHandlers (Loop.step s ev) = Store.contextHandlers s ++ added.
Proof.
  destruct ev; simpl.
  - exists []. now rewrite app_nil_r.
  - exists []. now rewrite remove_handlers, app_nil_r.
  - exists []. rewrite app_nil_r. unfold Store.updateContext.
    destruct (JsMap.get id (Store.connections s)); [|reflexivity].
    now rewrite notifyFrom_spec.
  - exists []. rewrite app_nil_r. unfold Store.sendCommand.
    destruct (JsMap.get id (Store.connections s)); [|reflexivity].
    now destruct (negb _).
  - exists []. now rewrite app_nil_r.
  - now exists [handler].
  - exists []. now rewrite elapse_handlers, app_nil_r.
Qed.

Lemma run_handlers evs : forall s,
  exists added,
    Store.contextHandlers (Loop.run evs s) = Store.contextHandlers s ++ added.
Proof.
  induction evs as [|ev evs IH]; intros s; simpl.
  - exists []. now rewrite app_nil_r.
  - destruct (step_handlers ev s) as (a1 & E1).
    destruct (IH (Loop.step s ev)) as (a2 & E2).
    exists (a1 ++ a2). now rewrite E2, E1, app_assoc.
Qed.

(** X12: a subscriber is never dropped or moved. Once registered with
    [onContextUpdate], whatever happens to the store afterwards, it stays
    at its position in the list of handlers and is called, with the updated
    connection and the context, at every later [updateContext] of a
    registered connection. *)
Theorem subscriber_stays_registered :
  forall (s : Store.State) (handler : Store.Handler) (evs : list Loop.Event)
         (id : string) (ctx : Store.PageContext) (conn : Store.TabConnection),
    let position := length (Store.contextHandlers s) in
    let s1 := Loop.run evs (Store.onContextUpdate handler s) in
    Store.get id s1 = Some conn ->
    nth_error (Store.contextHandlers s1) position = Some handler /\
    In (position,
        Store.mkTabConnection (Store.id conn) (Store.tabId conn)
          (Store.ctx_url ctx) (Store.ctx_title ctx) (Store.ws conn)
          (Store.connectedAt conn) (Store.now s1) (Some ctx),
        ctx)
       (Store.invoked (Store.updateContext id ctx s1)).
Proof.
  intros s handler evs id ctx conn position s1 Hget.
  destruct (run_handlers evs (Store.onContextUpdate handler s)) as (added & E).
  fold s1 in E. simpl in E.
  assert (Hnth : nth_error (Store.contextHandlers s1) position = Some handler).
  { rewrite E, <- app_assoc. subst position.
    rewrite nth_error_app2 by lia. now rewrite Nat.sub_diag. }
  split; [exact Hnth|].
  unfold Store.get in Hget. unfold Store.updateContext. rewrite Hget.
  rewrite notifyFrom_spec. simpl. apply in_or_app. right.
  apply in_map_iff. exists position. split; [reflexivity|].
  apply in_seq. split; [lia|]. simpl.
  apply nth_error_Some. congruence.
Qed.

Lemma subscriber_stays_registered_witness :
  nth_error
    (Store.contextHandlers
       (Loop.run [Loop.Remove "c2"; Loop.Elapse 5]
          (Store.onContextUpdate Handlers.failing Scenario.sent)))
    0 = Some Handlers.failing.
Proof.
  exact (proj1 (subscriber_stays_registered Scenario.sent Handlers.failing
                  [Loop.Remove "c2"; Loop.Elapse 5] "c1" Handlers.page
                  Scenario.c1 eq_refl)).
Defined.

(** ** Extra properties of the socket handler *)

(** X13: a socket stays invisible until a frame carries a tab id. As
    long as every frame has a falsy [tabId], whatever the frames are, the
    connection is not registered and the store is exactly as it was: page
    contexts and results sent meanwhile are dropped. *)
Theorem frames_without_tab_leave_store_unchanged :
  forall (id : string) (socket : Store.WebSocket) (s : Store.State)
         (messages : list WsHandler.PincerMessage),
    Store.get id s = None ->
    WsHandler.firstTabId messages = None ->
    WsHandler.onMessages messages (WsHandler.handleUpgrade id socket, s)
      = (WsHandler.handleUpgrade id socket, s).
Proof.
  intros id socket s messages Hg.
  induction messages as [|m messages IH]; intros Hf; [reflexivity|].
  rewrite firstTabId_cons in Hf.
  destruct (WsHandler.truthy (WsHandler.tabId m)) eqn:Et; [discriminate|].
  change (WsHandler.onMessages (m :: messages)
            (WsHandler.handleUpgrade id socket, s))
    with (WsHandler.onMessages messages
            (WsHandler.onMessage m (WsHandler.handleUpgrade id socket, s))).
  unfold WsHandler.onMessage. simpl fst. simpl WsHandler.connId.
  rewrite handleMessage_unbound; auto.
Qed.

Lemma frames_without_tab_leave_store_unchanged_witness :
  WsHandler.onMessages
    [Window.frame "page_context" 0; Window.frame "disconnect" 0]
    (WsHandler.handleUpgrade "c2" (Store.mkWebSocket 2 1), Scenario.sent)
  = (WsHandler.handleUpgrade "c2" (Store.mkWebSocket 2 1), Scenario.sent).
Proof.
  apply frames_without_tab_leave_store_unchanged; reflexivity.
Defined.

Lemma handleMessage_connId id m st :
  WsHandler.connId (fst (WsHandler.handleMessage id m st))
    = WsHandler.connId (fst st).
Proof.
  destruct st as [u s]. unfold WsHandler.handleMessage.
  destruct (WsHandler.truthy (WsHandler.tabId m)
            && negb (WsHandler.truthyOpt (WsHandler.boundTabId u)));
    simpl;
    repeat match goal with
           | |- context [if ?b then _ else _] => destruct b
           | |- context [match ?o with Some _ => _ | None => _ end] =>
               destruct o
           end; reflexivity.
Qed.

(** X14: a [disconnect] frame is final. Once a tab is bound, after a
    frame of type [disconnect] the connection is out of the registry and
    no later frame on the socket brings it back: the tab stays bound, so
    nothing is added again, and page contexts for it are dropped. *)
Theorem disconnect_frame_is_final :
  forall (id : string) (socket : Store.WebSocket) (s : Store.State)
         (pre post : list WsHandler.PincerMessage) (m : WsHandler.PincerMessage)
         (t : Z),
    Store.get id s = None ->
    WsHandler.firstTabId (pre ++ [m]) = Some t ->
    WsHandler.type m = "disconnect" ->
    let st := WsHandler.onMessages (pre ++ m :: post)
                (WsHandler.handleUpgrade id socket, s) in
    WsHandler.boundTabId (fst st) = Some t /\
    Store.get id (snd st) = None.
Proof.
  intros id socket s pre post m t Hfresh Hfirst Htype st.
  assert (H0 : bindingHolds id (WsHandler.handleUpgrade id socket, s))
    by (split; [reflexivity | exact Hfresh]).
  destruct (onMessages_binding id (pre ++ [m]) _ H0) as [Hb E]. simpl in E.
  rewrite Hfirst in E.
  assert (Hr : retired id (WsHandler.onMessages (pre ++ [m])
                             (WsHandler.handleUpgrade id socket, s))).
  { split; [apply Hb|]. split.
    - rewrite E. destruct Hb as [_ Hb]. rewrite E in Hb. simpl.
      unfold WsHandler.truthy. destruct Hb as [Hb _].
      apply Z.eqb_neq in Hb. now rewrite Hb.
    - rewrite onMessages_app.
      destruct (onMessages_binding id pre _ H0) as [[Hc _] _].
      set (st1 := WsHandler.onMessages pre _) in *.
      change (WsHandler.onMessages [m] st1) with (WsHandler.onMessage m st1).
      unfold WsHandler.onMessage. rewrite Hc.
      unfold WsHandler.handleMessage. destruct st1 as [u1 s1].
      destruct (if _ : bool then _ else (u1, s1)) as [u2 s2].
      rewrite Htype. simpl. apply remove_get_same. }
  subst st.
  replace (pre ++ m :: post) with ((pre ++ [m]) ++ post)
    by (now rewrite <- app_assoc).
  rewrite onMessages_app.
  pose proof (onMessages_retired id post _ Hr) as (_ & _ & Hg).
  split; [|exact Hg].
  destruct (onMessages_binding id post _ Hb) as [_ E2].
  now rewrite E2, E.
Qed.

Lemma disconnect_frame_is_final_witness :
  Store.get "c1"
    (snd (WsHandler.onMessages
            ([Window.frame "connect" 7] ++ Window.frame "disconnect" 7 ::
             Window.rebinding)
            (WsHandler.handleUpgrade "c1" (Store.mkWebSocket 1 1),
             Store.createConnectionStore 1000)))
  = None.
Proof.
  exact (proj2 (disconnect_frame_is_final "c1" (Store.mkWebSocket 1 1)
                  (Store.createConnectionStore 1000)
                  [Window.frame "connect" 7] Window.rebinding
                  (Window.frame "disconnect" 7) 7
                  eq_refl eq_refl eq_refl)).
Defined.

(** X15: a [page_context] frame on a bound, registered connection
    replaces the cached context by the payload stamped with the server's
    clock, takes [url] and [title] from the payload (not from the frame)
    and sets [lastActivity] to now; the tab, the socket and the pending
    requests stay as they are. *)
Theorem page_context_frame_updates_connection :
  forall (id : string) (u : WsHandler.Upgrade) (s : Store.State)
         (m : WsHandler.PincerMessage) (c : Store.PageContext)
         (conn : Store.TabConnection),
    WsHandler.truthyOpt (WsHandler.boundTabId u) = true ->
    Store.get id s = Some conn ->
    WsHandler.type m = "page_context" ->
    WsHandler.payload m = Store.ContextValue c ->
    let st := WsHandler.handleMessage id m (u, s) in
    let stamped :=
      Store.mkPageContext (Store.ctx_url c) (Store.ctx_title c)
        (Store.selectedText c) (Store.visibleText c) (Store.meta c)
        (Store.now s) in
    fst st = u /\
    Store.get id (snd st) =
      Some (Store.mkTabConnection (Store.id conn) (Store.tabId conn)
              (Store.ctx_url c) (Store.ctx_title c) (Store.ws conn)
              (Store.connectedAt conn) (Store.now s) (Some stamped)) /\
    Store.pendingCommands (snd st) = Store.pendingCommands s /\
    Store.timers (snd st) = Store.timers s.
Proof.
  intros id u s m c conn Hb Hget Htype Hpay st stamped. subst st.
  unfold WsHandler.handleMessage. rewrite Hb, andb_false_r, Htype, Hpay.
  simpl. unfold WsHandler.handlePageContext, Store.updateContext.
  unfold Store.get in Hget. rewrite Hget, notifyFrom_spec. simpl.
  split; [reflexivity|]. split; [apply get_set_same|]. now split.
Qed.

Lemma page_context_frame_updates_connection_witness :
  Store.get "c1"
    (snd (WsHandler.handleMessage "c1"
            (WsHandler.mkPincerMessage "page_context" 9 "https://x" 0 None
               (Store.ContextValue Handlers.page))
            (WsHandler.mkUpgrade "c1" (Store.mkWebSocket 1 1) (Some 7%Z),
             Scenario.sent)))
  = Some (Store.mkTabConnection "c1" 7 "https://b" "B" (Store.mkWebSocket 1 1)
            1000 1000
            (Some (Store.mkPageContext "https://b" "B" None None [] 1000))).
Proof.
  exact (proj1 (proj2 (page_context_frame_updates_connection "c1"
    (WsHandler.mkUpgrade "c1" (Store.mkWebSocket 1 1) (Some 7%Z))
    Scenario.sent
    (WsHandler.mkPincerMessage "page_context" 9 "https://x" 0 None
       (Store.ContextValue Handlers.page))
    Handlers.page Scenario.c1 eq_refl eq_refl eq_refl eq_refl))).
Defined.

(** X16: when the socket of a registered connection closes (or
    reports an error), the connection leaves the registry and every request
    pending for it is rejected with "Connection closed" by the one
    settling call made on it, its entry deleted and its timer cleared. *)
Theorem socket_close_rejects_pending :
  forall (u : WsHandler.Upgrade) (s : Store.State) (conn : Store.TabConnection)
         (requestId : string) (pe : Store.Pending),
    Loop.reachable s ->
    Store.get (WsHandler.connId u) s = Some conn ->
    let key := (WsHandler.connId u ++ ":" ++ requestId)%string in
    JsMap.get key (Store.pendingCommands s) = Some pe ->
    let s' := snd (WsHandler.onClose (u, s)) in
    Store.get (WsHandler.connId u) s' = None /\
    Store.promiseState (Store.promise pe) s'
      = Some (Store.Rejected Store.ConnectionClosed) /\
    Store.settleCalls (Store.promise pe) s' = 1 /\
    JsMap.get key (Store.pendingCommands s') = None /\
    (forall t, In t (Store.timers s') -> Store.handle t <> Store.timeout pe).
Proof.
  intros u s conn requestId pe Hr Hget key Hkey s'. subst s'. simpl.
  pose proof (sound_reachable s Hr) as Hs.
  pose proof (sound_remove (WsHandler.connId u) s Hs) as (_ & _ & _ & _ & C4 & _).
  destruct Hs as (_ & _ & C2 & C3 & _).
  apply get_In in Hkey.
  destruct (remove_rejects_pending _ s conn key pe Hget Hkey
              (prefix_key _ _)) as (_ & Htm & Hgone).
  assert (Hp : Store.promiseState (Store.promise pe)
                 (Store.remove (WsHandler.connId u) s)
               = Some (Store.Rejected Store.ConnectionClosed)).
  { apply (promiseState_appended _ _ s _
             (rejections (WsHandler.connId u) (Store.pendingCommands s))).
    - destruct (C2 key pe Hkey) as (d & Hd). exact (C3 _ Hd).
    - unfold Store.get in Hget. unfold Store.remove. rewrite Hget.
      now rewrite remove_loop_settled.
    - unfold rejections. rewrite map_map. simpl. apply in_map_iff.
      exists (key, pe). split; [reflexivity|]. apply filter_In.
      split; [assumption | apply prefix_key].
    - intros c Hc. unfold rejections in Hc. apply in_map_iff in Hc.
      now destruct Hc as (e & <- & _). }
  split; [apply remove_get_same|]. split; [exact Hp|].
  split; [|split; assumption].
  specialize (C4 (Store.promise pe)).
  destruct (Store.settleCalls (Store.promise pe)
              (Store.remove (WsHandler.connId u) s)) as [|[|n]] eqn:E;
    [|reflexivity|lia].
  apply promiseState_unsettled in E. congruence.
Qed.

Lemma socket_close_rejects_pending_witness :
  Store.promiseState 0
    (snd (WsHandler.onClose
            (WsHandler.mkUpgrade "c1" (Store.mkWebSocket 1 1) (Some 7%Z),
             Scenario.sent)))
  = Some (Store.Rejected Store.ConnectionClosed).
Proof.
  assert (R : Loop.reachable Scenario.sent)
    by (exists 1000%Z,
          [Loop.Add Scenario.c1; Loop.SendCommand "c1" (Scenario.click "r1")];
        reflexivity).
  exact (proj1 (proj2 (socket_close_rejects_pending
    (WsHandler.mkUpgrade "c1" (Store.mkWebSocket 1 1) (Some 7%Z))
    Scenario.sent Scenario.c1 "r1" (Store.mkPending 0 0)
    R eq_refl eq_refl))).
Defined.

(** ** Extra properties of the client connection *)

Lemma backoff_delay_listed a :
  (0 <= a < 5)%Z -> In (1000 * 2 ^ a)%Z Client.backoffDelays.
Proof.
  intros H.
  assert (C : (a = 0 \/ a = 1 \/ a = 2 \/ a = 3 \/ a = 4)%Z) by lia.
  destruct C as [->|[->|[->|[->| ->]]]]; simpl; tauto.
Qed.

Lemma bounded_fields g g' :
  Gateway.reconnectAttempts g' = Gateway.reconnectAttempts g ->
  Gateway.delays g' = Gateway.delays g ->
  (forall t, In t (Gateway.timers g') -> In t (Gateway.timers g)) ->
  Client.bounded g -> Client.bounded g'.
Proof.
  intros E1 E2 E3 (Ha & Hd & Ht). unfold Client.bounded.
  rewrite E1, E2. repeat split; try apply Ha; auto.
Qed.

Lemma bounded_scheduleReconnect g :
  Client.bounded g -> Client.bounded (Gateway.scheduleReconnect g).
Proof.
  intros (Ha & Hd & Ht). unfold Gateway.scheduleReconnect.
  unfold Gateway.maxReconnectAttempts, Gateway.reconnectDelay.
  rewrite Z.geb_leb.
  destruct (5 <=? Gateway.reconnectAttempts g)%Z eqn:E; [now repeat split|].
  apply Z.leb_gt in E.
  assert (Hl : In (1000 * 2 ^ Gateway.reconnectAttempts g)%Z
                  Client.backoffDelays) by (apply backoff_delay_listed; lia).
  unfold Client.bounded.
  cbn [Gateway.reconnectAttempts Gateway.delays Gateway.timers].
  split; [lia|]. split.
  - intros d Hin. apply in_app_or in Hin.
    destruct Hin as [Hin|[<-|[]]]; auto.
  - intros t Hin. apply in_app_or in Hin.
    destruct Hin as [Hin|[<-|[]]]; auto.
Qed.

Lemma bounded_step ev g : Client.bounded g -> Client.bounded (Client.step g ev).
Proof.
  intros Hb. destruct ev; simpl.
  - destruct (connect_keeps opening g) as (E1 & E2 & E3).
    apply (bounded_fields g); auto. now rewrite E3.
  - destruct Hb as (Ha & Hd & Ht). unfold Gateway.disconnect, Client.bounded.
    simpl. unfold Gateway.maxReconnectAttempts. split; [lia|].
    split; [assumption|].
    destruct (Gateway.reconnectTimer g); [|assumption].
    intros t Hin. apply filter_In in Hin. now apply Ht.
  - destruct Hb as (Ha & Hd & Ht). unfold Client.bounded. simpl.
    split; [lia | now split].
  - unfold Gateway.onclose. apply bounded_scheduleReconnect.
    now apply (bounded_fields g).
  - now apply (bounded_fields g).
  - now apply (bounded_fields g).
  - unfold Gateway.expire. destruct (existsb _ _); [|assumption].
    match goal with
    | |- Client.bounded (Gateway.connect _ ?g1) =>
        destruct (connect_keeps opening g1) as (E1 & E2 & E3);
        apply (bounded_fields g); [exact E1 | exact E2 | |exact Hb];
        rewrite E3
    end.
    simpl. intros t Hin. now apply filter_In in Hin.
Qed.

(** X17: whatever calls, socket events and timer expiries a client
    goes through, its attempt counter stays between 0 and 5 and every
    delay it ever passes to [setTimeout], hence the delay of every armed
    timer, is one of 1000, 2000, 4000, 8000 and 16000 ms. *)
Theorem client_backoff_bounded :
  forall (evs : list Client.Event),
    let g := Client.run evs Gateway.create in
    (0 <= Gateway.reconnectAttempts g <= 5)%Z /\
    (forall d, In d (Gateway.delays g) ->
       In d [1000; 2000; 4000; 8000; 16000]%Z) /\
    (forall h d, In (h, d) (Gateway.timers g) ->
       In d [1000; 2000; 4000; 8000; 16000]%Z).
Proof.
  intros evs g.
  assert (Hb : Client.bounded g).
  { subst g. unfold Client.run.
    apply (fold_left_keeps Client.step Client.bounded).
    - unfold Client.bounded. simpl. split; [lia|]. split; intros ? [].
    - intros g ev _. apply bounded_step. }
  destruct Hb as (Ha & Hd & Ht). split; [exact Ha|]. split; [exact Hd|].
  intros h d Hin. exact (Ht (h, d) Hin).
Qed.

Lemma passive_step_after_disconnect ev g :
  Client.passive ev = true ->
  Gateway.reconnectAttempts g = 5%Z -> Gateway.ws g = None ->
  let g' := Client.step g ev in
  Gateway.reconnectAttempts g' = 5%Z /\ Gateway.ws g' = None /\
  Gateway.delays g' = Gateway.delays g /\
  Gateway.timers g' = Gateway.timers g /\
  Gateway.nextTimer g' = Gateway.nextTimer g.
Proof.
  intros Hp Ha Hw. destruct ev; try discriminate; simpl.
  - unfold Gateway.onclose, Gateway.scheduleReconnect. simpl.
    rewrite Ha. simpl. auto.
  - auto.
  - unfold Gateway.setReadyState. simpl. rewrite Hw. auto.
Qed.

Lemma passive_run_after_disconnect evs : forall g,
  forallb Client.passive evs = true ->
  Gateway.reconnectAttempts g = 5%Z -> Gateway.ws g = None ->
  let g' := Client.run evs g in
  Gateway.reconnectAttempts g' = 5%Z /\ Gateway.ws g' = None /\
  Gateway.delays g' = Gateway.delays g /\
  Gateway.timers g' = Gateway.timers g /\
  Gateway.nextTimer g' = Gateway.nextTimer g.
Proof.
  induction evs as [|ev evs IH]; intros g Hp Ha Hw; simpl; [auto|].
  simpl in Hp. apply andb_true_iff in Hp. destruct Hp as [Hev Hp].
  destruct (passive_step_after_disconnect ev g Hev Ha Hw)
    as (A1 & W1 & D1 & T1 & N1).
  destruct (IH _ Hp A1 W1) as (A2 & W2 & D2 & T2 & N2).
  repeat split; congruence.
Qed.

(** X18: [disconnect()] stops the reconnects only as long as no socket
    opens. After [disconnect()], whatever closes and errors the sockets
    created before still report, no [setTimeout] call is made, the timers
    stay those [disconnect()] left, the attempt counter stays 5 and
    [status] reads [disconnected]. The counter is the only guard, though:
    when one of those sockets opens afterwards, its open handler sets the
    counter to 0, and its close then arms a 1000 ms timer whose expiry
    calls [connect()]. *)
Theorem disconnect_stops_reconnecting :
  forall (g : Gateway.GatewayConnection) (evs : list Client.Event),
    forallb Client.passive evs = true ->
    let g' := Client.run evs (Gateway.disconnect g) in
    let o := Client.run [Client.Opened; Client.Closed] g' in
    (Gateway.delays g' = Gateway.delays g /\
     Gateway.timers g' = Gateway.timers (Gateway.disconnect g) /\
     Gateway.reconnectAttempts g' = 5%Z /\
     Gateway.status g' = Gateway.disconnected) /\
    (Gateway.reconnectAttempts (Client.run [Client.Opened] g') = 0%Z /\
     Gateway.delays o = Gateway.delays g ++ [1000%Z] /\
     Gateway.timers o
       = Gateway.timers (Gateway.disconnect g)
           ++ [(Gateway.nextTimer g, 1000%Z)] /\
     Gateway.reconnectAttempts o = 1%Z /\
     Gateway.status o = Gateway.disconnected /\
     Gateway.status (Gateway.expire (Gateway.nextTimer g) (inr tt) o)
       = Gateway.connecting).
Proof.
  intros g evs Hp g' o.
  destruct (passive_run_after_disconnect evs (Gateway.disconnect g) Hp
              eq_refl eq_refl) as (A & W & D & T & N).
  fold g' in A, W, D, T, N.
  change (Gateway.delays (Gateway.disconnect g)) with (Gateway.delays g) in D.
  change (Gateway.nextTimer (Gateway.disconnect g))
    with (Gateway.nextTimer g) in N.
  assert (S : Gateway.status g' = Gateway.disconnected)
    by (unfold Gateway.status; now rewrite W).
  split; [repeat split; assumption|].
  assert (Hd : Gateway.delays o = Gateway.delays g ++ [1000%Z]).
  { subst o. simpl. unfold Gateway.onclose, Gateway.scheduleReconnect.
    simpl. now rewrite D. }
  assert (Ht : Gateway.timers o
               = Gateway.timers (Gateway.disconnect g)
                   ++ [(Gateway.nextTimer g, 1000%Z)]).
  { subst o. simpl. unfold Gateway.onclose, Gateway.scheduleReconnect.
    simpl. now rewrite T, N. }
  assert (Hs : Gateway.status o = Gateway.disconnected).
  { subst o. simpl. unfold Gateway.onclose, Gateway.scheduleReconnect,
      Gateway.status. simpl. now rewrite W. }
  split; [reflexivity|]. split; [exact Hd|]. split; [exact Ht|].
  split; [reflexivity|]. split; [exact Hs|].
  unfold Gateway.expire. rewrite Ht, existsb_app.
  cbn [existsb fst]. rewrite Nat.eqb_refl, orb_true_r.
  apply connect_from_disconnected. exact Hs.
Qed.

Lemma disconnect_stops_reconnecting_witness :
  let g' := Client.run [Client.Errored; Client.Closed]
              (Gateway.disconnect
                 (Gateway.connect (inr tt)
                    (Gateway.connect (inr tt) Gateway.create))) in
  let o := Client.run [Client.Opened; Client.Closed] g' in
  Gateway.delays g' = [] /\
  Gateway.status g' = Gateway.disconnected /\
  Gateway.delays o = [1000%Z] /\
  Gateway.status (Gateway.expire 1 (inr tt) o) = Gateway.connecting.
Proof.
  destruct (disconnect_stops_reconnecting
              (Gateway.connect (inr tt)
                 (Gateway.connect (inr tt) Gateway.create))
              [Client.Errored; Client.Closed] eq_refl)
    as ((H1 & _ & _ & H2) & (_ & H3 & _ & _ & _ & H4)).
  intros g' o.
  split; [exact H1|]. split; [exact H2|]. split; [exact H3 | exact H4].
Defined.

(** X19: [disconnect()] clears the timer recorded last and no other.
    A reconnect timer armed earlier and still running survives it, and its
    expiry opens a new socket although the caller has disconnected. *)
Theorem disconnect_clears_only_latest_timer :
  forall (g : Gateway.GatewayConnection) (latest earlier : nat) (delay : Z),
    Gateway.reconnectTimer g = Some latest ->
    In (earlier, delay) (Gateway.timers g) ->
    earlier <> latest ->
    let g' := Gateway.disconnect g in
    let g'' := Gateway.expire earlier (inr tt) g' in
    (forall d, ~ In (latest, d) (Gateway.timers g')) /\
    In (earlier, delay) (Gateway.timers g') /\
    Gateway.status g' = Gateway.disconnected /\
    Gateway.ws g'' = Some Gateway.CONNECTING /\
    Gateway.status g'' = Gateway.connecting.
Proof.
  intros g latest earlier delay Hl Hin Hne g' g''.
  assert (Ht : Gateway.timers g' =
               filter (fun t => negb (Nat.eqb (fst t) latest)) (Gateway.timers g))
    by (subst g'; unfold Gateway.disconnect; simpl; now rewrite Hl).
  assert (Hin' : In (earlier, delay) (Gateway.timers g')).
  { rewrite Ht. apply filter_In. split; [assumption|]. simpl.
    now apply negb_true_iff, Nat.eqb_neq. }
  split; [|split; [exact Hin'|split; [reflexivity|]]].
  - intros d H. rewrite Ht in H. apply filter_In in H. destruct H as [_ H].
    simpl in H. now rewrite Nat.eqb_refl in H.
  - assert (He : existsb (fun t => Nat.eqb (fst t) earlier) (Gateway.timers g')
                 = true).
    { apply existsb_exists. exists (earlier, delay). split; [assumption|].
      apply Nat.eqb_refl. }
    subst g''. unfold Gateway.expire. rewrite He.
    unfold Gateway.connect. simpl. now split.
Qed.

Lemma disconnect_clears_only_latest_timer_witness :
  let g := Client.run [Client.Connect (inr tt); Client.Closed;
                       Client.Connect (inr tt); Client.Closed]
                      Gateway.create in
  Gateway.timers (Gateway.disconnect g) = [(1, 1000%Z)] /\
  Gateway.status (Gateway.expire 1 (inr tt) (Gateway.disconnect g))
    = Gateway.connecting.
Proof.
  intros g.
  assert (N : 1 <> 2) by discriminate.
  destruct (disconnect_clears_only_latest_timer g 2 1 1000%Z eq_refl
              (or_introl eq_refl) N) as (_ & _ & _ & _ & H).
  split; [reflexivity | exact H].
Defined.

(** X20: a successful open resets the backoff: whatever the counter
    was, the close that follows an open schedules the first delay again,
    1000 ms, and counts as attempt 1. *)
Theorem open_resets_backoff :
  forall g : Gateway.GatewayConnection,
    let g' := Gateway.socketClosed (Gateway.socketOpened g) in
    Gateway.delays g' = Gateway.delays g ++ [1000%Z] /\
    Gateway.timers g' = Gateway.timers g ++ [(Gateway.nextTimer g, 1000%Z)] /\
    Gateway.reconnectAttempts g' = 1%Z /\
    Gateway.reconnectTimer g' = Some (Gateway.nextTimer g).
Proof. intros g. repeat split. Qed.

(** X21: [send] writes the message exactly when [status] reads
    [connected] and the socket does not throw; it then returns [true].
    In every other case it returns [false] and nothing is written. *)
Theorem send_transmits_iff_connected :
  forall (M : Type) (message : M) (throws : bool)
         (g : Gateway.GatewayConnection) (written : list M),
    let r := Client.send message throws (g, written) in
    (snd r = true <->
     Gateway.status g = Gateway.connected /\ throws = false) /\
    fst r = (g, if snd r then written ++ [message] else written).
Proof.
  intros M message throws g written. unfold Client.send, Gateway.status.
  destruct (Gateway.ws g) as [r|]; simpl.
  - destruct (Z.eqb_spec r Gateway.OPEN) as [->|Hne]; simpl.
    + destruct throws; simpl; split; try reflexivity;
        split; try tauto; try discriminate. intros [_ H]. discriminate.
    + split; [|reflexivity]. split; [discriminate|]. intros [H _].
      destruct (r =? Gateway.CONNECTING)%Z; discriminate.
  - split; [|reflexivity]. split; [discriminate|]. intros [H _]. discriminate.
Qed.

(** ** Extra properties of the tools *)

Lemma getActive_registered s c :
  Store.getActive s = Some c -> In c (Store.list_ s).
Proof.
  unfold Store.getActive, Store.list_. intros H.
  destruct (getActiveLoop_spec (JsMap.values (Store.connections s)) None 0)
    as (m' & _ & _ & [[Hr _]|(c' & Hr & Hin & _)]); congruence.
Qed.

(** In a reachable store the connection a tool resolves is registered
    under its own id. *)
Lemma target_registered tabId s conn :
  Loop.reachable s ->
  Tools.target tabId s = Some conn ->
  Store.get (Store.id conn) s = Some conn.
Proof.
  intros Hr Ht. destruct (keyed_reachable s Hr) as [Hnd Hid].
  assert (Hactive : Store.getActive s = Some conn ->
                    Store.get (Store.id conn) s = Some conn).
  { intros Ha. apply getActive_registered in Ha.
    unfold Store.list_, JsMap.values in Ha. apply in_map_iff in Ha.
    destruct Ha as ([k c] & E & Hin). simpl in E. subst c.
    rewrite (Hid k conn Hin). now apply In_get. }
  unfold Tools.target in Ht. destruct tabId as [id|]; [|auto].
  destruct (Tools.given (Some id)); [|auto].
  unfold Store.get in *. pose proof (get_In _ _ _ Ht) as Hin.
  now rewrite (Hid id conn Hin).
Qed.

(** X22: what [pincer_click] does up to its [await], on any store
    and whatever was done with it before, case by case. When no tab is
    resolved it returns "No browser tab connected." and leaves the store
    untouched. When a connection is resolved, it is registered under its
    own id, so the call never fails with "Connection not found"; then,
    with neither [ref] nor [selector] given, it returns "Either ref or
    selector required."; with one of them given and the socket not open, it
    returns "Click failed: Error: Connection not open: id"; in both cases
    the store is untouched. With one of them given and the socket open, it
    sends the click command on that socket and waits for a new, unsettled
    promise, stored under `id:requestId` with a timer of 30000 ms. *)
Theorem click_tool_start :
  forall (s : Store.State) (params : Tools.ClickParams),
    Loop.reachable s ->
    let command := Tools.clickCommand params (Store.now s) in
    match Tools.target (Tools.tabId params) s with
    | None =>
        Tools.clickStart params s
          = (s, inl (Tools.mkToolResult
                       (Tools.Literal "No browser tab connected.") true))
    | Some conn =>
        Store.get (Store.id conn) s = Some conn /\
        if negb (Tools.given (Tools.ref params))
           && negb (Tools.given (Tools.selector params))
        then
          Tools.clickStart params s
            = (s, inl (Tools.mkToolResult
                         (Tools.Literal "Either ref or selector required.")
                         true))
        else if (Store.readyState (Store.ws conn) =? Store.OPEN)%Z
        then
          exists s',
            Tools.clickStart params s = (s', inr (Store.nextPromise s)) /\
            Store.promiseState (Store.nextPromise s) s' = None /\
            Store.settleCalls (Store.nextPromise s) s = 0%nat /\
            JsMap.get (Store.id conn ++ ":" ++ Store.requestId command)%string
                      (Store.pendingCommands s')
              = Some (Store.mkPending (Store.nextPromise s)
                                      (Store.nextTimer s)) /\
            Store.timers s'
              = Store.timers s
                  ++ [Store.mkTimer (Store.nextTimer s)
                        (Store.now s + 30000)%Z
                        (Store.id conn ++ ":" ++ Store.requestId command)%string
                        (Store.nextPromise s)] /\
            Store.wire s'
              = Store.wire s ++ [(Store.socket (Store.ws conn), command)] /\
            Store.connections s' = Store.connections s
        else
          Tools.clickStart params s
            = (s, inl (Tools.mkToolResult
                         (Tools.Literal
                            ("Click failed: Error: Connection not open: "
                             ++ Store.id conn)%string)
                         true))
    end.
Proof.
  intros s params Hr command. unfold Tools.clickStart.
  destruct (Tools.target (Tools.tabId params) s) as [conn|] eqn:Et;
    [|reflexivity].
  pose proof (target_registered _ s conn Hr Et) as Hget.
  split; [exact Hget|].
  destruct (negb (Tools.given (Tools.ref params))
            && negb (Tools.given (Tools.selector params))); [reflexivity|].
  fold command. unfold Store.get in Hget. unfold Store.sendCommand.
  rewrite Hget. unfold Store.OPEN.
  destruct (Store.readyState (Store.ws conn) =? 1)%Z; cbn [negb];
    [|reflexivity].
  eexists. split; [reflexivity|].
  destruct (wf_reachable s Hr) as (_ & _ & _ & _ & W5).
  assert (Hc : Store.settleCalls (Store.nextPromise s) s = 0%nat)
    by (unfold Store.settleCalls; now rewrite calls_fresh).
  split; [apply promiseState_unsettled; exact Hc|].
  split; [exact Hc|]. cbn [Store.pendingCommands Store.timers Store.wire
                           Store.connections].
  split; [apply get_set_same|]. repeat split.
Qed.

Lemma click_tool_start_witness :
  let s := Store.add Scenario.c1 (Store.createConnectionStore 1000) in
  exists s',
    Tools.clickStart (Tools.mkClickParams None (Some "e3") None) s
      = (s', inr 0%nat) /\
    JsMap.get "c1:click-1000" (Store.pendingCommands s')
      = Some (Store.mkPending 0 0) /\
    Store.wire s'
      = [(1%nat,
          Store.mkPincerCommand "click" "click-1000"
            [("ref", Store.JsonValue "e3")])].
Proof.
  assert (R : Loop.reachable
                (Store.add Scenario.c1 (Store.createConnectionStore 1000)))
    by (exists 1000%Z, [Loop.Add Scenario.c1]; reflexivity).
  pose proof (click_tool_start
                (Store.add Scenario.c1 (Store.createConnectionStore 1000))
                (Tools.mkClickParams None (Some "e3") None) R) as H.
  destruct H as (_ & s' & H1 & _ & _ & H2 & _ & H3 & _).
  intros s. exists s'. split; [exact H1|]. split; [exact H2 | exact H3].
Defined.

(** X23: as the code stands, a [pincer_click] that waited never
    succeeds. Whatever is done with the store, when the promise of a call
    is settled the tool returns an error result, "Click failed" with
    "Connection closed" or with "Command timeout"; the branch that
    returns the result of the click is never taken. *)
Theorem click_tool_never_succeeds :
  forall (s : Store.State) (p : nat) (o : Store.Settlement),
    Loop.reachable s ->
    Store.promiseState p s = Some o ->
    Tools.isError (Tools.clickFinish o) = true /\
    (Tools.text (Tools.clickFinish o)
       = Tools.Literal "Click failed: Error: Connection closed" \/
     Tools.text (Tools.clickFinish o)
       = Tools.Literal "Click failed: Error: Command timeout").
Proof.
  intros s p o Hr Hp.
  destruct (sound_reachable s Hr) as (_ & _ & _ & _ & _ & _ & C6).
  apply promiseState_In in Hp.
  destruct (C6 (p, o) Hp) as [E|E]; simpl in E; subst o; simpl; auto.
Qed.

Lemma click_tool_never_succeeds_witness :
  Tools.isError
    (Tools.clickFinish (Store.Rejected Store.CommandTimeout)) = true.
Proof.
  assert (R : Loop.reachable
                (Loop.run [Loop.CommandResult "c1" "r1" Scenario.ok;
                           Loop.Elapse 30000] Scenario.sent))
    by (exists 1000%Z,
          [Loop.Add Scenario.c1; Loop.SendCommand "c1" (Scenario.click "r1");
           Loop.CommandResult "c1" "r1" Scenario.ok; Loop.Elapse 30000];
        reflexivity).
  exact (proj1 (click_tool_never_succeeds _ 0
                  (Store.Rejected Store.CommandTimeout) R eq_refl)).
Defined.

(** ** The context summary *)

Lemma string_length_append (a b : string) :
  String.length (a ++ b) = String.length a + String.length b.
Proof. induction a as [|c a IH]; simpl; [reflexivity | now rewrite IH]. Qed.

Lemma substring_length_le (n : nat) : forall (s : string),
  String.length (String.substring 0 n s) <= n.
Proof.
  induction n as [|n IH]; intros [|c s]; simpl; try lia.
  specialize (IH s). lia.
Qed.

Lemma prefix_append (a b : string) : String.prefix a (a ++ b) = true.
Proof.
  induction a as [|c a IH]; simpl; [now destruct b|].
  destruct (Ascii.ascii_dec c c) as [_|Hne]; [exact IH | contradiction].
Qed.

Lemma prefix_same (a : string) : String.prefix a a = true.
Proof.
  induction a as [|c a IH]; simpl; [reflexivity|].
  destruct (Ascii.ascii_dec c c) as [_|Hne]; [exact IH | contradiction].
Qed.

(** X24: the summary of a page context starts with "Browser tab: "
    followed by the title, or by the url when the title is empty, and
    quotes at most the first 100 characters of the selection: it is never
    longer than these plus 129 characters of framing. *)
Theorem summary_is_bounded :
  forall c : Store.PageContext,
    let tab := Summary.orElse (Store.ctx_title c) (Store.ctx_url c) in
    String.prefix ("Browser tab: " ++ tab) (Summary.formatContextSummary c)
      = true /\
    String.length (Summary.formatContextSummary c)
      <= String.length tab + 129.
Proof.
  intros c tab. unfold Summary.formatContextSummary. fold tab.
  assert (Hone : String.prefix ("Browser tab: " ++ tab) ("Browser tab: " ++ tab)
                   = true /\
                 String.length ("Browser tab: " ++ tab)
                   <= String.length tab + 129).
  { split; [apply prefix_same|]. rewrite string_length_append. simpl. lia. }
  destruct (Store.selectedText c) as [sel|]; [|exact Hone].
  destruct (String.eqb sel ""); [exact Hone|].
  cbn [String.concat app]. split; [apply prefix_append|].
  rewrite !string_length_append.
  pose proof (substring_length_le 100 sel). simpl. lia.
Qed.

(** ** Instances of the statements above that carry no premise *)

Lemma getByTabId_first_match_witness :
  Store.tabId Scenario.c10 = 8%Z /\
  exists before after,
    Store.list_ Scenario.sent10 = before ++ Scenario.c10 :: after /\
    forall c, In c before -> Store.tabId c <> 8%Z.
Proof. exact (getByTabId_first_match Scenario.sent10 8). Defined.

Lemma client_backoff_bounded_witness :
  let g := Client.run [Client.Connect (inr tt); Client.Closed;
                       Client.Expire 1 (inr tt); Client.Closed]
                      Gateway.create in
  (0 <= Gateway.reconnectAttempts g <= 5)%Z /\
  (forall d, In d (Gateway.delays g) ->
     In d [1000; 2000; 4000; 8000; 16000]%Z) /\
  (forall h d, In (h, d) (Gateway.timers g) ->
     In d [1000; 2000; 4000; 8000; 16000]%Z).
Proof.
  exact (client_backoff_bounded
           [Client.Connect (inr tt); Client.Closed;
            Client.Expire 1 (inr tt); Client.Closed]).
Defined.

Lemma send_transmits_iff_connected_witness :
  snd (Client.send "frame" false
         (Gateway.socketOpened (Gateway.connect (inr tt) Gateway.create), []))
  = true.
Proof.
  apply (send_transmits_iff_connected string "frame" false
           (Gateway.socketOpened (Gateway.connect (inr tt) Gateway.create)) []).
  split; reflexivity.
Defined.
